(** * Texas Hold'em engine: hand evaluator and table state machine

    A shallow embedding of the poker engine of this repository, in its two
    copies: the offline engine of the React client ([utils/poker.ts] and
    [App.tsx]) and the authoritative engine of the socket server
    ([server.js]).  Chips, bets and pots are JavaScript numbers: binary64
    doubles with their rounding, NaN and the infinities ([Js.Num]).  Seat
    indices, card values and hand scores are small integers, on which
    doubles are exact ([Z]); the only fractional score, the kicker part of
    the client's One Pair rung, is kept as a rational ([Q]). *)

From Stdlib Require Import ZArith QArith Qround Qreduction Qpower Lqa String List Sorted Lia
  DecimalString.
From stdpp Require Import base tactics option list strings.
Import ListNotations.

Local Open Scope Z_scope.
Local Open Scope list_scope.

(** ** JavaScript numbers

    A number of the program is a binary64 double: NaN, an infinity, or a
    finite value, kept here as the rational in lowest terms that it is.
    The two zeros are one value: the program never divides by a zero, and
    comparison, [Math.min] of the amounts it compares, printing and JSON all
    treat them alike.  Every arithmetic result is rounded to the nearest
    double, the even one of two equally near, as IEEE 754 asks. *)

Inductive Num := NaN | Infinity (negative : bool) | Finite (q : Q).

(** The double that an integer literal or an integer-valued field stands
    for, when the integer is one a double can hold. *)
Definition Int (z : Z) : Num := Finite (inject_Z z).

Module Js.

(** The [e] with [2^e <= a/d < 2^(e+1)], for positive [a] and [d]: with
    [k] above the logarithm of [d] the quotient [a * 2^k / d] is at least 1,
    where the logarithm of its integer part is that of the quotient. *)
Definition binaryExponent (a d : Z) : Z :=
  let k := Z.log2 d + 1 in
  Z.log2 (a * 2 ^ k / d) - k.

(** The integer nearest to [x / y], the even one of two equally near. *)
Definition nearestEven (x y : Z) : Z :=
  let qt := x / y in
  let r := x mod y in
  if 2 * r <? y then qt
  else if y <? 2 * r then qt + 1
  else if Z.even qt then qt else qt + 1.

(** Rounding to binary64: 53 significant bits, no exponent below -1074
    (the subnormal numbers), infinity from 2^1024 on. *)
Definition roundToDouble (q : Q) : Num :=
  let n := Qnum q in
  let d := Zpos (Qden q) in
  if n =? 0 then Finite 0
  else
    let a := Z.abs n in
    let s := Z.max (binaryExponent a d - 52) (-1074) in
    let m := nearestEven (a * 2 ^ Z.max 0 (- s)) (d * 2 ^ Z.max 0 s) in
    if 2 ^ 1024 <=? m * 2 ^ Z.max 0 s then Infinity (n <? 0)
    else Finite (Qred (inject_Z (Z.sgn n * m) * 2 ^ s)).

(** [x + y] *)
Definition add (x y : Num) : Num :=
  match x, y with
  | NaN, _ | _, NaN => NaN
  | Infinity a, Infinity b => if Bool.eqb a b then Infinity a else NaN
  | Infinity a, Finite _ => Infinity a
  | Finite _, Infinity b => Infinity b
  | Finite p, Finite q => roundToDouble (p + q)
  end.

Definition opp (x : Num) : Num :=
  match x with
  | NaN => NaN
  | Infinity a => Infinity (negb a)
  | Finite q => Finite (- q)
  end.

(** [x - y] *)
Definition sub (x y : Num) : Num := add x (opp y).

(** [x * y] *)
Definition mul (x y : Num) : Num :=
  match x, y with
  | NaN, _ | _, NaN => NaN
  | Finite a, Finite b => roundToDouble (a * b)
  | Infinity s, Finite b | Finite b, Infinity s =>
      if Qnum b =? 0 then NaN else Infinity (xorb s (Qnum b <? 0))
  | Infinity s, Infinity s' => Infinity (xorb s s')
  end.

(** The order of two numbers; NaN is ordered with nothing. *)
Definition compare (x y : Num) : option comparison :=
  match x, y with
  | NaN, _ | _, NaN => None
  | Infinity a, Infinity b =>
      Some (if Bool.eqb a b then Eq else if a then Lt else Gt)
  | Infinity a, Finite _ => Some (if a then Lt else Gt)
  | Finite _, Infinity b => Some (if b then Gt else Lt)
  | Finite p, Finite q => Some (p ?= q)%Q
  end.

(** [x === y], [x < y], [x <= y], [x > y], [x >= y] *)
Definition eqb (x y : Num) : bool :=
  match compare x y with Some Eq => true | _ => false end.
Definition ltb (x y : Num) : bool :=
  match compare x y with Some Lt => true | _ => false end.
Definition leb (x y : Num) : bool :=
  match compare x y with Some Lt | Some Eq => true | _ => false end.
Definition gtb (x y : Num) : bool := ltb y x.
Definition geb (x y : Num) : bool := leb y x.

(** [Math.min(x, y)] *)
Definition min (x y : Num) : Num :=
  match compare x y with
  | None => NaN
  | Some Gt => y
  | Some _ => x
  end.

(** [Math.floor(x)]: the integer part of a double is a double. *)
Definition floor (x : Num) : Num :=
  match x with
  | Finite q => Int (Qfloor q)
  | _ => x
  end.

(** [x / l.length] for an array of [n] elements. *)
Definition divByLength (x : Num) (n : nat) : Num :=
  match x, n with
  | NaN, _ => NaN
  | Infinity a, _ => Infinity a
  | Finite q, O => if Qnum q =? 0 then NaN else Infinity (Qnum q <? 0)
  | Finite q, S _ => roundToDouble (q / inject_Z (Z.of_nat n))
  end.

(** A number used as a condition: NaN and 0 are falsy. *)
Definition truthy (x : Num) : bool :=
  match x with
  | NaN => false
  | Infinity _ => true
  | Finite q => negb (Qnum q =? 0)
  end.

(** *** [`${x}`]: Number::toString *)

(** The [n] with [10^(n-1) <= q < 10^n], for a positive [q], from an
    estimate that is off by one at most. *)
Fixpoint adjustExponent (fuel : nat) (q : Q) (n : Z) : Z :=
  match fuel with
  | O => n
  | S fuel' =>
      if Qle_bool (10 ^ n) q then adjustExponent fuel' q (n + 1)
      else if Qle_bool (10 ^ (n - 1)) q then n
      else adjustExponent fuel' q (n - 1)
  end.

Definition decimalExponent (q : Q) : Z :=
  let e := binaryExponent (Qnum q) (Zpos (Qden q)) in
  adjustExponent 4 q (e * 1233 / 4096 + 1).

(** The digits [s], their number [k] and the exponent [n] of the shortest
    decimal [s * 10^(n-k)] that reads back as the double [q]; of several,
    the nearest to [q], and the even one of two equally near.  Seventeen
    digits tell any two doubles apart. *)
Fixpoint shortestDigits (fuel : nat) (k : Z) (q : Q) (n : Z) : Z * Z * Z :=
  let scale := (10 ^ (n - k))%Q in
  let lo := Qfloor (q / scale) in
  let hi := lo + 1 in
  let reads (s : Z) :=
    match roundToDouble (inject_Z s * scale) with
    | Finite q' => Qeq_bool q' q
    | _ => false
    end in
  let up := if hi =? 10 ^ k then (10 ^ (k - 1), k, n + 1) else (hi, k, n) in
  let down := (lo, k, n) in
  match fuel with
  | O => down
  | S fuel' =>
      match reads lo, reads hi with
      | true, true =>
          match (q - inject_Z lo * scale ?= inject_Z hi * scale - q)%Q with
          | Lt => down
          | Gt => up
          | Eq => if Z.even lo then down else up
          end
      | true, false => down
      | false, true => up
      | false, false => shortestDigits fuel' (k + 1) q n
      end
  end.

Definition digits (z : Z) : string := NilZero.string_of_int (Z.to_int z).

Fixpoint zeros (n : nat) : string :=
  match n with
  | O => ""
  | S n' => "0" +:+ zeros n'
  end.

(** Digits without the zeros at their end. *)
Fixpoint stripZeros (fuel : nat) (s k : Z) : Z * Z :=
  match fuel with
  | O => (s, k)
  | S fuel' =>
      if (s mod 10 =? 0) && (1 <? k) then stripZeros fuel' (s / 10) (k - 1) else (s, k)
  end.

Definition toStringPositive (q : Q) : string :=
  let '(s0, k0, n) := shortestDigits 17 1 q (decimalExponent q) in
  let '(s, k) := stripZeros 17 s0 k0 in
  let ds := digits s in
  let kn := Z.to_nat k in
  if (k <=? n) && (n <=? 21) then ds +:+ zeros (Z.to_nat (n - k))
  else if (0 <? n) && (n <=? 21) then
    substring 0 (Z.to_nat n) ds +:+ "." +:+ substring (Z.to_nat n) (kn - Z.to_nat n) ds
  else if (-6 <? n) && (n <=? 0) then "0." +:+ zeros (Z.to_nat (- n)) +:+ ds
  else
    let e := n - 1 in
    let exponent := (if e <? 0 then "-" else "+") +:+ digits (Z.abs e) in
    if k =? 1 then ds +:+ "e" +:+ exponent
    else substring 0 1 ds +:+ "." +:+ substring 1 (kn - 1) ds +:+ "e" +:+ exponent.

Definition toString (x : Num) : string :=
  match x with
  | NaN => "NaN"
  | Infinity a => if a then "-Infinity" else "Infinity"
  | Finite q =>
      if Qnum q =? 0 then "0"
      else if Qnum q <? 0 then "-" +:+ toStringPositive (- q)
      else toStringPositive q
  end.

End Js.

Declare Scope num_scope.
Delimit Scope num_scope with num.
Bind Scope num_scope with Num.
Notation "x + y" := (Js.add x y) : num_scope.
Notation "x - y" := (Js.sub x y) : num_scope.
Notation "x =? y" := (Js.eqb x y) : num_scope.
Notation "x <? y" := (Js.ltb x y) : num_scope.
Notation "x <=? y" := (Js.leb x y) : num_scope.
Notation "x >? y" := (Js.gtb x y) : num_scope.
Notation "x >=? y" := (Js.geb x y) : num_scope.

(** ** [types.ts] *)

Module Types.

Inductive Suit := HEARTS | DIAMONDS | CLUBS | SPADES.

Inductive Rank :=
  | TWO | THREE | FOUR | FIVE | SIX | SEVEN | EIGHT | NINE | TEN
  | JACK | QUEEN | KING | ACE.

(** A card is only ever built by [createDeck], which sets its [value]
    field to [RANK_VALUES[rank]]; the field is a function of the rank. *)
Record Card := mkCard { suit : Suit; rank : Rank }.

Inductive PlayerStatus := EMPTY | SITTING_OUT | PLAYING | FOLDED | ALL_IN | BUSTED.

(** [id] is declared a number; the client stores [Date.now() + index]
    there and the server the socket id, a string. *)
Inductive PlayerId := NumericId (n : Z) | SocketId (s : string).

Record Player := mkPlayer {
  id : PlayerId;
  name : string;
  chips : Num;
  bet : Num;
  status : PlayerStatus;
  cards : list Card;
  isDealer : bool;
  isSmallBlind : bool;
  isBigBlind : bool;
  hasActed : bool
}.

Inductive GamePhase := IDLE | PREFLOP | FLOP | TURN | RIVER | SHOWDOWN.

Record Winner := mkWinner { playerId : PlayerId; handName : string; amount : Num }.

Record GameState := mkGameState {
  pot : Num;
  communityCards : list Card;
  deck : list Card;
  phase : GamePhase;
  currentPlayerIndex : Z;
  dealerIndex : Z;
  minBet : Num;
  currentBet : Num;
  lastRaiserIndex : option Z;
  winners : list Winner;
  logs : list string
}.

End Types.
Import Types.

#[global] Instance Suit_eq_dec : EqDecision Suit.
Proof. solve_decision. Defined.

#[global] Instance Rank_eq_dec : EqDecision Rank.
Proof. solve_decision. Defined.

#[global] Instance Card_eq_dec : EqDecision Card.
Proof. solve_decision. Defined.

#[global] Instance PlayerStatus_eq_dec : EqDecision PlayerStatus.
Proof. solve_decision. Defined.

#[global] Instance GamePhase_eq_dec : EqDecision GamePhase.
Proof. solve_decision. Defined.

#[global] Instance PlayerId_eq_dec : EqDecision PlayerId.
Proof. solve_decision. Defined.

Definition RANK_VALUES (r : Rank) : Z :=
  match r with
  | TWO => 2 | THREE => 3 | FOUR => 4 | FIVE => 5 | SIX => 6 | SEVEN => 7
  | EIGHT => 8 | NINE => 9 | TEN => 10 | JACK => 11 | QUEEN => 12
  | KING => 13 | ACE => 14
  end.

Definition value (c : Card) : Z := RANK_VALUES (rank c).

(** [createDeck]: suits outermost, ranks innermost. *)
Definition createDeck : list Card :=
  flat_map
    (fun s => map (fun r => mkCard s r)
       [TWO; THREE; FOUR; FIVE; SIX; SEVEN; EIGHT; NINE; TEN; JACK; QUEEN; KING; ACE])
    [HEARTS; DIAMONDS; CLUBS; SPADES].

(** The seats and the table record: the two module-level variables of the
    server, the two React states of the client. *)
Record Table := mkTable { players : list (option Player); gameState : GameState }.

Definition BIG_BLIND : Num := Int 20.
Definition SMALL_BLIND : Num := Int 10.

(** *** Field assignments *)

Definition setChips (v : Num) (p : Player) : Player :=
  mkPlayer (id p) (Types.name p) v (bet p) (status p) (cards p)
    (isDealer p) (isSmallBlind p) (isBigBlind p) (hasActed p).
Definition setBet (v : Num) (p : Player) : Player :=
  mkPlayer (id p) (Types.name p) (chips p) v (status p) (cards p)
    (isDealer p) (isSmallBlind p) (isBigBlind p) (hasActed p).
Definition setStatus (v : PlayerStatus) (p : Player) : Player :=
  mkPlayer (id p) (Types.name p) (chips p) (bet p) v (cards p)
    (isDealer p) (isSmallBlind p) (isBigBlind p) (hasActed p).
Definition setCards (v : list Card) (p : Player) : Player :=
  mkPlayer (id p) (Types.name p) (chips p) (bet p) (status p) v
    (isDealer p) (isSmallBlind p) (isBigBlind p) (hasActed p).
Definition setIsDealer (v : bool) (p : Player) : Player :=
  mkPlayer (id p) (Types.name p) (chips p) (bet p) (status p) (cards p)
    v (isSmallBlind p) (isBigBlind p) (hasActed p).
Definition setIsSmallBlind (v : bool) (p : Player) : Player :=
  mkPlayer (id p) (Types.name p) (chips p) (bet p) (status p) (cards p)
    (isDealer p) v (isBigBlind p) (hasActed p).
Definition setIsBigBlind (v : bool) (p : Player) : Player :=
  mkPlayer (id p) (Types.name p) (chips p) (bet p) (status p) (cards p)
    (isDealer p) (isSmallBlind p) v (hasActed p).
Definition setHasActed (v : bool) (p : Player) : Player :=
  mkPlayer (id p) (Types.name p) (chips p) (bet p) (status p) (cards p)
    (isDealer p) (isSmallBlind p) (isBigBlind p) v.

Definition setPot (v : Num) (g : GameState) : GameState :=
  mkGameState v (communityCards g) (deck g) (phase g) (currentPlayerIndex g)
    (dealerIndex g) (minBet g) (currentBet g) (lastRaiserIndex g) (winners g) (logs g).
Definition setCommunityCards (v : list Card) (g : GameState) : GameState :=
  mkGameState (pot g) v (deck g) (phase g) (currentPlayerIndex g)
    (dealerIndex g) (minBet g) (currentBet g) (lastRaiserIndex g) (winners g) (logs g).
Definition setDeck (v : list Card) (g : GameState) : GameState :=
  mkGameState (pot g) (communityCards g) v (phase g) (currentPlayerIndex g)
    (dealerIndex g) (minBet g) (currentBet g) (lastRaiserIndex g) (winners g) (logs g).
Definition setPhase (v : GamePhase) (g : GameState) : GameState :=
  mkGameState (pot g) (communityCards g) (deck g) v (currentPlayerIndex g)
    (dealerIndex g) (minBet g) (currentBet g) (lastRaiserIndex g) (winners g) (logs g).
Definition setCurrentPlayerIndex (v : Z) (g : GameState) : GameState :=
  mkGameState (pot g) (communityCards g) (deck g) (phase g) v
    (dealerIndex g) (minBet g) (currentBet g) (lastRaiserIndex g) (winners g) (logs g).
Definition setDealerIndex (v : Z) (g : GameState) : GameState :=
  mkGameState (pot g) (communityCards g) (deck g) (phase g) (currentPlayerIndex g)
    v (minBet g) (currentBet g) (lastRaiserIndex g) (winners g) (logs g).
Definition setMinBet (v : Num) (g : GameState) : GameState :=
  mkGameState (pot g) (communityCards g) (deck g) (phase g) (currentPlayerIndex g)
    (dealerIndex g) v (currentBet g) (lastRaiserIndex g) (winners g) (logs g).
Definition setCurrentBet (v : Num) (g : GameState) : GameState :=
  mkGameState (pot g) (communityCards g) (deck g) (phase g) (currentPlayerIndex g)
    (dealerIndex g) (minBet g) v (lastRaiserIndex g) (winners g) (logs g).
Definition setLastRaiserIndex (v : option Z) (g : GameState) : GameState :=
  mkGameState (pot g) (communityCards g) (deck g) (phase g) (currentPlayerIndex g)
    (dealerIndex g) (minBet g) (currentBet g) v (winners g) (logs g).
Definition setWinners (v : list Winner) (g : GameState) : GameState :=
  mkGameState (pot g) (communityCards g) (deck g) (phase g) (currentPlayerIndex g)
    (dealerIndex g) (minBet g) (currentBet g) (lastRaiserIndex g) v (logs g).
Definition setLogs (v : list string) (g : GameState) : GameState :=
  mkGameState (pot g) (communityCards g) (deck g) (phase g) (currentPlayerIndex g)
    (dealerIndex g) (minBet g) (currentBet g) (lastRaiserIndex g) (winners g) v.

(** ** Outcomes of a handler

    [TypeError]: a property of [undefined] is read.  [UndefinedCard]:
    [deck.pop()] on an empty deck hands out [undefined], which no [Card]
    stands for; the embedding stops there.  [Diverges]: a seat-scanning
    [while] loop never meets its exit condition. *)

Inductive Failure := TypeError | UndefinedCard | Diverges.

Inductive Result (A : Type) : Type :=
  | Ok (a : A)
  | Fail (e : Failure).
Arguments Ok {A} a.
Arguments Fail {A} e.

#[global] Instance Result_ret : MRet Result := fun A a => Ok a.
#[global] Instance Result_bind : MBind Result := fun A B f m =>
  match m with
  | Ok a => f a
  | Fail e => Fail e
  end.

Definition orThrow {A} (o : option A) (e : Failure) : Result A :=
  match o with
  | Some a => Ok a
  | None => Fail e
  end.

(** ** JavaScript helpers *)

Section ArrayHelpers.
Context {A : Type}.

(** [Array.prototype.sort(cmp)] is stable.  [after a b] stands for
    [cmp(a, b) > 0]: [a] has to come after [b].  Elements are inserted
    from the right, so the inserted element precedes, in the input, every
    element it is compared with and is moved behind one only when [cmp]
    demands it. *)
Fixpoint sortInsert (after : A -> A -> bool) (x : A) (l : list A) : list A :=
  match l with
  | [] => [x]
  | y :: l' => if after x y then y :: sortInsert after x l' else x :: l
  end.

Fixpoint stableSort (after : A -> A -> bool) (l : list A) : list A :=
  match l with
  | [] => []
  | x :: l' => sortInsert after x (stableSort after l')
  end.

(** [Array.from(new Set(l))], and the key order of an object with string
    keys filled by a [forEach]: first occurrences, in insertion order. *)
Definition setOf `{EqDecision A} (l : list A) : list A :=
  fold_left (fun acc v => if bool_decide (v ∈ acc) then acc else acc ++ [v]) l [].

Definition includes `{EqDecision A} (l : list A) (v : A) : bool :=
  bool_decide (v ∈ l).

(** [l[i]] for a number [i]: [undefined] outside the array. *)
Definition arrayGet (l : list A) (i : Z) : option A :=
  if i <? 0 then None else l !! Z.to_nat i.

(** [l.pop()]: the last element, and what is left. *)
Definition pop (l : list A) : option (A * list A) :=
  match rev l with
  | [] => None
  | x :: r => Some (x, rev r)
  end.
End ArrayHelpers.

(** [l[i] = x] on an array of nullable slots: writing past the end
    lengthens the array, the skipped slots read as [undefined]. *)
Definition arraySet {A} (l : list (option A)) (i : nat) (x : option A) : list (option A) :=
  if (i <? length l)%nat then <[i := x]> l
  else l ++ replicate (i - length l) None ++ [x].

(** A number as an array index: an integer from 0 on names a slot, any
    other number names a property that no slot holds. *)
Definition toIndex (j : Num) : option nat :=
  match j with
  | Finite q =>
      if (Qden q =? 1)%positive && (0 <=? Qnum q) then Some (Z.to_nat (Qnum q)) else None
  | _ => None
  end.

(** [l.sort((a, b) => key(b) - key(a))] *)
Definition sortDesc {A} (key : A -> Z) (l : list A) : list A :=
  stableSort (fun a b => 0 <? key b - key a) l.

(** A JavaScript number used as a condition: [null] and [0] are falsy. *)
Definition truthy (o : option Z) : bool :=
  match o with
  | Some n => negb (n =? 0)
  | None => false
  end.

(** [`${n}`] for a seat number. *)
Definition showZ (n : Z) : string := NilZero.string_of_int (Z.to_int n).

(** [`${x}`] for an amount. *)
Definition showNum (x : Num) : string := Js.toString x.

(** [x || 0] for an amount that may be missing. *)
Definition orZero (o : option Num) : Num :=
  match o with
  | Some x => if Js.truthy x then x else Int 0
  | None => Int 0
  end.

(** [l.join(sep)] *)
Fixpoint join (sep : string) (l : list string) : string :=
  match l with
  | [] => ""
  | [s] => s
  | s :: rest => s ++ sep ++ join sep rest
  end.

(** [players[i]] as a condition and as an object: [null], [undefined] and a
    missing slot all count as no player. *)
Definition seatAt (players : list (option Player)) (i : Z) : option Player :=
  mjoin (arrayGet players i).

(** [players.filter(p => p)] *)
Definition seated (players : list (option Player)) : list Player :=
  omap (fun p => p) players.

(** [p.status !== 'FOLDED' && p.status !== 'BUSTED'] *)
Definition inHand (p : Player) : bool :=
  bool_decide (status p <> FOLDED) && bool_decide (status p <> BUSTED).

(** The seats paired with their indices: [players.indexOf(p)] finds a
    player object at the one seat that holds it. *)
Fixpoint seatedFrom (i : nat) (players : list (option Player)) : list (nat * Player) :=
  match players with
  | [] => []
  | Some p :: rest => (i, p) :: seatedFrom (S i) rest
  | None :: rest => seatedFrom (S i) rest
  end.

Definition seatedWithIndex (players : list (option Player)) : list (nat * Player) :=
  seatedFrom 0 players.

(** [unique[i] - unique[i + 4] === 4] for [i = 0 .. unique.length - 5]; the
    head of the list is [unique[i]] and the fourth element of its tail is
    [unique[i + 4]], which exists exactly while [i <= unique.length - 5]. *)
Fixpoint scanRuns (unique : list Z) : option Z :=
  match unique with
  | [] => None
  | hi :: rest =>
      match rest !! 3%nat with
      | Some lo => if hi - lo =? 4 then Some hi else scanRuns rest
      | None => None
      end
  end.

(** [Object.keys(counts)] for counts keyed by card value: integer-like keys
    are listed in ascending numeric order, whatever the insertion order. *)
Definition integerKeys (vs : list Z) : list Z :=
  stableSort (fun a b => b <? a) (setOf vs).

(** [chipSummary]: [players.filter(p => p).map(p => `${p.name}: $${p.chips}`)] *)
Definition chipEntries (players : list (option Player)) : list string :=
  map (fun p => Types.name p ++ ": $" ++ showNum (chips p))%string (seated players).

(** [while (!players[i] || players[i].status !== 'PLAYING') i = (i + 1) % 9;]

    After the first [% 9] the index stays strictly between -9 and 9 and,
    once non-negative, cycles through the nine seats; eighteen probes visit
    every index the loop can reach, so running out of them means the loop
    has no exit. *)
Definition isPlaying (o : option Player) : bool :=
  match o with
  | Some p => bool_decide (status p = PLAYING)
  | None => false
  end.

Fixpoint scanPlaying (fuel : nat) (players : list (option Player)) (i : Z) : Result Z :=
  match fuel with
  | O => Fail Diverges
  | S fuel' =>
      if isPlaying (seatAt players i) then Ok i
      else scanPlaying fuel' players (Z.rem (i + 1) 9)
  end.

Definition scanFuel : nat := 18.

(** The indices that loop probes, in order. *)
Fixpoint probes (fuel : nat) (i : Z) : list Z :=
  match fuel with
  | O => []
  | S fuel' => i :: probes fuel' (Z.rem (i + 1) 9)
  end.

(** The four actions a seat can send.  [amount] only matters to a raise: a
    number, or nothing when the message comes without it.  (A socket message
    could carry an amount that is no number; such messages are outside this
    model.) *)
Inductive Action := fold | check | call | raise (amount : option Num).

(** ** [shuffleDeck]: the same text in [utils/poker.ts] and in [server.js]

    [random] gives the results of the calls of [Math.random], in order.
    The loop runs [i] from the last index down to 1 and swaps the slots [i]
    and [j]; a [j] that names no slot would bring [undefined] into the deck,
    the outcome [UndefinedCard]. *)
Fixpoint shuffleFrom (i : nat) (random : nat -> Num) (newDeck : list Card)
    : Result (list Card) :=
  match i with
  | O => Ok newDeck
  | S i' =>
      let j := Js.floor (Js.mul (random 0%nat) (Int (Z.of_nat i + 1))) in
      match toIndex j with
      | Some jn =>
          match newDeck !! jn, newDeck !! i with
          | Some cj, Some ci =>
              shuffleFrom i' (fun n => random (S n)) (<[jn := ci]> (<[i := cj]> newDeck))
          | _, _ => Fail UndefinedCard
          end
      | None => Fail UndefinedCard
      end
  end.

Definition shuffleDeck (random : nat -> Num) (deck : list Card) : Result (list Card) :=
  shuffleFrom (length deck - 1) random deck.

(** ** The client: [utils/poker.ts] and the offline engine of [App.tsx] *)

Module Client.

(** *** [evaluateHand] *)

Record HandEval := mkEval { score : Q; name : string }.

Definition isFlush (cs : list Card) : option (list Card) :=
  let suits := fun s => length (List.filter (fun c => bool_decide (suit c = s)) cs) in
  match List.find (fun s => (5 <=? suits s)%nat) (setOf (map suit cs)) with
  | None => None
  | Some flushSuit =>
      Some (take 5 (List.filter (fun c => bool_decide (suit c = flushSuit)) cs))
  end.

Definition isStraight (cs : list Card) : option Z :=
  let uniqueValues := sortDesc (fun v => v) (setOf (map value cs)) in
  match scanRuns uniqueValues with
  | Some hi => Some hi
  | None =>
      if includes uniqueValues 14 && includes uniqueValues 5
         && includes uniqueValues 4 && includes uniqueValues 3
         && includes uniqueValues 2
      then Some 5 else None
  end.

Definition countRanks (cs : list Card) (v : Z) : nat :=
  length (List.filter (fun c => value c =? v) cs).

(** [kickers.reduce((acc, c, i) => acc + c.value * Math.pow(0.1, i), 0)]
    in exact rational arithmetic: the binary rounding of [0.1] and [0.01]
    is left out.  It is far below the gap of [0.01] between two different
    kicker scores, so order and equality of scores are those of the code. *)
Fixpoint kickerReduce (i : nat) (kickers : list Card) (acc : Q) : Q :=
  match kickers with
  | [] => acc
  | c :: rest =>
      kickerReduce (S i) rest (acc + inject_Z (value c) * (1 # 10) ^ Z.of_nat i)%Q
  end.

(** [x?.value || 0] *)
Definition valueOr0 (o : option Card) : Z :=
  match o with Some c => value c | None => 0 end.

(** The rung ladder.  [None] is the [TypeError] of reading [.value] of
    [cards[0]] (or [flushCards[0]]) when there is no such card. *)
Definition evaluateHand (holeCards communityCards : list Card) : option HandEval :=
  let cards := sortDesc value (holeCards ++ communityCards) in
  let flushCards := isFlush cards in
  let straightHigh := isStraight cards in
  let rankCounts := countRanks cards in
  let keys := integerKeys (map value cards) in
  let quads := List.find (fun r => (rankCounts r =? 4)%nat) keys in
  let trips := sortDesc (fun v => v) (List.filter (fun r => (rankCounts r =? 3)%nat) keys) in
  let pairs := sortDesc (fun v => v) (List.filter (fun r => (rankCounts r =? 2)%nat) keys) in
  let sfHigh := match flushCards with Some fc => isStraight fc | None => None end in
  if truthy sfHigh then
    Some (mkEval (inject_Z (9000000 + default 0 sfHigh)) "Straight Flush")
  else match quads with
  | Some q =>
      let kicker := valueOr0 (List.find (fun c => negb (value c =? q)) cards) in
      Some (mkEval (inject_Z (8000000 + q * 100 + kicker)) "Four of a Kind")
  | None =>
  if (0 <? length trips)%nat && ((2 <=? length trips)%nat || (0 <? length pairs)%nat) then
    let t := default 0 (trips !! 0%nat) in
    let p := if (2 <=? length trips)%nat then default 0 (trips !! 1%nat)
             else default 0 (pairs !! 0%nat) in
    Some (mkEval (inject_Z (7000000 + t * 100 + p)) "Full House")
  else match flushCards with
  | Some (c :: _) => Some (mkEval (inject_Z (6000000 + value c)) "Flush")
  | Some [] => None
  | None =>
  if truthy straightHigh then
    Some (mkEval (inject_Z (5000000 + default 0 straightHigh)) "Straight")
  else if (0 <? length trips)%nat then
    let t := default 0 (trips !! 0%nat) in
    let kickers := take 2 (List.filter (fun c => negb (value c =? t)) cards) in
    let kScore := valueOr0 (kickers !! 0%nat) * 10 + valueOr0 (kickers !! 1%nat) in
    Some (mkEval (inject_Z (4000000 + t * 1000 + kScore)) "Three of a Kind")
  else if (2 <=? length pairs)%nat then
    let p1 := default 0 (pairs !! 0%nat) in
    let p2 := default 0 (pairs !! 1%nat) in
    let kicker :=
      valueOr0 (List.find (fun c => negb (value c =? p1) && negb (value c =? p2)) cards) in
    Some (mkEval (inject_Z (3000000 + p1 * 1000 + p2 * 10 + kicker)) "Two Pair")
  else if (0 <? length pairs)%nat then
    let p := default 0 (pairs !! 0%nat) in
    let kickers := take 3 (List.filter (fun c => negb (value c =? p)) cards) in
    let kScore := kickerReduce 0 kickers 0%Q in
    Some (mkEval (inject_Z (2000000 + p * 100) + kScore)%Q "One Pair")
  else match cards with
  | c :: _ => Some (mkEval (inject_Z (1000000 + value c)) "High Card")
  | [] => None
  end end end.

(** *** The offline engine *)

Fixpoint nextActiveLoop (count : nat) (currentPlayers : list (option Player)) (i : Z) : Z :=
  match count with
  | O => -1
  | S count' =>
      match seatAt currentPlayers i with
      | Some p =>
          if bool_decide (status p = PLAYING) && (chips p >? Int 0)%num then i
          else nextActiveLoop count' currentPlayers (Z.rem (i + 1) 9)
      | None => nextActiveLoop count' currentPlayers (Z.rem (i + 1) 9)
      end
  end.

Definition getNextActivePlayerIndex (startIndex : Z) (currentPlayers : list (option Player)) : Z :=
  nextActiveLoop 9 currentPlayers (Z.rem (startIndex + 1) 9).

Definition getChipSummary (currentPlayers : list (option Player)) : string :=
  join " | " (chipEntries currentPlayers).

(** The two blind blocks of [startNewHand]: [if (newPlayers[i]) { ... }]. *)
Definition postBlind (blind : Num) (mark : bool -> Player -> Player)
    (i : Z) (newPlayers : list (option Player)) : list (option Player) :=
  match seatAt newPlayers i with
  | Some p =>
      let amt := Js.min blind (chips p) in
      let p1 := mark true (setBet amt (setChips (chips p - amt) p)) in
      let p2 := if (chips p1 =? Int 0)%num then setStatus ALL_IN p1 else p1 in
      <[Z.to_nat i := Some p2]> newPlayers
  | None => newPlayers
  end.

(** [newPlayers.forEach(p => { if (p && p.status === PLAYING) p.cards = [deck.pop(), deck.pop()] })] *)
Fixpoint dealHoleCards (ps : list (option Player)) (deck : list Card)
    : Result (list (option Player) * list Card) :=
  match ps with
  | [] => Ok ([], deck)
  | Some p :: rest =>
      if bool_decide (status p = PLAYING) then
        '(c1, deck1) ← orThrow (pop deck) UndefinedCard;
        '(c2, deck2) ← orThrow (pop deck1) UndefinedCard;
        '(rest', deck3) ← dealHoleCards rest deck2;
        Ok (Some (setCards [c1; c2] p) :: rest', deck3)
      else
        '(rest', deck1) ← dealHoleCards rest deck;
        Ok (Some p :: rest', deck1)
  | None :: rest =>
      '(rest', deck1) ← dealHoleCards rest deck;
      Ok (None :: rest', deck1)
  end.

(** [startNewHand(dealerIdx)]; [shuffled] is [shuffleDeck(createDeck())]. *)
Definition startNewHand (shuffled : list Card) (dealerIdx : Z) (st : Table) : Result Table :=
  let newPlayers :=
    imap (fun idx o =>
            match o with
            | None => None
            | Some p =>
                if (chips p <=? Int 0)%num then
                  Some (setHasActed false (setCards [] (setBet (Int 0) (setStatus BUSTED p))))
                else
                  Some (setHasActed false (setIsBigBlind false (setIsSmallBlind false
                         (setIsDealer (Z.of_nat idx =? dealerIdx)
                            (setCards [] (setBet (Int 0) (setStatus PLAYING p)))))))
            end) (players st) in
  let activePlayersIndices :=
    List.filter (fun idx => match seatAt (players st) (Z.of_nat idx) with
                            | Some p => negb (chips p <=? Int 0)%num
                            | None => false
                            end) (seq 0 (length (players st))) in
  if (length activePlayersIndices <? 2)%nat then
    Ok (mkTable newPlayers
          (setPhase IDLE (setLogs (logs (gameState st) ++ ["Not enough players with chips!"])
                            (gameState st))))
  else
    '(sbIdx, bbIdx) ←
      (if (length activePlayersIndices =? 2)%nat then
         let found := List.find (fun i => negb (Z.of_nat i =? dealerIdx)) activePlayersIndices in
         Ok (dealerIdx,
             match found with
             | Some i => if (i =? 0)%nat then -1 else Z.of_nat i
             | None => -1
             end)
       else
         sb ← scanPlaying scanFuel newPlayers (Z.rem (dealerIdx + 1) 9);
         bb ← scanPlaying scanFuel newPlayers (Z.rem (sb + 1) 9);
         Ok (sb, bb));
    let posted :=
      postBlind BIG_BLIND setIsBigBlind bbIdx
        (postBlind SMALL_BLIND setIsSmallBlind sbIdx newPlayers) in
    '(dealt, deck) ← dealHoleCards posted shuffled;
    nextToAct ← scanPlaying scanFuel dealt (Z.rem (bbIdx + 1) 9);
    Ok (mkTable dealt
          (mkGameState (Int 0) [] deck PREFLOP nextToAct dealerIdx BIG_BLIND BIG_BLIND
             (Some bbIdx) []
             ["New hand dealt. Blinds " +:+ showNum SMALL_BLIND +:+ "/" +:+ showNum BIG_BLIND
              +:+ "."])).

Definition collectBetsToPot (currentPlayers : list (option Player))
    : list (option Player) * Num :=
  (map (fun o => match o with
                 | None => None
                 | Some p => Some (setHasActed false (setBet (Int 0) p))
                 end) currentPlayers,
   fold_left (fun roundPot o => match o with
                                | None => roundPot
                                | Some p => (roundPot + bet p)%num
                                end) currentPlayers (Int 0)).

Record Evaluation := mkEvaluation {
  ePlayerId : PlayerId; eScore : Q; eName : string; playerIndex : nat
}.

(** [winningEvals.map(w => { updatedPlayers[pIdx]!.chips += splitAmount; ... })] *)
Definition credit (amt : Num) (ps : list (option Player)) (i : nat) : list (option Player) :=
  alter (option_map (fun p => setChips (chips p + amt) p)) i ps.

(** [computeWinners]: the players after the credit, and the winner records. *)
Definition computeWinners (currentPlayers : list (option Player)) (board : list Card)
    (totalPot : Num) : Result (list (option Player) * list Winner) :=
  let candidates := List.filter (fun ip => inHand (snd ip)) (seatedWithIndex currentPlayers) in
  evaluations ← mapM (fun ip : nat * Player =>
      ev ← orThrow (evaluateHand (cards (snd ip)) board) TypeError;
      Ok (mkEvaluation (id (snd ip)) (score ev) (name ev) (fst ip))) candidates;
  let sorted := stableSort (fun a b => negb (Qle_bool (eScore b) (eScore a))) evaluations in
  match sorted with
  | [] => Ok (currentPlayers, [])
  | best :: _ =>
      let highScore := eScore best in
      let winningEvals := List.filter (fun e => Qeq_bool (eScore e) highScore) sorted in
      let splitAmount := Js.floor (Js.divByLength totalPot (length winningEvals)) in
      Ok (fold_left (credit splitAmount) (map playerIndex winningEvals) currentPlayers,
          map (fun w => mkWinner (ePlayerId w) (eName w) splitAmount) winningEvals)
  end.

(** [handleShowdown(currentPlayers, board, totalPot, foldedWin)]: the state
    updates it queues, applied to the table record [prev]. *)
Definition handleShowdown (currentPlayers : list (option Player)) (board : list Card)
    (totalPot : Num) (foldedWin : bool) (prev : GameState) : Table :=
  if foldedWin then
    match List.find (fun ip => inHand (snd ip)) (seatedWithIndex currentPlayers) with
    | Some (wIdx, winner) =>
        let uPlayers := credit totalPot currentPlayers wIdx in
        mkTable uPlayers
          (setLogs (logs prev ++
                      [Types.name winner +:+ " wins $" +:+ showNum totalPot
                       +:+ " (opponents folded).";
                       "End of Hand Stats: " +:+ getChipSummary uPlayers])
             (setCurrentPlayerIndex (-1)
                (setWinners [mkWinner (id winner) "Opponents Folded" totalPot]
                   (setPhase SHOWDOWN (setPot (Int 0) prev)))))
    | None => mkTable currentPlayers prev
    end
  else mkTable currentPlayers prev.

(** The bounded seat scan of [nextPhase]: at most ten steps. *)
Fixpoint scanSafely (safety : nat) (ps : list (option Player)) (i : Z) : Z :=
  match safety with
  | O => i
  | S safety' =>
      if isPlaying (seatAt ps i) then i else scanSafely safety' ps (Z.rem (i + 1) 9)
  end.

(** [nextPhase], fired by the timer of the turn effect.  Where exactly one
    player is left the updater returns [prev] and the state is the one
    [handleShowdown] queues. *)
Definition nextPhase (st : Table) : Result Table :=
  let prev := gameState st in
  let '(updatedPlayers, roundPot) := collectBetsToPot (players st) in
  let newPot := (pot prev + roundPot)%num in
  let activeCount := length (List.filter inHand (seated updatedPlayers)) in
  if (activeCount =? 1)%nat
  then Ok (handleShowdown updatedPlayers (communityCards prev) newPot true prev)
  else
    let deal n next msg :=
      let k := (length (deck prev) - n)%nat in
      if (n <=? length (deck prev))%nat
      then (take k (deck prev), communityCards prev ++ rev (drop k (deck prev)), next, msg)
      else (deck prev, communityCards prev, phase prev, "") in
    let '(newDeck, newCommunityCards, nextPhase, logMsg) :=
      match phase prev with
      | PREFLOP => deal 3%nat FLOP "Flop dealt."
      | FLOP => deal 1%nat TURN "Turn dealt."
      | TURN => deal 1%nat RIVER "River dealt."
      | RIVER => (deck prev, communityCards prev, SHOWDOWN, "Showdown!")
      | _ => (deck prev, communityCards prev, phase prev, "")
      end in
    if bool_decide (nextPhase = SHOWDOWN) then
      '(credited, winners) ← computeWinners updatedPlayers newCommunityCards newPot;
      Ok (mkTable credited
            (setLogs (logs prev ++ [logMsg; "End of Hand Stats: " +:+ getChipSummary credited])
               (setWinners winners
                  (setCurrentPlayerIndex (-1)
                     (setPhase SHOWDOWN
                        (setDeck newDeck
                           (setCommunityCards newCommunityCards (setPot (Int 0) prev))))))))
    else
      let nextIdx := scanSafely 10 updatedPlayers (Z.rem (dealerIndex prev + 1) 9) in
      Ok (mkTable updatedPlayers
            (setLogs (logs prev ++ [logMsg])
               (setLastRaiserIndex None
                  (setCurrentBet (Int 0)
                     (setMinBet (Int 0)
                        (setCurrentPlayerIndex nextIdx
                           (setPhase nextPhase
                              (setDeck newDeck
                                 (setCommunityCards newCommunityCards
                                    (setPot newPot prev)))))))))).

(** [handleAction(action, amount = 0)] in offline mode: a missing amount
    is 0.  The log line is appended twice: once by [addLog], once by the
    state update. *)
Definition handleAction (action : Action) (st : Table) : Table :=
  let gs := gameState st in
  let idx := currentPlayerIndex gs in
  if idx =? -1 then st
  else match seatAt (players st) idx with
  | None => st
  | Some p =>
      let callAmount := (currentBet gs - bet p)%num in
      let applied : option (Player * string) :=
        match action with
        | fold => Some (setStatus FOLDED p, Types.name p +:+ " folds.")
        | check =>
            if (callAmount >? Int 0)%num then None
            else Some (p, Types.name p +:+ " checks.")
        | call =>
            let actualCall := Js.min callAmount (chips p) in
            let p1 := setBet (bet p + actualCall) (setChips (chips p - actualCall) p) in
            Some (if (chips p1 =? Int 0)%num then setStatus ALL_IN p1 else p1,
                  Types.name p +:+ " calls " +:+ showNum actualCall +:+ ".")
        | raise amount =>
            let totalBet := (currentBet gs + default (Int 0) amount)%num in
            let addedChips := (totalBet - bet p)%num in
            if (addedChips >=? chips p)%num then
              Some (setStatus ALL_IN (setChips (Int 0) (setBet (bet p + chips p) p)),
                    Types.name p +:+ " goes All-In!")
            else
              let p1 := setBet (bet p + addedChips) (setChips (chips p - addedChips) p) in
              Some (p1, Types.name p +:+ " raises to " +:+ showNum (bet p1) +:+ ".")
        end in
      match applied with
      | None => st
      | Some (p1, newLog) =>
          let p2 := setHasActed true p1 in
          let newPlayers := <[Z.to_nat idx := Some p2]> (players st) in
          let raises :=
            match action with
            | raise _ => true
            | call => (bet p2 >? currentBet gs)%num
            | _ => false
            end in
          let gs1 := if raises
                     then setLastRaiserIndex (Some idx) (setCurrentBet (bet p2) gs)
                     else gs in
          mkTable newPlayers (setLogs (logs gs ++ [newLog; newLog]) gs1)
      end
  end.

(** The turn-management effect, run after every change of the players or
    of the table.  The flag tells whether the [nextPhase] timer is armed. *)
Definition turnEffect (st : Table) : Table * bool :=
  let gs := gameState st in
  if bool_decide (phase gs = IDLE) || bool_decide (phase gs = SHOWDOWN) then (st, false)
  else
    let activePlayers := List.filter inHand (seated (players st)) in
    if (length activePlayers =? 1)%nat then
      (handleShowdown (players st) (communityCards gs)
         (pot gs + fold_left (fun a o => a + orZero (option_map bet o)) (players st) (Int 0))%num
         true gs, false)
    else
      let allMatched :=
        forallb (fun p => bool_decide (status p = ALL_IN)
                          || (bet p =? currentBet gs)%num && hasActed p) activePlayers in
      if allMatched && (0 <? length activePlayers)%nat then (st, true)
      else
        let currIdx := currentPlayerIndex gs in
        if isPlaying (seatAt (players st) currIdx) then (st, false)
        else
          let next := getNextActivePlayerIndex currIdx (players st) in
          if negb (next =? -1) && negb (next =? currIdx)
          then (mkTable (players st) (setCurrentPlayerIndex next gs), false)
          else (st, false).

End Client.

(** ** The server: [server.js] *)

Module Server.

(** *** [evaluateHand] *)

Record HandEval := mkEval { score : Z; name : string }.

Definition isFlush (cs : list Card) : option (list Card) :=
  let suits := fun s => length (List.filter (fun c => bool_decide (suit c = s)) cs) in
  match List.find (fun s => (5 <=? suits s)%nat) (setOf (map suit cs)) with
  | Some flushSuit =>
      Some (take 5 (List.filter (fun c => bool_decide (suit c = flushSuit)) cs))
  | None => None
  end.

Definition isStraight (cs : list Card) : option Z :=
  let unique := sortDesc (fun v => v) (setOf (map value cs)) in
  match scanRuns unique with
  | Some hi => Some hi
  | None =>
      if includes unique 14 && includes unique 5 && includes unique 2
      then Some 5 else None
  end.

Definition evaluateHand (holeCards communityCards : list Card) : option HandEval :=
  let cards := sortDesc value (holeCards ++ communityCards) in
  let counts := fun v => length (List.filter (fun c => value c =? v) cards) in
  let keys := integerKeys (map value cards) in
  let quads := List.find (fun r => (counts r =? 4)%nat) keys in
  let trips := sortDesc (fun v => v) (List.filter (fun r => (counts r =? 3)%nat) keys) in
  let pairs := sortDesc (fun v => v) (List.filter (fun r => (counts r =? 2)%nat) keys) in
  let flush := isFlush cards in
  let straight := isStraight cards in
  let sf := match flush with Some fc => isStraight fc | None => None end in
  if truthy sf then Some (mkEval (9000000 + default 0 sf) "Straight Flush")
  else match quads with
  | Some q => Some (mkEval (8000000 + q) "Four of a Kind")
  | None =>
  if (0 <? length trips)%nat && ((2 <=? length trips)%nat || (0 <? length pairs)%nat) then
    Some (mkEval (7000000 + default 0 (trips !! 0%nat)) "Full House")
  else match flush with
  | Some (c :: _) => Some (mkEval (6000000 + value c) "Flush")
  | Some [] => None
  | None =>
  if truthy straight then Some (mkEval (5000000 + default 0 straight) "Straight")
  else if (0 <? length trips)%nat then
    Some (mkEval (4000000 + default 0 (trips !! 0%nat)) "Three of a Kind")
  else if (2 <=? length pairs)%nat then
    Some (mkEval (3000000 + default 0 (pairs !! 0%nat)) "Two Pair")
  else if (0 <? length pairs)%nat then
    Some (mkEval (2000000 + default 0 (pairs !! 0%nat)) "One Pair")
  else match cards with
  | c :: _ => Some (mkEval (1000000 + value c) "High Card")
  | [] => None
  end end end.

(** *** The table *)

Definition initialTable : Table :=
  mkTable (replicate 9 None)
    (mkGameState (Int 0) [] [] IDLE (-1) (-1) BIG_BLIND (Int 0) None []
       ["Waiting for players..."]).

Definition addLog (msg : string) (gs : GameState) : GameState :=
  let pushed := logs gs ++ [msg] in
  setLogs (if (50 <? length pushed)%nat then drop 1 pushed else pushed) gs.

(** [winner.chips += amt] on the player object held by seat [i]. *)
Definition credit (amt : Num) (ps : list (option Player)) (i : nat) : list (option Player) :=
  alter (option_map (fun p => setChips (chips p + amt) p)) i ps.

Record Evaluation := mkEvaluation {
  ePlayerId : PlayerId; eScore : Z; eName : string; index : nat
}.

(** [computeWinners()].  A throwing [evaluateHand] ends the handler before
    anything is written. *)
Definition computeWinners (st : Table) : Result Table :=
  let gs := gameState st in
  let candidates := List.filter (fun ip => inHand (snd ip)) (seatedWithIndex (players st)) in
  evals ← mapM (fun ip : nat * Player =>
      ev ← orThrow (evaluateHand (cards (snd ip)) (communityCards gs)) TypeError;
      Ok (mkEvaluation (id (snd ip)) (score ev) (name ev) (fst ip))) candidates;
  let sorted := stableSort (fun a b => 0 <? eScore b - eScore a) evals in
  match sorted with
  | [] => Ok st
  | best :: _ =>
      let bestScore := eScore best in
      let winners' := List.filter (fun e => eScore e =? bestScore) sorted in
      let splitAmt := Js.floor (Js.divByLength (pot gs) (length winners')) in
      let players' := fold_left (credit splitAmt) (map index winners') (players st) in
      let gs1 :=
        setWinners (winners gs ++
                      map (fun w => mkWinner (ePlayerId w) (eName w) splitAmt) winners') gs in
      let gs2 := setCurrentPlayerIndex (-1) (setPot (Int 0) gs1) in
      let chipSummary := join " | " (chipEntries players') in
      Ok (mkTable players' (addLog ("End of Hand. Stats: " +:+ chipSummary) gs2))
  end.

(** [handleShowdown(foldedWin)] *)
Definition handleShowdown (foldedWin : bool) (st : Table) : Table :=
  if foldedWin then
    match List.find (fun ip => inHand (snd ip)) (seatedWithIndex (players st)) with
    | Some (i, winner) =>
        let gs := gameState st in
        let gs1 := setWinners [mkWinner (id winner) "Opponents Folded" (pot gs)] gs in
        let gs2 := addLog (Types.name winner +:+ " wins $" +:+ showNum (pot gs)
                           +:+ " (opponents folded).") gs1 in
        mkTable (credit (pot gs) (players st) i)
          (setCurrentPlayerIndex (-1) (setPhase SHOWDOWN (setPot (Int 0) gs2)))
    | None => st
    end
  else st.

(** The first statements of [nextPhase]: every current-round bet goes to
    the pot. *)
Definition sweepBets (st : Table) : Table :=
  let roundPot := fold_left (fun acc o => match o with
                                          | Some p => (acc + bet p)%num
                                          | None => acc
                                          end) (players st) (Int 0) in
  mkTable (map (option_map (fun p => setHasActed false (setBet (Int 0) p))) (players st))
    (setPot (pot (gameState st) + roundPot) (gameState st)).

(** [communityCards.push(deck.pop(), ...)], [n] cards. *)
Fixpoint dealBoard (n : nat) (gs : GameState) : Result GameState :=
  match n with
  | O => Ok gs
  | S n' =>
      '(c, deck') ← orThrow (pop (deck gs)) UndefinedCard;
      dealBoard n' (setCommunityCards (communityCards gs ++ [c]) (setDeck deck' gs))
  end.

Definition nextPhase (st : Table) : Result Table :=
  let st1 := sweepBets st in
  let activePlayers := List.filter inHand (seated (players st1)) in
  if (length activePlayers =? 1)%nat then Ok (handleShowdown true st1)
  else
    let gs := gameState st1 in
    let fresh (dealt : Result GameState) : Result Table :=
      gs1 ← dealt;
      let gs2 := setMinBet (Int 0) (setLastRaiserIndex None (setCurrentBet (Int 0) gs1)) in
      nextIdx ← scanPlaying scanFuel (players st1) (Z.rem (dealerIndex gs2 + 1) 9);
      Ok (mkTable (players st1) (setCurrentPlayerIndex nextIdx gs2)) in
    match phase gs with
    | PREFLOP => fresh (gs1 ← dealBoard 3 gs; Ok (addLog "Flop dealt." (setPhase FLOP gs1)))
    | FLOP => fresh (gs1 ← dealBoard 1 gs; Ok (addLog "Turn dealt." (setPhase TURN gs1)))
    | TURN => fresh (gs1 ← dealBoard 1 gs; Ok (addLog "River dealt." (setPhase RIVER gs1)))
    | RIVER =>
        computeWinners (mkTable (players st1) (addLog "Showdown!" (setPhase SHOWDOWN gs)))
    | SHOWDOWN => Ok st1
    | IDLE => fresh (Ok gs)
    end.

(** *** The socket handlers

    Each connection registers its own handlers; [socketId] is the
    [socket.id] of the connection that sends the message.  [seatIndex] is an
    array index: a natural number, possibly beyond the ninth seat. *)

Definition sit (socketId : string) (seatIndex : nat) (buyIn : Num) (name : string)
    (st : Table) : Table :=
  match seatAt (players st) (Z.of_nat seatIndex) with
  | Some _ => st
  | None =>
      let shown := if bool_decide (name = "") then "Player " +:+ showZ (Z.of_nat seatIndex + 1)
                   else name in
      let p := mkPlayer (SocketId socketId) shown buyIn (Int 0) SITTING_OUT []
                 false false false false in
      mkTable (arraySet (players st) seatIndex (Some p))
        (addLog (name +:+ " sat at Seat " +:+ showZ (Z.of_nat seatIndex + 1) +:+ ".")
           (gameState st))
  end.

Definition standUp (socketId : string) (seatIndex : nat) (st : Table) : Table :=
  match seatAt (players st) (Z.of_nat seatIndex) with
  | Some p =>
      if bool_decide (id p = SocketId socketId) then
        mkTable (<[seatIndex := None]> (players st))
          (addLog (Types.name p +:+ " stood up.") (gameState st))
      else st
  | None => st
  end.

(** [players[i].f = v] for a seat taken from [activeIdxs]. *)
Definition assign (f : Player -> Player) (i : nat) (ps : list (option Player))
    : Result (list (option Player)) :=
  match seatAt ps (Z.of_nat i) with
  | Some p => Ok (<[i := Some (f p)]> ps)
  | None => Fail TypeError
  end.

(** [activeIdxs.indexOf(x)] *)
Fixpoint indexOfFrom (x : Z) (l : list nat) (i : Z) : Z :=
  match l with
  | [] => -1
  | y :: l' => if Z.of_nat y =? x then i else indexOfFrom x l' (i + 1)
  end.
Definition indexOf (l : list nat) (x : Z) : Z := indexOfFrom x l 0.

(** [activeIdxs.forEach(i => { players[i].cards = [deck.pop(), deck.pop()] })] *)
Fixpoint dealHoleCards (activeIdxs : list nat) (ps : list (option Player))
    (deck : list Card) : Result (list (option Player) * list Card) :=
  match activeIdxs with
  | [] => Ok (ps, deck)
  | i :: rest =>
      '(c1, deck1) ← orThrow (pop deck) UndefinedCard;
      '(c2, deck2) ← orThrow (pop deck1) UndefinedCard;
      ps' ← assign (setCards [c1; c2]) i ps;
      dealHoleCards rest ps' deck2
  end.

(** [startGame]; [shuffled] is [shuffleDeck(createDeck())]. *)
Definition startGame (shuffled : list Card) (st : Table) : Result Table :=
  let eligible (o : option Player) : bool :=
    match o with Some p => (chips p >? Int 0)%num | None => false end in
  let players1 :=
    map (fun o => match o with
                  | Some p =>
                      if (chips p >? Int 0)%num then
                        Some (setIsBigBlind false (setIsSmallBlind false (setIsDealer false
                               (setHasActed false
                                  (setBet (Int 0) (setCards [] (setStatus PLAYING p)))))))
                      else Some p
                  | None => None
                  end) (players st) in
  let activeIdxs :=
    List.filter (fun i => eligible (seatAt (players st) (Z.of_nat i)))
                (seq 0 (length (players st))) in
  let len := Z.of_nat (length activeIdxs) in
  if len <? 2 then
    Ok (mkTable players1 (addLog "Need at least 2 active players to start." (gameState st)))
  else
    let gs1 := setLogs [] (setWinners [] (setPot (Int 0) (setCommunityCards []
                 (setDeck shuffled (gameState st))))) in
    nextDealer ←
      (if dealerIndex gs1 =? -1 then orThrow (arrayGet activeIdxs 0) TypeError
       else
         let found := indexOf activeIdxs (dealerIndex gs1) in
         let currPtr := if found =? -1 then 0 else found in
         orThrow (arrayGet activeIdxs (Z.rem (currPtr + 1) len)) TypeError);
    let gs2 := setDealerIndex (Z.of_nat nextDealer) gs1 in
    players2 ← assign (setIsDealer true) nextDealer players1;
    let dealerPtr := indexOf activeIdxs (Z.of_nat nextDealer) in
    let '(sbPtr, bbPtr) :=
      if len =? 2 then (dealerPtr, Z.rem (dealerPtr + 1) 2)
      else (Z.rem (dealerPtr + 1) len, Z.rem (dealerPtr + 2) len) in
    sbIdx ← orThrow (arrayGet activeIdxs sbPtr) TypeError;
    bbIdx ← orThrow (arrayGet activeIdxs bbPtr) TypeError;
    players3 ← assign (fun p => setIsSmallBlind true (setBet SMALL_BLIND
                                  (setChips (chips p - SMALL_BLIND) p))) sbIdx players2;
    players4 ← assign (fun p => setIsBigBlind true (setBet BIG_BLIND
                                  (setChips (chips p - BIG_BLIND) p))) bbIdx players3;
    '(players5, deck5) ← dealHoleCards activeIdxs players4 (deck gs2);
    firstAct ← orThrow (arrayGet activeIdxs (Z.rem (bbPtr + 1) len)) TypeError;
    let gs3 :=
      setLastRaiserIndex (Some (Z.of_nat bbIdx)) (setCurrentBet BIG_BLIND (setMinBet BIG_BLIND
        (setPhase PREFLOP (setCurrentPlayerIndex (Z.of_nat firstAct) (setDeck deck5 gs2))))) in
    Ok (mkTable players5
          (addLog ("New Hand. Blinds " +:+ showNum SMALL_BLIND +:+ "/" +:+ showNum BIG_BLIND
                   +:+ ".")
             gs3)).

(** The turn loop of [action]:
    [while (...) { next = (next + 1) % 9; if (next === idx) break; }].
    [next] starts in [0..8] and cycles there: nine probes without a hit
    and without meeting [idx] repeat for ever. *)
Fixpoint advanceTurn (fuel : nat) (ps : list (option Player)) (idx next : Z) : Result Z :=
  match fuel with
  | O => Fail Diverges
  | S fuel' =>
      if isPlaying (seatAt ps next) then Ok next
      else
        let next' := Z.rem (next + 1) 9 in
        if next' =? idx then Ok next' else advanceTurn fuel' ps idx next'
  end.

(** [socket.on('action', ...)].  The flag tells whether
    [setTimeout(nextPhase, 500)] was called.  In a raise without amount
    [currentBet + amount] adds [undefined], which gives NaN. *)
Definition action (act : Action) (st : Table) : Result (Table * bool) :=
  let gs := gameState st in
  let idx := currentPlayerIndex gs in
  if idx =? -1 then Ok (st, false)
  else match seatAt (players st) idx with
  | None => Ok (st, false)
  | Some p =>
      let callAmount := (currentBet gs - bet p)%num in
      let '(p1, gs1, log) :=
        match act with
        | fold => (setStatus FOLDED p, gs, Types.name p +:+ " folds.")
        | check => (p, gs, Types.name p +:+ " checks.")
        | call =>
            let amt := Js.min callAmount (chips p) in
            let q := setBet (bet p + amt) (setChips (chips p - amt) p) in
            (if (chips q =? Int 0)%num then setStatus ALL_IN q else q, gs,
             Types.name p +:+ " calls.")
        | raise amount =>
            let totalBet := (currentBet gs + default NaN amount)%num in
            let needed := (totalBet - bet p)%num in
            let '(q, log) :=
              if (needed >=? chips p)%num then
                (setStatus ALL_IN (setChips (Int 0) (setBet (bet p + chips p) p)),
                 Types.name p +:+ " goes All-in!")
              else
                let q := setBet (bet p + needed) (setChips (chips p - needed) p) in
                (q, Types.name p +:+ " raises to " +:+ showNum (bet q) +:+ ".") in
            (q, setLastRaiserIndex (Some idx) (setCurrentBet (bet q) gs), log)
        end in
      let p2 := setHasActed true p1 in
      let players' := <[Z.to_nat idx := Some p2]> (players st) in
      let gs2 := addLog log gs1 in
      let active := List.filter inHand (seated players') in
      let allActed :=
        forallb (fun pl => bool_decide (status pl = ALL_IN)
                           || (bet pl =? currentBet gs2)%num && hasActed pl) active in
      if allActed && (0 <? length active)%nat then Ok (mkTable players' gs2, true)
      else
        next ← advanceTurn 9 players' idx (Z.rem (idx + 1) 9);
        Ok (mkTable players' (setCurrentPlayerIndex next gs2), false)
  end.

(** An action together with the timer it may arm. *)
Definition actionThenTimer (act : Action) (st : Table) : Result Table :=
  action act st ≫= fun r : Table * bool =>
    if snd r then nextPhase (fst r) else Ok (fst r).

End Server.

(** ** The quantities the properties speak about *)

(** The largest integer up to which every integer is a double
    ([Number.MAX_SAFE_INTEGER]). *)
Definition MAX_SAFE_INTEGER : Z := 2 ^ 53 - 1.

(** The integer that an amount is; 0 stands in for an amount that is no
    integer, and [whole] tells the two apart. *)
Definition amountOf (x : Num) : Z :=
  match x with
  | Finite q => if (Qden q =? 1)%positive then Qnum q else 0
  | _ => 0
  end.

Definition whole (x : Num) : Prop := x = Int (amountOf x).

(** Chips in front of the seated players: stacks plus current-round bets. *)
Definition chipsOnSeats (ps : list (option Player)) : Z :=
  fold_right (fun o acc => match o with
                           | Some p => amountOf (chips p) + amountOf (bet p) + acc
                           | None => acc
                           end) 0 ps.

Definition totalMoney (st : Table) : Z :=
  chipsOnSeats (players st) + amountOf (pot (gameState st)).

(** The current-round bets on the table. *)
Definition betsOnSeats (ps : list (option Player)) : Z :=
  fold_right (fun o acc => match o with
                           | Some p => amountOf (bet p) + acc
                           | None => acc
                           end) 0 ps.

(** Every amount on the table is an integer. *)
Definition wholeSeats (ps : list (option Player)) : Prop :=
  forall i p, ps !! i = Some (Some p) -> whole (chips p) /\ whole (bet p).

Definition wholeTable (st : Table) : Prop :=
  wholeSeats (players st)
  /\ whole (pot (gameState st)) /\ whole (currentBet (gameState st)).

(** The amounts on the table, added up by size. *)
Definition seatsMagnitude (ps : list (option Player)) : Z :=
  fold_right (fun o acc => match o with
                           | Some p =>
                               Z.abs (amountOf (chips p)) + Z.abs (amountOf (bet p)) + acc
                           | None => acc
                           end) 0 ps.

Definition magnitude (st : Table) : Z :=
  seatsMagnitude (players st)
  + Z.abs (amountOf (pot (gameState st))) + Z.abs (amountOf (currentBet (gameState st))).

(** A table and an action whose amounts are integers that add up, by size,
    to a safe integer: every sum and difference the handlers form is then
    a safe integer too. *)
Definition safeAction (st : Table) (act : Action) : Prop :=
  wholeTable st
  /\ match act with
     | raise amount =>
         exists a, amount = Some (Int a) /\ magnitude st + Z.abs a <= MAX_SAFE_INTEGER
     | _ => magnitude st <= MAX_SAFE_INTEGER
     end.

(** The acting seat [p] and a raise by [amount] whose numbers are integers
    that add up, by size, to a safe integer. *)
Definition safeRaise (gs : GameState) (p : Player) (amount : Z) : Prop :=
  whole (chips p) /\ whole (bet p) /\ whole (currentBet gs)
  /\ Z.abs (amountOf (chips p)) + Z.abs (amountOf (bet p))
     + Z.abs (amountOf (currentBet gs)) + Z.abs amount <= MAX_SAFE_INTEGER.

(** What the sweep does to one player object. *)
Definition swept (p : Player) : Player := setHasActed false (setBet (Int 0) p).

(** What a raise has to leave behind, in the words of the betting rules:
    [p] is the acting seat before the raise, [p'] and [gs'] the seat and the
    table after it. *)
Definition raiseOutcome (gs : GameState) (idx amount : Z) (p p' : Player)
    (gs' : GameState) : Prop :=
  let target := amountOf (currentBet gs) + amount in
  let needed := target - amountOf (bet p) in
  (amountOf (chips p) <= needed ->
     chips p' = Int 0 /\ bet p' = Int (amountOf (bet p) + amountOf (chips p))
     /\ status p' = ALL_IN)
  /\ (needed < amountOf (chips p) ->
     bet p' = Int target /\ chips p' = Int (amountOf (chips p) - needed)
     /\ currentBet gs' = Int target /\ lastRaiserIndex gs' = Some idx)
  /\ (0 <= amountOf (chips p) -> 0 <= amountOf (chips p'))
  /\ amountOf (bet p') - amountOf (bet p) <= amountOf (chips p).

(** ** Hands, in the words of the rules *)

(** The cards hold an ace, a five and a deuce, but not both a four and a
    three. *)
Definition bareWheel (cs : list Card) : bool :=
  let vs := map value cs in
  includes vs 14 && includes vs 5 && includes vs 2
  && negb (includes vs 4 && includes vs 3).

(** The cards hold five consecutive values of which [hi] is the highest; an
    ace may stand for the value 1 below the deuce. *)
Definition holdsRun (cs : list Card) (hi : Z) : Prop :=
  forall k, 0 <= k < 5 ->
    exists c, In c cs /\ (value c = hi - k \/ (value c = 14 /\ hi - k = 1)).

(** Five consecutive integers with top [h] in an array of values. *)
Definition runIn (u : list Z) (h : Z) : Prop := forall k, 0 <= k < 5 -> In (h - k) u.

(** Five cards of one suit with consecutive values. *)
Definition holdsStraightFlush (cs : list Card) : Prop :=
  exists s hi, holdsRun (List.filter (fun c => bool_decide (suit c = s)) cs) hi.

(** The categories in which the two evaluators compute the same score. *)
Definition kickerFree (name : string) : Prop :=
  In name ["Straight Flush"; "Flush"; "Straight"; "High Card"].

(** ** The showdown, in the words of the rules *)

(** The chips in the stacks. *)
Definition stacks (ps : list (option Player)) : Z :=
  fold_right (fun o acc => match o with
                           | Some p => amountOf (chips p) + acc
                           | None => acc
                           end) 0 ps.

(** The seats still in the hand, in seat order. *)
Definition contenders (ps : list (option Player)) : list (nat * Player) :=
  List.filter (fun ip => inHand (snd ip)) (seatedWithIndex ps).

(** The evaluation of a player's hand on a board.  The default stands for a
    hand without any card, which [evaluateHand] cannot rank. *)
Definition serverEval (board : list Card) (p : Player) : Server.HandEval :=
  default (Server.mkEval 0 "") (Server.evaluateHand (cards p) board).

Definition clientEval (board : list Card) (p : Player) : Client.HandEval :=
  default (Client.mkEval 0 "") (Client.evaluateHand (cards p) board).

(** The contenders that no contender outscores. *)
Definition serverTied (ps : list (option Player)) (board : list Card) : list (nat * Player) :=
  let scoreOf q := Server.score (serverEval board q) in
  List.filter
    (fun ip => forallb (fun jq => scoreOf (snd jq) <=? scoreOf (snd ip)) (contenders ps))
    (contenders ps).

Definition clientTied (ps : list (option Player)) (board : list Card) : list (nat * Player) :=
  let scoreOf q := Client.score (clientEval board q) in
  List.filter
    (fun ip => forallb (fun jq => Qle_bool (scoreOf (snd jq)) (scoreOf (snd ip)))
                 (contenders ps))
    (contenders ps).

(** An even split of [amount] among the [tied] seats, from the seats [ps]
    to the seats [ps']: every tied stack grows by the floor of the quotient,
    no other seat changes, and the remainder reaches no stack. *)
Definition splitEvenly (tied : list (nat * Player)) (amount : Z)
    (ps ps' : list (option Player)) : Prop :=
  let n := Z.of_nat (length tied) in
  let share := amount / n in
  1 <= n
  /\ (forall i p, In (i, p) tied ->
        ps' !! i = Some (Some (setChips (Int (amountOf (chips p) + share)) p)))
  /\ (forall i, (forall p, ~ In (i, p) tied) -> ps' !! i = ps !! i)
  /\ stacks ps' = stacks ps + (amount - amount mod n).

(** ** The deck, the hands and the seats, in the words of the rules *)

(** The largest double below 1. *)
Definition largestBelowOne : Q := (2 ^ 53 - 1) # (2 ^ 53).

(** What [Math.random] returns: a double from 0 up to, but not including,
    1. *)
Definition unitDraw (x : Num) : Prop :=
  exists q, x = Finite q /\ (0 <= q <= largestBelowOne)%Q.

(** The rank of a hand category, as the rules order them. *)
Definition categoryOf (name : string) : Z :=
  if bool_decide (name = "Straight Flush") then 9
  else if bool_decide (name = "Four of a Kind") then 8
  else if bool_decide (name = "Full House") then 7
  else if bool_decide (name = "Flush") then 6
  else if bool_decide (name = "Straight") then 5
  else if bool_decide (name = "Three of a Kind") then 4
  else if bool_decide (name = "Two Pair") then 3
  else if bool_decide (name = "One Pair") then 2
  else if bool_decide (name = "High Card") then 1
  else 0.

(** Two arrays of cards with the same values, position by position. *)
Definition sameValues (cs cs' : list Card) : Prop :=
  Forall2 (fun c c' => value c = value c') cs cs'.

(** The number of cards of suit [s]. *)
Definition suitCount (s : Suit) (cs : list Card) : nat :=
  length (List.filter (fun c => bool_decide (suit c = s)) cs).

(** The cards hold a flush whose highest card is [c]. *)
Definition flushTop (cs : list Card) (c : Card) : Prop :=
  In c cs /\ (5 <= suitCount (suit c) cs)%nat
  /\ forall c', In c' cs -> suit c' = suit c -> value c' <= value c.

(** The cards that [nextPhase] deals in a phase when more than one seat is
    in the hand. *)
Definition dealtIn (ph : GamePhase) : nat :=
  match ph with
  | PREFLOP => 3
  | FLOP | TURN => 1
  | _ => 0
  end.

(** The phase that follows a phase when more than one seat is in the hand. *)
Definition phaseAfter (ph : GamePhase) : GamePhase :=
  match ph with
  | IDLE => IDLE
  | PREFLOP => FLOP
  | FLOP => TURN
  | TURN => RIVER
  | RIVER | SHOWDOWN => SHOWDOWN
  end.

(** The seat holds a player who is PLAYING and has chips. *)
Definition canAct (o : option Player) : bool :=
  match o with
  | Some p => bool_decide (status p = PLAYING) && (chips p >? Int 0)%num
  | None => false
  end.

(** The table record up to its log. *)
Definition sameButLogs (gs gs' : GameState) : Prop := setLogs [] gs = setLogs [] gs'.

(** One step of the server: a message handled, or the [nextPhase] timer
    fired, by a handler that returns. *)
Inductive ServerStep : Table -> Table -> Prop :=
  | step_sit socketId seatIndex buyIn name st :
      ServerStep st (Server.sit socketId seatIndex buyIn name st)
  | step_standUp socketId seatIndex st :
      ServerStep st (Server.standUp socketId seatIndex st)
  | step_startGame shuffled st st' :
      Server.startGame shuffled st = Ok st' -> ServerStep st st'
  | step_action act st st' armed :
      Server.action act st = Ok (st', armed) -> ServerStep st st'
  | step_nextPhase st st' :
      Server.nextPhase st = Ok st' -> ServerStep st st'.

(** The tables the server can reach from its initial one. *)
Inductive Reachable : Table -> Prop :=
  | reach_initial : Reachable Server.initialTable
  | reach_step st st' : Reachable st -> ServerStep st st' -> Reachable st'.

(** ** Sample hands and tables *)

Definition card (r : Rank) (s : Suit) : Card := mkCard s r.

Definition smallDeck : list Card :=
  [card TWO CLUBS; card SEVEN HEARTS; card NINE SPADES; card JACK DIAMONDS;
   card FOUR SPADES; card KING CLUBS; card THREE HEARTS; card QUEEN SPADES;
   card EIGHT DIAMONDS; card ACE CLUBS; card FIVE HEARTS; card TEN SPADES].

(** Four kings with a four, a three and a deuce. *)
Definition fourKingsHole : list Card := [card KING HEARTS; card KING CLUBS].
Definition fourKingsBoard : list Card :=
  [card KING SPADES; card KING DIAMONDS; card FOUR CLUBS; card THREE HEARTS; card TWO HEARTS].

(** Two aces on the board: kings in the hole make aces and kings with a
    nine, deuces in the hole make aces and deuces with a nine. *)
Definition pairedBoard : list Card :=
  [card ACE SPADES; card ACE DIAMONDS; card NINE CLUBS; card SEVEN HEARTS; card THREE SPADES].
Definition kingsHole : list Card := [card KING HEARTS; card KING CLUBS].
Definition deucesHole : list Card := [card TWO HEARTS; card TWO DIAMONDS].

(** Ace, five and deuce of mixed suits with a nine and an eight: no five
    values in a row. *)
Definition looseWheelHole : list Card := [card ACE SPADES; card FIVE HEARTS].
Definition looseWheelBoard : list Card :=
  [card TWO DIAMONDS; card NINE CLUBS; card EIGHT CLUBS].

(** The wheel and the six-high straight, of mixed suits. *)
Definition wheelHole : list Card := [card ACE SPADES; card TWO HEARTS].
Definition wheelBoard : list Card := [card THREE DIAMONDS; card FOUR CLUBS; card FIVE CLUBS].
Definition sixHighHole : list Card := [card TWO HEARTS; card THREE DIAMONDS].
Definition sixHighBoard : list Card := [card FOUR CLUBS; card FIVE CLUBS; card SIX SPADES].

(** Seven hearts: king, jack and the straight flush from six down to two. *)
Definition lowStraightFlushHole : list Card := [card KING HEARTS; card JACK HEARTS].
Definition lowStraightFlushBoard : list Card :=
  [card SIX HEARTS; card FIVE HEARTS; card FOUR HEARTS; card THREE HEARTS; card TWO HEARTS].

(** An ace-high flush in hearts without five values in a row. *)
Definition aceFlushHole : list Card := [card ACE HEARTS; card NINE HEARTS].
Definition aceFlushBoard : list Card :=
  [card SEVEN HEARTS; card FIVE HEARTS; card THREE HEARTS; card TWO CLUBS; card TWO DIAMONDS].

(** Ann on seat 0 and Bob on seat 1, 1000 chips each. *)
Definition twoSeated : Table := Eval vm_compute in
  Server.sit "s1" 1 (Int 1000) "Bob" (Server.sit "s0" 0 (Int 1000) "Ann" Server.initialTable).

(** The same table right after [startGame]: Ann is dealer and small blind
    and first to act, Bob is big blind. *)
Definition preflopHeadsUp : Table := Eval vm_compute in
  match Server.startGame smallDeck twoSeated with
  | Ok t => t
  | Fail _ => twoSeated
  end.

(** Ann as she sits at that table. *)
Definition annPreflop : Player := Eval vm_compute in
  default (mkPlayer (NumericId 0) "" (Int 0) (Int 0) EMPTY [] false false false false)
          (seatAt (players preflopHeadsUp) 0).

(** Ann, Bob and Cid right after [startGame]: Ann is dealer and first to
    act, Bob is small blind, Cid is big blind. *)
Definition preflopThreeHanded : Table := Eval vm_compute in
  match Server.startGame smallDeck (Server.sit "s2" 2 (Int 1000) "Cid" twoSeated) with
  | Ok t => t
  | Fail _ => twoSeated
  end.

(** Ann has 5 chips left, less than the small blind. *)
Definition shortStacked : Table := Eval vm_compute in
  Server.sit "s1" 1 (Int 1000) "Bob" (Server.sit "s0" 0 (Int 5) "Ann" Server.initialTable).

(** The river has been bet, the pot holds 41, and Ann and Bob both play the
    ace-high straight that lies on the board; Cid has folded. *)
Definition riverTie : Table :=
  mkTable
    [Some (mkPlayer (SocketId "s0") "Ann" (Int 980) (Int 0) PLAYING
             [card TWO CLUBS; card SEVEN HEARTS] true true false true);
     Some (mkPlayer (SocketId "s1") "Bob" (Int 980) (Int 0) PLAYING
             [card THREE HEARTS; card EIGHT DIAMONDS] false false true true);
     Some (mkPlayer (SocketId "s2") "Cid" (Int 999) (Int 0) FOLDED
             [card ACE CLUBS; card ACE HEARTS] false false false true);
     None; None; None; None; None; None]
    (mkGameState (Int 41)
       [card TEN SPADES; card JACK DIAMONDS; card QUEEN CLUBS; card KING HEARTS; card ACE SPADES]
       [card FOUR SPADES; card NINE SPADES] SHOWDOWN 0 0 (Int 0) (Int 0) None [] ["Showdown!"]).

(** Ann sits down with 9007199254741102 chips, more than 2^53.  After the
    small blind of 10 her stack reads 9007199254741092 and her bet 10,
    against a bet to match of 20. *)
Definition highRollers : Table := Eval vm_compute in
  match Server.startGame smallDeck
          (Server.sit "s1" 1 (Int 1000) "Bob"
             (Server.sit "s0" 0 (Int 9007199254741102) "Ann" Server.initialTable)) with
  | Ok t => t
  | Fail _ => twoSeated
  end.

(** Ann as she sits at that table. *)
Definition annHighRoller : Player := Eval vm_compute in
  default (mkPlayer (NumericId 0) "" (Int 0) (Int 0) EMPTY [] false false false false)
          (seatAt (players highRollers) 0).

(** Ann sits down with 2^56 chips: after the small blind her stack reads
    2^56 - 16, her bet 10, against a bet to match of 20. *)
Definition whales : Table := Eval vm_compute in
  match Server.startGame smallDeck
          (Server.sit "s1" 1 (Int 1000) "Bob"
             (Server.sit "s0" 0 (Int (2 ^ 56)) "Ann" Server.initialTable)) with
  | Ok t => t
  | Fail _ => twoSeated
  end.

(** Ann as she sits at that table. *)
Definition annWhale : Player := Eval vm_compute in
  default (mkPlayer (NumericId 0) "" (Int 0) (Int 0) EMPTY [] false false false false)
          (seatAt (players whales) 0).

(** A pot of 13510798882111490 chips at the showdown; Ann, Bob and Cid all
    play the ace-high straight that lies on the board. *)
Definition bigPotTie : Table :=
  mkTable
    [Some (mkPlayer (SocketId "s0") "Ann" (Int 0) (Int 0) PLAYING
             [card TWO CLUBS; card SEVEN HEARTS] true true false true);
     Some (mkPlayer (SocketId "s1") "Bob" (Int 0) (Int 0) PLAYING
             [card THREE HEARTS; card EIGHT DIAMONDS] false false true true);
     Some (mkPlayer (SocketId "s2") "Cid" (Int 0) (Int 0) PLAYING
             [card FOUR DIAMONDS; card SIX CLUBS] false false false true);
     None; None; None; None; None; None]
    (mkGameState (Int 13510798882111490)
       [card TEN SPADES; card JACK DIAMONDS; card QUEEN CLUBS; card KING HEARTS; card ACE SPADES]
       [card FOUR SPADES; card NINE SPADES] SHOWDOWN 0 0 (Int 0) (Int 0) None [] ["Showdown!"]).

(** Heads-up after the small blind has folded: Bob alone is left in the
    hand. *)
Definition loneSeat : Table := Eval vm_compute in
  match Server.action fold preflopHeadsUp with
  | Ok (t, _) => t
  | Fail _ => preflopHeadsUp
  end.

(** Bob as he sits at that table. *)
Definition bobAlone : Player := Eval vm_compute in
  default annPreflop (seatAt (players loneSeat) 1).

(** Heads-up after Ann has raised all her chips and Bob has called with all
    of his: both are ALL_IN and the timer is armed. *)
Definition bothAllIn : Table := Eval vm_compute in
  match Server.action (raise (Some (Int 5000))) preflopHeadsUp
          ≫= (fun r : Table * bool => Server.action call (fst r)) with
  | Ok (t, _) => t
  | Fail _ => preflopHeadsUp
  end.

(** Every call of [Math.random] answers one half. *)
Definition halves : nat -> Num := fun _ => Finite (1 # 2).

(** The three-handed table after the timer fired once: the flop. *)
Definition flopThreeHanded : Table := Eval vm_compute in
  match Server.nextPhase preflopThreeHanded with
  | Ok t => t
  | Fail _ => preflopThreeHanded
  end.

(** * JavaScript numbers

    Where every number is an integer up to [MAX_SAFE_INTEGER], the
    arithmetic of the program is that of the integers. *)

Lemma binaryExponent_spec (a d : Z) :
  0 < a -> 0 < d ->
  let k := Z.log2 d + 1 in
  let l := Js.binaryExponent a d + k in
  0 <= k /\ 0 <= l /\ 2 ^ l * d <= a * 2 ^ k < 2 ^ (l + 1) * d.
Proof.
  intros Ha Hd k l. unfold l, Js.binaryExponent. fold k.
  replace (Z.log2 (a * 2 ^ k / d) - k + k) with (Z.log2 (a * 2 ^ k / d)) by lia.
  pose proof (Z.log2_nonneg d) as Hld.
  assert (Hk : 0 <= k) by (unfold k; lia).
  assert (Hdk : d < 2 ^ k).
  { unfold k. apply Z.log2_lt_pow2; lia. }
  assert (Hpk : 0 < 2 ^ k) by (apply Z.pow_pos_nonneg; lia).
  assert (Hx : 1 <= a * 2 ^ k / d).
  { apply Z.div_le_lower_bound; nia. }
  pose proof (Z.log2_spec (a * 2 ^ k / d) ltac:(lia)) as [Hlo Hhi].
  pose proof (Z.log2_nonneg (a * 2 ^ k / d)) as Hl.
  split; [exact Hk |]. split; [exact Hl |].
  rewrite <- Z.add_1_r in Hhi.
  pose proof (Z.mul_div_le (a * 2 ^ k) d Hd).
  pose proof (Z.mul_succ_div_gt (a * 2 ^ k) d Hd).
  split; nia.
Qed.

Lemma Qpower_2_pos (t : Z) : (0 < 2 ^ t)%Q.
Proof. apply Qpower_0_lt. reflexivity. Qed.

Lemma scale_back (z t : Z) :
  0 <= t -> (inject_Z (z * 2 ^ t) * 2 ^ (- t) == inject_Z z)%Q.
Proof.
  intros Ht. rewrite inject_Z_mult, (Zpower_Qpower 2 t Ht), Qpower_opp.
  change (inject_Z 2) with 2%Q.
  pose proof (Qpower_2_pos t). field. lra.
Qed.

Lemma Qred_inject_Z (z : Z) : Qred (inject_Z z) = inject_Z z.
Proof.
  unfold Qred, inject_Z.
  pose proof (Z.ggcd_gcd z 1) as Hg. pose proof (Z.ggcd_correct_divisors z 1) as Hd.
  destruct (Z.ggcd z 1) as [g [r1 r2]]. cbn [fst snd] in *.
  rewrite Z.gcd_1_r in Hg. subst g. destruct Hd as [H1 H2].
  rewrite Z.mul_1_l in H1, H2. now subst.
Qed.

Lemma nearestEven_exact (x : Z) : Js.nearestEven x 1 = x.
Proof.
  unfold Js.nearestEven. rewrite Z.div_1_r, Z.mod_1_r. reflexivity.
Qed.

Lemma roundToDouble_Int (z : Z) :
  Z.abs z <= MAX_SAFE_INTEGER -> Js.roundToDouble (inject_Z z) = Int z.
Proof.
  unfold MAX_SAFE_INTEGER. intros Hz. unfold Js.roundToDouble. cbn [Qnum Qden inject_Z].
  destruct (Z.eqb_spec z 0) as [-> | Hnz]; [reflexivity |].
  assert (Ha : 0 < Z.abs z) by lia.
  destruct (binaryExponent_spec (Z.abs z) 1 Ha ltac:(lia)) as (_ & Hl & Hlo & Hhi).
  change (Z.log2 1 + 1) with 1 in *. change (2 ^ 1) with 2 in *.
  set (e := Js.binaryExponent (Z.abs z) 1) in *.
  assert (He : 0 <= e <= 52).
  { split.
    - destruct (Z_lt_le_dec e 0) as [Hneg | ]; [| assumption].
      assert (e + 1 = 0) as E by lia. rewrite E in Hhi. cbn in Hhi. lia.
    - destruct (Z_lt_le_dec 52 e) as [Hbig | ]; [| lia].
      assert (2 ^ 54 <= 2 ^ (e + 1)) by (apply Z.pow_le_mono_r; lia). lia. }
  rewrite (Z.max_l (e - 52) (-1074)) by lia.
  rewrite (Z.max_r 0 (- (e - 52))) by lia.
  rewrite (Z.max_l 0 (e - 52)) by lia.
  change (2 ^ 0) with 1. rewrite nearestEven_exact, Z.mul_1_r.
  assert (Hm : Z.abs z * 2 ^ (- (e - 52)) < 2 ^ 53).
  { assert (Hs : 2 ^ (e + 1) * 2 ^ (- (e - 52)) = 2 ^ 53).
    { rewrite <- Z.pow_add_r by lia. replace (e + 1 + - (e - 52)) with 53 by lia. reflexivity. }
    assert (Hp : 0 < 2 ^ (- (e - 52))) by (apply Z.pow_pos_nonneg; lia).
    assert (Ha' : Z.abs z < 2 ^ (e + 1)).
    { replace (e + 1 + 1) with (Z.succ (e + 1)) in Hhi by lia.
      rewrite Z.pow_succ_r in Hhi by lia. lia. }
    assert (Z.abs z * 2 ^ (- (e - 52)) < 2 ^ (e + 1) * 2 ^ (- (e - 52)))
      by (apply Z.mul_lt_mono_pos_r; [exact Hp | exact Ha']).
    lia. }
  destruct (Z.leb_spec (2 ^ 1024) (Z.abs z * 2 ^ (- (e - 52)))) as [Hov | _].
  { assert (2 ^ 53 < 2 ^ 1024) by (apply Z.pow_lt_mono_r; lia). lia. }
  unfold Int. f_equal. rewrite <- (Qred_inject_Z z). apply Qred_complete.
  rewrite Z.mul_assoc. replace (Z.sgn z * Z.abs z) with z by (rewrite Z.mul_comm; symmetry; apply Z.abs_sgn).
  replace (e - 52) with (- (- (e - 52))) at 2 by lia.
  apply scale_back. lia.
Qed.

Lemma add_Int (a b : Z) :
  Z.abs (a + b) <= MAX_SAFE_INTEGER -> Js.add (Int a) (Int b) = Int (a + b).
Proof.
  intros H. unfold Js.add, Int.
  replace (inject_Z a + inject_Z b)%Q with (inject_Z (a + b)).
  - now apply roundToDouble_Int.
  - unfold inject_Z, Qplus. cbn [Qnum Qden]. now rewrite !Z.mul_1_r.
Qed.

Lemma sub_Int (a b : Z) :
  Z.abs (a - b) <= MAX_SAFE_INTEGER -> Js.sub (Int a) (Int b) = Int (a - b).
Proof.
  intros H. unfold Js.sub. change (Js.opp (Int b)) with (Int (- b)).
  rewrite add_Int; [f_equal; lia |]. now replace (a + - b) with (a - b) by lia.
Qed.

Lemma compare_Int (a b : Z) : Js.compare (Int a) (Int b) = Some (a ?= b).
Proof. unfold Js.compare, Int, Qcompare. cbn. now rewrite !Z.mul_1_r. Qed.

Lemma eqb_Int (a b : Z) : Js.eqb (Int a) (Int b) = (a =? b).
Proof. unfold Js.eqb. rewrite compare_Int, Z.eqb_compare. now destruct (a ?= b). Qed.

Lemma ltb_Int (a b : Z) : Js.ltb (Int a) (Int b) = (a <? b).
Proof. unfold Js.ltb. rewrite compare_Int. unfold Z.ltb. now destruct (a ?= b). Qed.

Lemma leb_Int (a b : Z) : Js.leb (Int a) (Int b) = (a <=? b).
Proof. unfold Js.leb. rewrite compare_Int. unfold Z.leb. now destruct (a ?= b). Qed.

Lemma gtb_Int (a b : Z) : Js.gtb (Int a) (Int b) = (b <? a).
Proof. apply ltb_Int. Qed.

Lemma geb_Int (a b : Z) : Js.geb (Int a) (Int b) = (b <=? a).
Proof. apply leb_Int. Qed.

Lemma min_Int (a b : Z) : Js.min (Int a) (Int b) = Int (Z.min a b).
Proof.
  unfold Js.min. rewrite compare_Int. unfold Z.min. now destruct (a ?= b).
Qed.

Lemma Int_inj (a b : Z) : Int a = Int b -> a = b.
Proof. unfold Int, inject_Z. congruence. Qed.

Lemma nearestEven_bounds (x y : Z) :
  0 < y ->
  x / y <= Js.nearestEven x y <= x / y + 1
  /\ (Js.nearestEven x y = x / y + 1 -> y <= 2 * (x mod y)).
Proof.
  intros Hy. unfold Js.nearestEven.
  destruct (Z.ltb_spec (2 * (x mod y)) y); [lia |].
  destruct (Z.ltb_spec y (2 * (x mod y))); [lia |].
  destruct (Z.even (x / y)); lia.
Qed.

Lemma floor_scaled (m t : Z) :
  0 <= t -> Qfloor (inject_Z m * 2 ^ (- t)) = m / 2 ^ t.
Proof.
  intros Ht. rewrite Zdiv_Qdiv. apply Qfloor_comp.
  rewrite (Zpower_Qpower 2 t Ht), Qpower_opp. reflexivity.
Qed.

Lemma pow2_lt_inv (b c : Z) : 0 <= c -> 2 ^ b < 2 ^ c -> b < c.
Proof. intros Hc H. apply (Z.pow_lt_mono_r_iff 2); [lia | exact Hc | exact H]. Qed.

(** A positive safe integer divided by a positive integer, rounded to a
    double: the integer part is that of the exact quotient. *)
Lemma round_floor (a : Z) (d : positive) :
  0 < a <= MAX_SAFE_INTEGER ->
  exists v, Js.roundToDouble (a # d) = Finite v /\ Qfloor v = a / Zpos d.
Proof.
  unfold MAX_SAFE_INTEGER. intros [Ha Hsafe].
  unfold Js.roundToDouble. cbn [Qnum Qden].
  destruct (Z.eqb_spec a 0) as [| _]; [lia |].
  rewrite (Z.abs_eq a) by lia. rewrite (Z.sgn_pos a Ha), Z.mul_1_l.
  set (D := Zpos d). assert (HD : 0 < D) by (unfold D; lia).
  destruct (binaryExponent_spec a D Ha HD) as (Hk & Hl & Hlo & Hhi).
  set (k := Z.log2 D + 1) in *.
  set (e := Js.binaryExponent a D) in *.
  set (l := e + k) in *.
  assert (Hpk : 0 < 2 ^ k) by (apply Z.pow_pos_nonneg; lia).
  assert (Hpl : 0 < 2 ^ l) by (apply Z.pow_pos_nonneg; lia).
  assert (He : e <= 52).
  { assert (H1 : 2 ^ l < 2 ^ (53 + k)).
    { rewrite Z.pow_add_r by lia. nia. }
    apply pow2_lt_inv in H1; lia. }
  set (s := Z.max (e - 52) (-1074)).
  assert (Hs : s <= 0) by (unfold s; lia).
  rewrite (Z.max_r 0 (- s)) by lia. rewrite (Z.max_l 0 s) by lia.
  change (2 ^ 0) with 1. rewrite !Z.mul_1_r.
  set (t := - s) in *. assert (Ht : 0 <= t) by (unfold t; lia).
  assert (Hpt : 0 < 2 ^ t) by (apply Z.pow_pos_nonneg; lia).
  set (K := a / D).
  pose proof (Z.div_mod a D ltac:(lia)) as Hdm. fold K in Hdm.
  pose proof (Z.mod_pos_bound a D HD) as Hrho.
  set (rho := a mod D) in *.
  (* the scaled quotient stays below 2^53 *)
  assert (HB : a * 2 ^ t < 2 ^ 53 * D).
  { assert (Hu : 0 <= 52 - e) by lia.
    assert (Hpu : 0 < 2 ^ (52 - e)) by (apply Z.pow_pos_nonneg; lia).
    assert (Hle : 2 ^ t <= 2 ^ (52 - e)) by (apply Z.pow_le_mono_r; unfold t, s; lia).
    assert (H1 : a * 2 ^ (52 - e) * 2 ^ l = a * 2 ^ k * 2 ^ 52).
    { replace (a * 2 ^ (52 - e) * 2 ^ l) with (a * (2 ^ (52 - e) * 2 ^ l)) by ring.
      rewrite <- Z.pow_add_r by lia. replace (52 - e + l) with (k + 52) by (unfold l; lia).
      rewrite Z.pow_add_r by lia. ring. }
    assert (H2 : 2 ^ (l + 1) * D * 2 ^ 52 = 2 ^ 53 * D * 2 ^ l).
    { rewrite Z.pow_add_r by lia. change (2 ^ 53) with (2 ^ 52 * 2). change (2 ^ 1) with 2. ring. }
    assert (H3 : a * 2 ^ (52 - e) * 2 ^ l < 2 ^ 53 * D * 2 ^ l).
    { rewrite H1, <- H2. apply Z.mul_lt_mono_pos_r; [lia | exact Hhi]. }
    apply Z.mul_lt_mono_pos_r in H3; [| exact Hpl].
    assert (a * 2 ^ t <= a * 2 ^ (52 - e)) by (apply Z.mul_le_mono_nonneg_l; lia).
    lia. }
  destruct (nearestEven_bounds (a * 2 ^ t) D HD) as [[Hm1 Hm2] Hup].
  set (M := Js.nearestEven (a * 2 ^ t) D) in *.
  set (qt := a * 2 ^ t / D) in *.
  assert (Hqt53 : qt < 2 ^ 53) by (apply Z.div_lt_upper_bound; lia).
  assert (Hqt1 : K * 2 ^ t <= qt).
  { apply Z.div_le_lower_bound; [exact HD |]. nia. }
  assert (Hqt2 : qt < (K + 1) * 2 ^ t).
  { apply Z.div_lt_upper_bound; [exact HD |]. nia. }
  destruct (Z.leb_spec (2 ^ 1024) M) as [Hov | _].
  { assert (2 ^ 53 < 2 ^ 1024) by (apply Z.pow_lt_mono_r; lia). lia. }
  eexists. split; [reflexivity |].
  rewrite (Qfloor_comp _ _ (Qred_correct _)).
  replace s with (- t) by (unfold t; lia). rewrite floor_scaled by exact Ht.
  symmetry. apply (Z.div_unique M (2 ^ t) K (M - K * 2 ^ t)); [| lia].
  left. split; [lia |].
  assert (HM : M < (K + 1) * 2 ^ t); [| lia].
  destruct (Z.eq_dec M (qt + 1)) as [Eup | ]; [| lia].
  destruct (Z.eq_dec (qt + 1) ((K + 1) * 2 ^ t)) as [Etop | ]; [exfalso | lia].
  specialize (Hup Eup).
  pose proof (Z.div_mod (a * 2 ^ t) D ltac:(lia)) as Hdm2. fold qt in Hdm2.
  set (r := (a * 2 ^ t) mod D) in *.
  assert (Hgap : 2 ^ (t + 1) <= D).
  { rewrite Z.pow_add_r by lia. change (2 ^ 1) with 2. nia. }
  destruct (Z_le_gt_dec (-1074) (e - 52)) as [Hnorm | Hsub].
  - assert (Et : t = 52 - e) by (unfold t, s; lia).
    assert (H1 : 2 ^ (t + 1) * 2 ^ l <= a * 2 ^ k) by nia.
    rewrite <- Z.pow_add_r in H1 by lia.
    replace (t + 1 + l) with (53 + k) in H1 by (unfold l; lia).
    rewrite Z.pow_add_r in H1 by lia. nia.
  - assert (Et : t = 1074) by (unfold t, s; lia).
    assert (HK : K = 0).
    { unfold K. apply Z.div_small. split; [lia |].
      assert (Hlk : 2 ^ (l + 1) <= 2 ^ k) by (apply Z.pow_le_mono_r; unfold l; lia).
      nia. }
    rewrite HK, Et in Etop. cbn [Z.add] in Etop. rewrite Z.mul_1_l in Etop.
    assert (2 ^ 53 < 2 ^ 1074) by (apply Z.pow_lt_mono_r; lia). lia.
Qed.

Lemma floor_divByLength_Int (p : Z) (n : nat) :
  0 <= p <= MAX_SAFE_INTEGER -> (1 <= n)%nat ->
  Js.floor (Js.divByLength (Int p) n) = Int (p / Z.of_nat n).
Proof.
  intros Hp Hn. destruct n as [| n']; [lia |].
  unfold Js.divByLength, Int at 1.
  assert (Hq : (inject_Z p / inject_Z (Z.of_nat (S n')))%Q
               = (p * 1) # (1 * Pos.of_succ_nat n')).
  { unfold Qdiv, Qmult, Qinv, inject_Z. cbn [Qnum Qden Z.of_nat]. reflexivity. }
  rewrite Hq, Z.mul_1_r, Pos.mul_1_l.
  replace (Z.of_nat (S n')) with (Zpos (Pos.of_succ_nat n')) by (cbn; reflexivity).
  destruct (Z.eq_dec p 0) as [-> | Hnz].
  - unfold Js.roundToDouble. cbn [Qnum Z.eqb Js.floor]. now rewrite Z.div_0_l by lia.
  - destruct (round_floor p (Pos.of_succ_nat n') ltac:(lia)) as (v & -> & Hv).
    cbn [Js.floor]. now rewrite Hv.
Qed.

(** * The hand evaluator *)

(** ** The stable sort *)

Section StableSort.
Context {A : Type} (after : A -> A -> bool).

Lemma sortInsert_In (x y : A) (l : list A) :
  In y (sortInsert after x l) <-> y = x \/ In y l.
Proof.
  induction l as [| z l IH]; simpl.
  - intuition.
  - destruct (after x z); simpl; rewrite ?IH; intuition.
Qed.

Lemma stableSort_In (y : A) (l : list A) : In y (stableSort after l) <-> In y l.
Proof.
  induction l as [| x l IH]; simpl; [reflexivity |].
  rewrite sortInsert_In, IH. intuition.
Qed.

Lemma sortInsert_length (x : A) (l : list A) :
  length (sortInsert after x l) = S (length l).
Proof.
  induction l as [| z l IH]; simpl; [reflexivity |].
  destruct (after x z); simpl; now rewrite ?IH.
Qed.

Lemma stableSort_length (l : list A) : length (stableSort after l) = length l.
Proof.
  induction l as [| x l IH]; simpl; [reflexivity |].
  now rewrite sortInsert_length, IH.
Qed.

(** Stability: an element only moves behind elements it has to come after,
    so elements that are never ordered against each other keep their order. *)
Lemma sortInsert_filter (P : A -> bool) (x : A) (l : list A) :
  (forall y, after x y = true -> P x = true -> P y = false) ->
  List.filter P (sortInsert after x l) = List.filter P (x :: l).
Proof.
  intros Hdis. induction l as [| z l IH]; [reflexivity |].
  simpl. destruct (after x z) eqn:Haf; [| reflexivity].
  simpl. rewrite IH. simpl.
  destruct (P x) eqn:Px; [| reflexivity].
  now rewrite (Hdis z Haf eq_refl).
Qed.

Lemma stableSort_filter (P : A -> bool) (l : list A) :
  (forall x y, after x y = true -> P x = true -> P y = false) ->
  List.filter P (stableSort after l) = List.filter P l.
Proof.
  intros Hdis. induction l as [| x l IH]; [reflexivity |].
  simpl. rewrite sortInsert_filter by (intros y; apply Hdis).
  simpl. now rewrite IH.
Qed.

(** The first element of the sorted array has to come after no other. *)
Lemma stableSort_head (l : list A) (b : A) :
  (forall x y, after x y = true -> after y x = false) ->
  (forall x y z, after x z = true -> after x y = true \/ after y z = true) ->
  head (stableSort after l) = Some b ->
  forall x, In x l -> after b x = false.
Proof.
  intros Hasym Hneg. revert b.
  induction l as [| a l IH]; intros b Hb x Hx; [destruct Hx |].
  assert (Hirr : forall u, after u u = false).
  { intros u. destruct (after u u) eqn:E; [| reflexivity].
    now rewrite (Hasym u u E) in E. }
  simpl in Hb. destruct (stableSort after l) as [| y s] eqn:Es.
  - assert (l = []) as ->.
    { apply length_zero_iff_nil. rewrite <- (stableSort_length l), Es. reflexivity. }
    simpl in Hb. injection Hb as <-. destruct Hx as [<- | []]. apply Hirr.
  - specialize (IH y eq_refl). simpl in Hb.
    destruct (after a y) eqn:Hay; simpl in Hb; injection Hb as <-.
    + destruct Hx as [<- | Hx]; [now apply Hasym | now apply IH].
    + destruct Hx as [<- | Hx]; [apply Hirr |].
      destruct (after a x) eqn:Hax; [| reflexivity].
      destruct (Hneg a y x Hax) as [H | H]; [congruence |].
      rewrite (IH x Hx) in H. discriminate.
Qed.
End StableSort.

Lemma sortDesc_length {A} (key : A -> Z) (l : list A) :
  length (sortDesc key l) = length l.
Proof. apply stableSort_length. Qed.

Lemma sortDesc_In {A} (key : A -> Z) (l : list A) (x : A) :
  In x (sortDesc key l) <-> In x l.
Proof. apply stableSort_In. Qed.

(** ** Sets of values and sorted arrays *)

Lemma setOf_acc_In {A} `{EqDecision A} (l acc : list A) (x : A) :
  In x (fold_left (fun acc v => if bool_decide (v ∈ acc) then acc else acc ++ [v]) l acc)
  <-> In x acc \/ In x l.
Proof.
  revert acc. induction l as [| y l IH]; intros acc; simpl; [tauto |].
  rewrite IH. destruct (bool_decide_reflect (y ∈ acc)) as [Hy | Hy].
  - apply list_elem_of_In in Hy. intuition (subst; auto).
  - rewrite in_app_iff. simpl. intuition.
Qed.

Lemma setOf_In {A} `{EqDecision A} (l : list A) (x : A) : In x (setOf l) <-> In x l.
Proof. unfold setOf. rewrite setOf_acc_In. simpl. tauto. Qed.

Lemma setOf_acc_NoDup {A} `{EqDecision A} (l acc : list A) :
  List.NoDup acc ->
  List.NoDup (fold_left (fun acc v => if bool_decide (v ∈ acc) then acc else acc ++ [v]) l acc).
Proof.
  revert acc. induction l as [| y l IH]; intros acc Hnd; simpl; [exact Hnd |].
  apply IH. destruct (bool_decide_reflect (y ∈ acc)) as [Hy | Hy]; [exact Hnd |].
  rewrite list_elem_of_In in Hy.
  apply List.NoDup_app; [exact Hnd | repeat constructor; intros [] |].
  intros a Ha [<- | []]. contradiction.
Qed.

Lemma setOf_NoDup {A} `{EqDecision A} (l : list A) : List.NoDup (setOf l).
Proof. apply setOf_acc_NoDup. constructor. Qed.

Section SortedOutput.
Context {A : Type} (after : A -> A -> bool).
Hypothesis after_asym : forall x y, after x y = true -> after y x = false.
Hypothesis after_negtrans :
  forall x y z, after x z = true -> after x y = true \/ after y z = true.

(** In the sorted array no element has to come after a later one. *)
Lemma sortInsert_sorted (x : A) (l : list A) :
  StronglySorted (fun a b => after a b = false) l ->
  StronglySorted (fun a b => after a b = false) (sortInsert after x l).
Proof.
  induction l as [| y l IH]; intros Hs; simpl.
  - repeat constructor.
  - apply StronglySorted_inv in Hs as [Hl Hy].
    destruct (after x y) eqn:Hxy.
    + constructor; [now apply IH |].
      apply List.Forall_forall. intros z Hz. apply sortInsert_In in Hz as [-> | Hz].
      * now apply after_asym.
      * rewrite List.Forall_forall in Hy. now apply Hy.
    + constructor; [now constructor |].
      constructor; [exact Hxy |].
      apply List.Forall_forall. intros z Hz. rewrite List.Forall_forall in Hy.
      destruct (after x z) eqn:Hxz; [| reflexivity].
      destruct (after_negtrans x y z Hxz) as [H | H]; [congruence |].
      rewrite (Hy z Hz) in H. discriminate.
Qed.

Lemma stableSort_sorted (l : list A) :
  StronglySorted (fun a b => after a b = false) (stableSort after l).
Proof.
  induction l as [| x l IH]; simpl; [constructor |]. now apply sortInsert_sorted.
Qed.

Lemma sortInsert_NoDup (x : A) (l : list A) :
  ~ In x l -> List.NoDup l -> List.NoDup (sortInsert after x l).
Proof.
  induction l as [| y l IH]; intros Hx Hnd; simpl.
  - repeat constructor. intros [].
  - destruct (after x y).
    + inversion Hnd as [| ? ? Hy Hl]; subst. constructor.
      * rewrite sortInsert_In. intros [-> | H]; [apply Hx; now left | contradiction].
      * apply IH; [intros H; apply Hx; now right | exact Hl].
    + now constructor.
Qed.

Lemma stableSort_NoDup (l : list A) : List.NoDup l -> List.NoDup (stableSort after l).
Proof.
  induction l as [| x l IH]; intros Hnd; simpl; [constructor |].
  inversion Hnd; subst. apply sortInsert_NoDup; [now rewrite stableSort_In | now apply IH].
Qed.
End SortedOutput.

(** ** The head of the sorted evaluations and the ties with it *)

Section TopOfSorted.
Context {E : Type} (after tie : E -> E -> bool).
Hypothesis after_asym : forall x y, after x y = true -> after y x = false.
Hypothesis after_negtrans :
  forall x y z, after x z = true -> after x y = true \/ after y z = true.
Hypothesis tie_spec : forall e b, tie e b = negb (after e b) && negb (after b e).

(** Filtering the sorted evaluations by equality with the first score keeps
    exactly the evaluations that none outscores, in their original order. *)
Lemma ties_with_head (l : list E) (b : E) (rest : list E) :
  stableSort after l = b :: rest ->
  List.filter (fun e => tie e b) (stableSort after l)
  = List.filter (fun e => forallb (fun x => negb (after e x)) l) l.
Proof.
  intros Hs.
  assert (Hb : In b l).
  { apply (stableSort_In after). rewrite Hs. now left. }
  assert (Hmax : forall x, In x l -> after b x = false).
  { apply (stableSort_head after l b after_asym after_negtrans). now rewrite Hs. }
  rewrite stableSort_filter.
  - apply List.filter_ext_in. intros e He. rewrite tie_spec, (Hmax e He).
    destruct (forallb _ l) eqn:Hall.
    + rewrite forallb_forall in Hall. now rewrite (Hall b Hb).
    + destruct (after e b) eqn:Heb; [reflexivity |]. exfalso.
      assert (Htrue : forallb (fun x => negb (after e x)) l = true); [| congruence].
      apply forallb_forall. intros x Hx.
      destruct (after e x) eqn:Hex; [| reflexivity].
      destruct (after_negtrans e b x Hex) as [H | H]; [congruence |].
      now rewrite (Hmax x Hx) in H.
  - intros x y Hxy. rewrite !tie_spec. intros Hx.
    apply andb_prop in Hx as [Hxb Hbx].
    destruct (after_negtrans x b y Hxy) as [H | H].
    + rewrite H in Hxb. discriminate.
    + rewrite H. apply andb_false_r.
Qed.
End TopOfSorted.

Lemma forallb_pointwise {A} (f g : A -> bool) (l : list A) :
  (forall x, f x = g x) -> forallb f l = forallb g l.
Proof. intros H. induction l as [| x l IH]; simpl; [reflexivity |]. now rewrite H, IH. Qed.

Lemma forallb_map {A B} (f : A -> B) (P : B -> bool) (l : list A) :
  forallb P (map f l) = forallb (fun x => P (f x)) l.
Proof. induction l as [| x l IH]; simpl; [reflexivity |]. now rewrite IH. Qed.

(** ** Card values *)

Lemma value_bounds (c : Card) : 2 <= value c <= 14.
Proof. unfold value. destruct (rank c); simpl; lia. Qed.

Lemma includes_In {A} `{EqDecision A} (l : list A) (v : A) :
  includes l v = true <-> In v l.
Proof. unfold includes. rewrite bool_decide_eq_true. apply list_elem_of_In. Qed.

Lemma includes_ext {A} `{EqDecision A} (l l' : list A) (v : A) :
  (In v l <-> In v l') -> includes l v = includes l' v.
Proof.
  intros H. destruct (includes l' v) eqn:E.
  - apply includes_In, H, includes_In, E.
  - destruct (includes l v) eqn:E'; [| reflexivity].
    apply includes_In, H, includes_In in E'. congruence.
Qed.

Lemma uniqueValues_In (cs : list Card) (v : Z) :
  In v (sortDesc (fun v => v) (setOf (map value cs))) <-> In v (map value cs).
Proof. now rewrite sortDesc_In, setOf_In. Qed.

Lemma integerKeys_In (vs : list Z) (v : Z) : In v (integerKeys vs) <-> In v vs.
Proof. unfold integerKeys. now rewrite stableSort_In, setOf_In. Qed.

Lemma bareWheel_ext (cs cs' : list Card) :
  (forall v, In v (map value cs) <-> In v (map value cs')) ->
  bareWheel cs = bareWheel cs'.
Proof.
  intros H. unfold bareWheel. cbn zeta.
  now rewrite !(includes_ext (map value cs) (map value cs')) by apply H.
Qed.

(** Outside the bare wheel the two [isStraight] are the same function. *)
Lemma isStraight_agree (cs : list Card) :
  bareWheel cs = false -> Client.isStraight cs = Server.isStraight cs.
Proof.
  unfold bareWheel, Client.isStraight, Server.isStraight. cbn zeta.
  rewrite !(includes_ext (sortDesc (fun v => v) (setOf (map value cs))) (map value cs))
    by apply uniqueValues_In.
  destruct (scanRuns _); [reflexivity |].
  destruct (includes _ 14), (includes _ 5), (includes _ 4), (includes _ 3), (includes _ 2);
    simpl; intros; congruence.
Qed.

(** ** [evaluateHand] returns on every hand that holds a card *)

Lemma server_isFlush_five (cs fc : list Card) :
  Server.isFlush cs = Some fc -> length fc = 5%nat.
Proof.
  unfold Server.isFlush.
  destruct (List.find _ _) as [s |] eqn:Hf; [| discriminate].
  apply find_some in Hf as [_ Hc]. apply Nat.leb_le in Hc.
  intros H. injection H as <-. rewrite length_take. lia.
Qed.

Lemma client_isFlush_eq (cs : list Card) : Client.isFlush cs = Server.isFlush cs.
Proof. unfold Client.isFlush, Server.isFlush. now destruct (List.find _ _). Qed.

Lemma server_evaluateHand_returns (hole board : list Card) :
  hole ++ board <> [] -> exists ev, Server.evaluateHand hole board = Some ev.
Proof.
  intros Hne. unfold Server.evaluateHand.
  set (cards := sortDesc value (hole ++ board)).
  assert (Hcards : cards <> []).
  { intros E. apply Hne, length_zero_iff_nil.
    rewrite <- (sortDesc_length value). fold cards. now rewrite E. }
  destruct (Server.isFlush cards) as [fc |] eqn:Hfl.
  - apply server_isFlush_five in Hfl. destruct fc as [| c fc]; [discriminate |].
    repeat match goal with
           | |- context [if ?c then _ else _] => destruct c
           | |- context [match ?q with Some _ => _ | None => _ end] => destruct q
           end; eauto.
  - destruct cards as [| c cards']; [contradiction |].
    repeat match goal with
           | |- context [if ?c then _ else _] => destruct c
           | |- context [match ?q with Some _ => _ | None => _ end] => destruct q
           end; eauto.
Qed.

Lemma client_evaluateHand_returns (hole board : list Card) :
  hole ++ board <> [] -> exists ev, Client.evaluateHand hole board = Some ev.
Proof.
  intros Hne. unfold Client.evaluateHand.
  set (cards := sortDesc value (hole ++ board)).
  assert (Hcards : cards <> []).
  { intros E. apply Hne, length_zero_iff_nil.
    rewrite <- (sortDesc_length value). fold cards. now rewrite E. }
  rewrite client_isFlush_eq.
  destruct (Server.isFlush cards) as [fc |] eqn:Hfl.
  - apply server_isFlush_five in Hfl. destruct fc as [| c fc]; [discriminate |].
    repeat match goal with
           | |- context [if ?c then _ else _] => destruct c
           | |- context [match ?q with Some _ => _ | None => _ end] => destruct q
           end; eauto.
  - destruct cards as [| c cards']; [contradiction |].
    repeat match goal with
           | |- context [if ?c then _ else _] => destruct c
           | |- context [match ?q with Some _ => _ | None => _ end] => destruct q
           end; eauto.
Qed.

(** ** The five flush cards *)

Lemma sortDesc_sorted {A} (key : A -> Z) (l : list A) :
  StronglySorted (fun a b => key b <= key a) (sortDesc key l).
Proof.
  unfold sortDesc.
  eapply StronglySorted_ind
    with (P := StronglySorted (fun a b => key b <= key a));
    [constructor | | apply (stableSort_sorted (fun a b => 0 <? key b - key a))].
  - intros a l' _ IH Hall. constructor; [exact IH |].
    eapply List.Forall_impl; [| exact Hall]. intros b Hb. cbn in Hb. lia.
  - intros x y. lia.
  - intros x y z. lia.
Qed.

Lemma StronglySorted_filter {A} (R : A -> A -> Prop) (P : A -> bool) (l : list A) :
  StronglySorted R l -> StronglySorted R (List.filter P l).
Proof.
  induction 1 as [| a l Hs IH Hall]; simpl; [constructor |].
  destruct (P a); [| exact IH]. constructor; [exact IH |].
  rewrite List.Forall_forall in *. intros x Hx. apply Hall.
  now apply filter_In in Hx.
Qed.

Lemma StronglySorted_app_inv {A} (R : A -> A -> Prop) (l1 l2 : list A) (a b : A) :
  StronglySorted R (l1 ++ l2) -> In a l1 -> In b l2 -> R a b.
Proof.
  induction l1 as [| x l1 IH]; intros Hs Ha Hb; [destruct Ha |].
  simpl in Hs. apply StronglySorted_inv in Hs as [Hs Hall].
  destruct Ha as [-> | Ha]; [| now apply IH].
  rewrite List.Forall_forall in Hall. apply Hall, in_or_app. now right.
Qed.

(** A bare wheel among the five flush cards is a bare wheel of the suit. *)
Lemma flush_bareWheel (input : list Card) (s : Suit) :
  bareWheel
    (take 5 (List.filter (fun c => bool_decide (suit c = s)) (sortDesc value input))) = true ->
  bareWheel (List.filter (fun c => bool_decide (suit c = s)) input) = true.
Proof.
  set (F := List.filter _ (sortDesc value input)).
  set (G := List.filter _ input).
  assert (HFG : forall v, In v (map value F) <-> In v (map value G)).
  { intros v. unfold F, G. rewrite !in_map_iff.
    split; intros (c & Hv & Hc); exists c; split; auto;
      apply filter_In in Hc as [Hc Hs]; apply filter_In; split; auto;
      now apply (sortDesc_In value). }
  assert (Hsorted : StronglySorted (fun a b => value b <= value a) (take 5 F ++ drop 5 F)).
  { rewrite take_drop. apply StronglySorted_filter, sortDesc_sorted. }
  assert (Htake : forall v, In v (map value (take 5 F)) -> In v (map value G)).
  { intros v Hv. apply HFG. rewrite <- (take_drop 5 F), map_app, in_app_iff. now left. }
  assert (Hlow : forall v, In 2 (map value (take 5 F)) -> 2 < v ->
                           In v (map value G) -> In v (map value (take 5 F))).
  { intros v H2 Hv Hin. apply HFG in Hin.
    rewrite <- (take_drop 5 F), map_app, in_app_iff in Hin.
    destruct Hin as [Hin | Hin]; [exact Hin | exfalso].
    apply in_map_iff in H2 as (c2 & E2 & H2). apply in_map_iff in Hin as (cv & Ev & Hin).
    pose proof (StronglySorted_app_inv _ _ _ _ _ Hsorted H2 Hin) as Hle. cbn in Hle. lia. }
  unfold bareWheel. cbn zeta. rewrite !andb_true_iff, negb_true_iff, andb_false_iff.
  rewrite !includes_In. intros [[[H14 H5] H2] Hnot].
  repeat split; auto.
  apply negb_true_iff, andb_false_iff.
  destruct (includes (map value G) 4) eqn:E4; [| now left].
  destruct (includes (map value G) 3) eqn:E3; [| now right].
  apply includes_In in E4, E3.
  apply (Hlow 4 H2 ltac:(lia)) in E4. apply (Hlow 3 H2 ltac:(lia)) in E3.
  apply includes_In in E4, E3. destruct Hnot; congruence.
Qed.

(** ** The client's straight, in general *)

Lemma strictly_descending (l : list Z) :
  StronglySorted (fun a b => b <= a) l -> List.NoDup l ->
  StronglySorted (fun a b => b < a) l.
Proof.
  induction 1 as [| a l Hs IH Hall]; intros Hnd; [constructor |].
  inversion Hnd as [| ? ? Hnot Hnd']; subst.
  constructor; [now apply IH |].
  rewrite List.Forall_forall in *. intros b Hb.
  assert (b <> a) by (intros ->; contradiction).
  specialize (Hall b Hb). lia.
Qed.

Lemma uniqueValues_descending (cs : list Card) :
  StronglySorted (fun a b => b < a) (sortDesc (fun v => v) (setOf (map value cs))).
Proof.
  apply strictly_descending; [apply (sortDesc_sorted (fun v => v)) |].
  apply stableSort_NoDup, setOf_NoDup.
Qed.

(** Below the head of a strictly descending array, its predecessor can only
    be the next element. *)
Lemma descending_next (a : Z) (rest : list Z) :
  StronglySorted (fun x y => y < x) (a :: rest) ->
  In (a - 1) rest -> exists tl, rest = (a - 1) :: tl.
Proof.
  intros Hs Hin. apply StronglySorted_inv in Hs as [Hrest Hall].
  destruct rest as [| b tl]; [destruct Hin |].
  exists tl. f_equal.
  rewrite List.Forall_forall in Hall. pose proof (Hall b (or_introl eq_refl)).
  destruct Hin as [E | Hin]; [lia |].
  apply StronglySorted_inv in Hrest as [_ Hb]. rewrite List.Forall_forall in Hb.
  specialize (Hb _ Hin). lia.
Qed.

Lemma run_at_head (a : Z) (rest : list Z) :
  StronglySorted (fun x y => y < x) (a :: rest) ->
  runIn (a :: rest) a ->
  exists tl, rest = (a - 1) :: (a - 2) :: (a - 3) :: (a - 4) :: tl.
Proof.
  intros Hs Hrun.
  assert (Hin : forall k, 1 <= k < 5 -> In (a - k) rest).
  { intros k Hk. destruct (Hrun k ltac:(lia)) as [E | H]; [lia | exact H]. }
  destruct (descending_next a rest Hs (Hin 1 ltac:(lia))) as [t1 ->].
  apply StronglySorted_inv in Hs as [Hs1 _].
  assert (H2 : In (a - 1 - 1) t1).
  { destruct (Hin 2 ltac:(lia)) as [E | H]; [lia |]. now replace (a - 1 - 1) with (a - 2) by lia. }
  destruct (descending_next (a - 1) t1 Hs1 H2) as [t2 ->].
  apply StronglySorted_inv in Hs1 as [Hs2 _].
  assert (H3 : In (a - 1 - 1 - 1) t2).
  { destruct (Hin 3 ltac:(lia)) as [E | [E | H]]; [lia | lia |].
    now replace (a - 1 - 1 - 1) with (a - 3) by lia. }
  destruct (descending_next (a - 1 - 1) t2 Hs2 H3) as [t3 ->].
  apply StronglySorted_inv in Hs2 as [Hs3 _].
  assert (H4 : In (a - 1 - 1 - 1 - 1) t3).
  { destruct (Hin 4 ltac:(lia)) as [E | [E | [E | H]]]; [lia | lia | lia |].
    now replace (a - 1 - 1 - 1 - 1) with (a - 4) by lia. }
  destruct (descending_next (a - 1 - 1 - 1) t3 Hs3 H4) as [t4 ->].
  exists t4.
  replace (a - 1 - 1 - 1 - 1) with (a - 4) by lia.
  replace (a - 1 - 1 - 1) with (a - 3) by lia.
  replace (a - 1 - 1) with (a - 2) by lia. reflexivity.
Qed.

Lemma run_below_head (a : Z) (rest : list Z) (h : Z) :
  StronglySorted (fun x y => y < x) (a :: rest) ->
  runIn (a :: rest) h -> h <> a -> h < a /\ runIn rest h.
Proof.
  intros Hs Hrun Hne. apply StronglySorted_inv in Hs as [_ Hall].
  rewrite List.Forall_forall in Hall.
  assert (Hlt : h < a).
  { destruct (Hrun 0 ltac:(lia)) as [E | H]; [lia |]. apply Hall in H. lia. }
  split; [exact Hlt |]. intros k Hk.
  destruct (Hrun k Hk) as [E | H]; [lia | exact H].
Qed.

(** The scan returns the highest top of a run, and nothing when there is no
    run. *)
Lemma scanRuns_spec (u : list Z) :
  StronglySorted (fun x y => y < x) u ->
  match scanRuns u with
  | Some hi => runIn u hi /\ forall h, runIn u h -> h <= hi
  | None => forall h, ~ runIn u h
  end.
Proof.
  induction u as [| a rest IH]; intros Hs.
  - simpl. intros h Hrun. exact (Hrun 0 ltac:(lia)).
  - pose proof Hs as Hs0. apply StronglySorted_inv in Hs0 as [Hrest Hall].
    rewrite List.Forall_forall in Hall. specialize (IH Hrest).
    assert (Hmax : forall h, runIn (a :: rest) h -> h <= a).
    { intros h Hrun. destruct (Hrun 0 ltac:(lia)) as [E | H]; [lia |].
      apply Hall in H. lia. }
    assert (Hskip : (forall lo, rest !! 3%nat = Some lo -> a - lo <> 4) ->
                    forall h, runIn (a :: rest) h -> runIn rest h).
    { intros Hno h Hrun. destruct (Z.eq_dec h a) as [-> | Hne].
      - destruct (run_at_head a rest Hs Hrun) as [tl ->].
        exfalso. apply (Hno (a - 4)); [reflexivity | lia].
      - now apply (run_below_head a rest h Hs). }
    simpl. destruct (rest !! 3%nat) as [lo |] eqn:Hlo.
    + destruct (Z.eqb_spec (a - lo) 4) as [E | E].
      * split; [| exact Hmax].
        destruct rest as [| b [| c [| d [| e tl]]]]; try discriminate.
        injection Hlo as ->.
        apply StronglySorted_inv in Hrest as [Hr1 Hb]. rewrite List.Forall_forall in Hb.
        apply StronglySorted_inv in Hr1 as [Hr2 Hc]. rewrite List.Forall_forall in Hc.
        apply StronglySorted_inv in Hr2 as [Hr3 Hd]. rewrite List.Forall_forall in Hd.
        pose proof (Hall b ltac:(simpl; auto)).
        pose proof (Hb c ltac:(simpl; auto)).
        pose proof (Hc d ltac:(simpl; auto)).
        pose proof (Hd lo ltac:(simpl; auto)).
        intros k Hk.
        assert (Hc5 : k = 0 \/ k = 1 \/ k = 2 \/ k = 3 \/ k = 4) by lia.
        destruct Hc5 as [-> | [-> | [-> | [-> | ->]]]]; simpl.
        -- left; lia.
        -- right; left; lia.
        -- right; right; left; lia.
        -- right; right; right; left; lia.
        -- right; right; right; right; left; lia.
      * assert (Hno : forall lo', Some lo = Some lo' -> a - lo' <> 4)
          by (intros lo' H; injection H as <-; exact E).
        destruct (scanRuns rest) as [hi |].
        -- destruct IH as [Hrun Hhi]. split.
           ++ intros k Hk. right. now apply Hrun.
           ++ intros h Hh. apply Hhi. now apply Hskip.
        -- intros h Hh. apply (IH h). now apply Hskip.
    + intros h Hh. destruct (Z.eq_dec h a) as [-> | Hne].
      * destruct (run_at_head a rest Hs Hh) as [tl ->]. discriminate.
      * destruct (run_below_head a rest h Hs Hh Hne) as [_ Hrun].
        destruct rest as [| b [| c [| d [| e tl]]]]; try discriminate.
        -- exact (Hrun 0 ltac:(lia)).
        -- pose proof (Hrun 0 ltac:(lia)) as H0. pose proof (Hrun 1 ltac:(lia)) as H1.
           simpl in H0, H1. lia.
        -- pose proof (Hrun 0 ltac:(lia)) as H0. pose proof (Hrun 1 ltac:(lia)) as H1.
           pose proof (Hrun 2 ltac:(lia)) as H2. simpl in H0, H1, H2. lia.
        -- pose proof (Hrun 0 ltac:(lia)) as H0. pose proof (Hrun 1 ltac:(lia)) as H1.
           pose proof (Hrun 2 ltac:(lia)) as H2. pose proof (Hrun 3 ltac:(lia)) as H3.
           simpl in H0, H1, H2, H3. lia.
Qed.

Lemma holdsRun_ext (cs cs' : list Card) (hi : Z) :
  (forall c, In c cs <-> In c cs') -> holdsRun cs hi <-> holdsRun cs' hi.
Proof.
  intros H. unfold holdsRun.
  split; intros Hr k Hk; destruct (Hr k Hk) as (c & Hc & Hv); exists c; split; auto;
    now apply H.
Qed.

Lemma holdsRun_low (cs : list Card) (hi : Z) : holdsRun cs hi -> 5 <= hi.
Proof.
  intros H. destruct (H 4 ltac:(lia)) as (c & _ & Hv).
  pose proof (value_bounds c). lia.
Qed.

Lemma holdsRun_natural (cs : list Card) (hi : Z) :
  6 <= hi -> holdsRun cs hi <-> runIn (map value cs) hi.
Proof.
  intros Hhi. split; intros H k Hk.
  - destruct (H k Hk) as (c & Hc & [Hv | [_ Hv]]); [| lia].
    rewrite <- Hv. now apply in_map.
  - pose proof (H k Hk) as Hin. apply in_map_iff in Hin as (c & Hv & Hc). exists c. auto.
Qed.

Lemma holdsRun_wheel (cs : list Card) :
  holdsRun cs 5 <->
  In 14 (map value cs) /\ In 5 (map value cs) /\ In 4 (map value cs)
  /\ In 3 (map value cs) /\ In 2 (map value cs).
Proof.
  split.
  - intros H.
    destruct (H 0 ltac:(lia)) as (c0 & Hc0 & Hv0).
    destruct (H 1 ltac:(lia)) as (c1 & Hc1 & Hv1).
    destruct (H 2 ltac:(lia)) as (c2 & Hc2 & Hv2).
    destruct (H 3 ltac:(lia)) as (c3 & Hc3 & Hv3).
    destruct (H 4 ltac:(lia)) as (c4 & Hc4 & Hv4).
    pose proof (value_bounds c4).
    repeat split; rewrite in_map_iff;
      [exists c4 | exists c0 | exists c1 | exists c2 | exists c3]; split; auto; lia.
  - intros (H14 & H5 & H4 & H3 & H2) k Hk.
    assert (Hc : k = 0 \/ k = 1 \/ k = 2 \/ k = 3 \/ k = 4) by lia.
    rewrite in_map_iff in H14, H5, H4, H3, H2.
    destruct H14 as (c14 & ? & ?), H5 as (c5 & ? & ?), H4 as (c4 & ? & ?),
      H3 as (c3 & ? & ?), H2 as (c2 & ? & ?).
    destruct Hc as [-> | [-> | [-> | [-> | ->]]]];
      [exists c5 | exists c4 | exists c3 | exists c2 | exists c14]; split; auto; lia.
Qed.

(** The client's [isStraight] returns the highest top of five consecutive
    values, the ace counting low as well, and nothing when there are none. *)
Lemma client_isStraight_spec (cs : list Card) :
  match Client.isStraight cs with
  | Some hi => holdsRun cs hi /\ forall h, holdsRun cs h -> h <= hi
  | None => forall h, ~ holdsRun cs h
  end.
Proof.
  unfold Client.isStraight. cbn zeta.
  set (u := sortDesc (fun v => v) (setOf (map value cs))).
  assert (Hu : forall h, runIn u h <-> runIn (map value cs) h).
  { intros h. unfold runIn. split; intros H k Hk; apply uniqueValues_In, H, Hk. }
  pose proof (scanRuns_spec u (uniqueValues_descending cs)) as Hscan.
  destruct (scanRuns u) as [hi |].
  - destruct Hscan as [Hrun Hmax]. apply Hu in Hrun.
    assert (6 <= hi).
    { pose proof (Hrun 4 ltac:(lia)) as Hin. apply in_map_iff in Hin as (c & Hv & _).
      pose proof (value_bounds c). lia. }
    split; [now apply holdsRun_natural |].
    intros h Hh. pose proof (holdsRun_low _ _ Hh).
    destruct (Z_lt_le_dec h 6) as [Hlt | Hge]; [lia |].
    apply Hmax, Hu. now apply holdsRun_natural.
  - assert (Hnat : forall h, holdsRun cs h -> h = 5).
    { intros h Hh. pose proof (holdsRun_low _ _ Hh).
      destruct (Z_lt_le_dec h 6) as [Hlt | Hge]; [lia |].
      exfalso. apply (Hscan h), Hu. now apply holdsRun_natural. }
    rewrite !(includes_ext u (map value cs)) by apply uniqueValues_In.
    destruct (includes _ 14) eqn:E14, (includes _ 5) eqn:E5, (includes _ 4) eqn:E4,
      (includes _ 3) eqn:E3, (includes _ 2) eqn:E2; cbn [andb].
    1:{ split; [| intros h Hh; rewrite (Hnat h Hh); lia].
        apply holdsRun_wheel. rewrite <- !includes_In. auto. }
    all: intros h Hh; pose proof (Hnat h Hh) as ->;
      apply holdsRun_wheel in Hh; rewrite <- !includes_In in Hh;
      destruct Hh as (? & ? & ? & ? & ?); congruence.
Qed.

(** X17. The client's straight: when no higher category applies,
    [evaluateHand] answers Straight exactly when the hand holds five
    consecutive values, the wheel included, and the score is 5,000,000 plus
    the highest top of such a run. *)
Lemma client_straight_rung (hole board : list Card) (ev : Client.HandEval) :
  Client.evaluateHand hole board = Some ev ->
  ~ In (Client.name ev) ["Straight Flush"; "Four of a Kind"; "Full House"; "Flush"] ->
  (Client.name ev = "Straight" <-> exists hi, holdsRun (hole ++ board) hi)
  /\ (Client.name ev = "Straight" ->
      exists hi, holdsRun (hole ++ board) hi
                 /\ (forall h, holdsRun (hole ++ board) h -> h <= hi)
                 /\ Client.score ev = inject_Z (5000000 + hi)).
Proof.
  unfold Client.evaluateHand.
  set (cards := sortDesc value (hole ++ board)).
  assert (Hext : forall h, holdsRun cards h <-> holdsRun (hole ++ board) h).
  { intros h. apply holdsRun_ext. intros c. apply (sortDesc_In value). }
  pose proof (client_isStraight_spec cards) as Hspec.
  destruct (truthy (match Client.isFlush cards with
                    | Some fc => Client.isStraight fc
                    | None => None
                    end)).
  { intros H; injection H as <-. cbn. tauto. }
  destruct (List.find _ _).
  { intros H; injection H as <-. cbn. tauto. }
  destruct (_ && _).
  { intros H; injection H as <-. cbn. tauto. }
  destruct (Client.isFlush cards) as [[| c0 fc] |]; [discriminate | |].
  { intros H; injection H as <-. cbn. tauto. }
  destruct (Client.isStraight cards) as [hi |] eqn:Hst.
  - destruct Hspec as [Hrun Hmax].
    pose proof (holdsRun_low _ _ Hrun) as Hlow.
    assert (Ht : truthy (Some hi) = true).
    { cbn. destruct (Z.eqb_spec hi 0); [lia | reflexivity]. }
    rewrite Ht. intros H; injection H as <-. intros _. cbn.
    split; [split; [intros _ | reflexivity] |].
    + exists hi. now apply Hext.
    + intros _. exists hi. split; [now apply Hext |]. split; [| reflexivity].
      intros h Hh. now apply Hmax, Hext.
  - cbn [truthy].
    assert (Hnone : ~ exists hi, holdsRun (hole ++ board) hi).
    { intros (hi & Hh). apply (Hspec hi). now apply Hext. }
    repeat match goal with
           | |- context [if ?c then _ else _] => destruct c
           end.
    4: destruct cards; [discriminate |].
    all: intros H; injection H as <-; intros _; cbn;
      split; [split; [discriminate | intros; contradiction] | discriminate].
Qed.

(** ** The two evaluators side by side *)

Lemma scanRuns_In (u : list Z) (hi : Z) : scanRuns u = Some hi -> In hi u.
Proof.
  induction u as [| a u IH]; simpl; [discriminate |].
  destruct (u !! 3%nat) as [lo |]; [| discriminate].
  destruct (a - lo =? 4); intros H; [injection H as ->; now left | right; auto].
Qed.

Lemma server_isStraight_bounds (cs : list Card) (hi : Z) :
  Server.isStraight cs = Some hi -> 2 <= hi <= 14.
Proof.
  unfold Server.isStraight. cbn zeta. destruct (scanRuns _) as [h |] eqn:Hs.
  - intros H; injection H as <-. apply scanRuns_In in Hs. rewrite uniqueValues_In in Hs.
    apply in_map_iff in Hs as (c & <- & _). apply value_bounds.
  - destruct (_ && _); intros H; [injection H as <-; lia | discriminate].
Qed.

Lemma find_value_bounds (P : Z -> bool) (q : Z) (cs : list Card) :
  List.find P (integerKeys (map value cs)) = Some q -> 2 <= q <= 14.
Proof.
  intros H. apply find_some in H as [H _]. rewrite integerKeys_In in H.
  apply in_map_iff in H as (c & <- & _). apply value_bounds.
Qed.

Lemma ranks_value_bounds (P : Z -> bool) (cs : list Card) (i : nat) :
  0 <= default 0 (sortDesc (fun v => v) (List.filter P (integerKeys (map value cs))) !! i) <= 14.
Proof.
  destruct (_ !! i) as [v |] eqn:E; simpl; [| lia].
  apply list_elem_of_lookup_2 in E. rewrite list_elem_of_In, sortDesc_In, filter_In in E.
  destruct E as [E _]. rewrite integerKeys_In in E.
  apply in_map_iff in E as (c & <- & _).
  pose proof (value_bounds c). lia.
Qed.

Lemma valueOr0_bounds (o : option Card) : 0 <= Client.valueOr0 o <= 14.
Proof. destruct o as [c |]; simpl; [pose proof (value_bounds c) |]; lia. Qed.

Lemma band_of_bounds (q : Q) (k : Z) :
  (inject_Z (k * 1000000) <= q)%Q -> (q < inject_Z ((k + 1) * 1000000))%Q ->
  Qfloor q / 1000000 = k.
Proof.
  intros Hlo Hhi.
  assert (H1 : k * 1000000 <= Qfloor q).
  { rewrite <- (Qfloor_Z (k * 1000000)). now apply Qfloor_resp_le. }
  assert (H2 : Qfloor q < (k + 1) * 1000000).
  { rewrite Zlt_Qlt. eapply Qle_lt_trans; [apply Qfloor_le | exact Hhi]. }
  symmetry. apply (Z.div_unique _ _ k (Qfloor q - k * 1000000)); lia.
Qed.

Lemma band_of_integer (z k : Z) :
  k * 1000000 <= z < (k + 1) * 1000000 -> Qfloor (inject_Z z) / 1000000 = k.
Proof.
  intros H. rewrite Qfloor_Z. symmetry.
  apply (Z.div_unique _ _ k (z - k * 1000000)); lia.
Qed.

Lemma band_of_Z (z k : Z) :
  k * 1000000 <= z < (k + 1) * 1000000 -> z / 1000000 = k.
Proof. intros H. symmetry. apply (Z.div_unique _ _ k (z - k * 1000000)); lia. Qed.

Lemma kickerReduce_bounds (ks : list Card) :
  (length ks <= 3)%nat -> (0 <= Client.kickerReduce 0 ks 0 /\ Client.kickerReduce 0 ks 0 < 16)%Q.
Proof.
  assert (Hv : forall c, (2 <= inject_Z (value c) /\ inject_Z (value c) <= 14)%Q).
  { intros c. pose proof (value_bounds c) as [H1 H2].
    split; [rewrite <- (Zle_Qle 2) | rewrite <- (Zle_Qle _ 14)]; assumption. }
  destruct ks as [| c0 [| c1 [| c2 [| c3 ks]]]]; simpl; intros Hlen; try lia.
  - lra.
  - pose proof (Hv c0). cbn. lra.
  - pose proof (Hv c0). pose proof (Hv c1). cbn. lra.
  - pose proof (Hv c0). pose proof (Hv c1). pose proof (Hv c2). cbn. lra.
Qed.

Ltac not_kickerFree :=
  let Hk := fresh "Hk" in
  unfold kickerFree; cbn; intros Hk;
  repeat (destruct Hk as [Hk | Hk]; [discriminate Hk |]); destruct Hk.

(** One rung on which the two ladders stop together: same name, same
    million band, and same score where the rung has no kickers. *)
Ltac agree_on_rung :=
  do 2 eexists; do 3 (split; [reflexivity |]);
  cbn [Client.score Server.score Client.name Server.name];
  repeat match goal with
         | |- context [Client.valueOr0 ?o] =>
             pose proof (valueOr0_bounds o);
             let x := fresh "kicker" in set (x := Client.valueOr0 o) in *; clearbody x
         end;
  split;
  [ first
      [ rewrite (band_of_integer _ 9), (band_of_Z _ 9) by lia; reflexivity
      | rewrite (band_of_integer _ 8), (band_of_Z _ 8) by lia; reflexivity
      | rewrite (band_of_integer _ 7), (band_of_Z _ 7) by lia; reflexivity
      | rewrite (band_of_integer _ 6), (band_of_Z _ 6) by lia; reflexivity
      | rewrite (band_of_integer _ 5), (band_of_Z _ 5) by lia; reflexivity
      | rewrite (band_of_integer _ 4), (band_of_Z _ 4) by lia; reflexivity
      | rewrite (band_of_integer _ 3), (band_of_Z _ 3) by lia; reflexivity
      | rewrite (band_of_integer _ 1), (band_of_Z _ 1) by lia; reflexivity ]
  | first
      [ intros _; reflexivity
      | not_kickerFree ] ].

(** X18. What the two copies share.  For two hole cards and any board in which
    neither the whole hand nor the cards of any one suit hold an ace, a five
    and a deuce without both a four and a three, the client's and the
    server's [evaluateHand] both return, with the same category name and
    with scores in the same band of a million; the scores are equal in the
    categories without kickers: Straight Flush, Flush, Straight and High
    Card.  (Hands with such an ace, five and deuce may agree as well; the
    server's ace-low test is the subject of the section on straights.) *)
Theorem evaluators_agree_up_to_kickers (hole board : list Card) :
  length hole = 2%nat ->
  bareWheel (hole ++ board) = false ->
  (forall s, bareWheel (List.filter (fun c => bool_decide (suit c = s)) (hole ++ board)) = false) ->
  exists c s,
    Client.evaluateHand hole board = Some c
    /\ Server.evaluateHand hole board = Some s
    /\ Client.name c = Server.name s
    /\ Qfloor (Client.score c) / 1000000 = Server.score s / 1000000
    /\ (kickerFree (Server.name s) -> Client.score c = inject_Z (Server.score s)).
Proof.
  intros Hlen Hall Hsuit.
  set (cards := sortDesc value (hole ++ board)).
  assert (Hcards : bareWheel cards = false).
  { rewrite <- Hall. apply bareWheel_ext. intros v. unfold cards.
    rewrite !in_map_iff. split; intros (c & Hv & Hc); exists c; split; auto;
      now apply (sortDesc_In value). }
  assert (Hflush : forall fc, Server.isFlush cards = Some fc ->
                              Client.isStraight fc = Server.isStraight fc).
  { intros fc. unfold Server.isFlush.
    destruct (List.find _ _) as [s |]; [| discriminate].
    intros H; injection H as <-. apply isStraight_agree.
    destruct (bareWheel (take 5 _)) eqn:E; [| reflexivity].
    apply flush_bareWheel in E. now rewrite Hsuit in E. }
  assert (Hne : cards <> []).
  { intros E. apply (f_equal length) in E. unfold cards in E.
    rewrite sortDesc_length, length_app, Hlen in E. discriminate. }
  unfold Client.evaluateHand, Server.evaluateHand. fold cards.
  rewrite client_isFlush_eq, (isStraight_agree cards Hcards). unfold Client.countRanks.
  pose proof (ranks_value_bounds
                (fun r => Nat.eqb (length (List.filter (fun c0 => value c0 =? r) cards)) 3)
                cards 0) as Ht0.
  pose proof (ranks_value_bounds
                (fun r => Nat.eqb (length (List.filter (fun c0 => value c0 =? r) cards)) 3)
                cards 1) as Ht1.
  pose proof (ranks_value_bounds
                (fun r => Nat.eqb (length (List.filter (fun c0 => value c0 =? r) cards)) 2)
                cards 0) as Hp0.
  pose proof (ranks_value_bounds
                (fun r => Nat.eqb (length (List.filter (fun c0 => value c0 =? r) cards)) 2)
                cards 1) as Hp1.
  cbv beta in Ht0, Ht1, Hp0, Hp1.
  set (keys := integerKeys (map value cards)) in *.
  set (trips := sortDesc (fun v => v)
                  (List.filter
                     (fun r => Nat.eqb (length (List.filter (fun c0 => value c0 =? r) cards)) 3)
                     keys)) in *.
  set (pairs := sortDesc (fun v => v)
                  (List.filter
                     (fun r => Nat.eqb (length (List.filter (fun c0 => value c0 =? r) cards)) 2)
                     keys)) in *.
  assert (Hstr : forall cs, 0 <= default 0 (Server.isStraight cs) <= 14).
  { intros cs. destruct (Server.isStraight cs) as [h |] eqn:E; simpl; [| lia].
    apply server_isStraight_bounds in E. lia. }
  destruct (Server.isFlush cards) as [fc |] eqn:Hfl.
  - rewrite (Hflush fc eq_refl). pose proof (Hstr fc).
    apply server_isFlush_five in Hfl. destruct fc as [| c0 fc]; [discriminate |].
    pose proof (value_bounds c0).
    destruct (truthy (Server.isStraight (c0 :: fc))); [agree_on_rung |].
    destruct (List.find _ keys) as [q |] eqn:Hq;
      [apply find_value_bounds in Hq; agree_on_rung |].
    destruct (_ && _); [destruct (2 <=? length trips)%nat |]; agree_on_rung.
  - change (truthy None) with false. cbv iota.
    pose proof (Hstr cards).
    destruct cards as [| c0 cards']; [contradiction |].
    pose proof (value_bounds c0).
    destruct (List.find _ keys) as [q |] eqn:Hq;
      [apply find_value_bounds in Hq; agree_on_rung |].
    destruct (_ && _); [destruct (2 <=? length trips)%nat; agree_on_rung |].
    destruct (truthy _); [agree_on_rung |].
    destruct (0 <? length trips)%nat; [agree_on_rung |].
    destruct (2 <=? length pairs)%nat; [agree_on_rung |].
    destruct (0 <? length pairs)%nat; [| agree_on_rung].
    do 2 eexists. do 3 (split; [reflexivity |]). split.
    + cbn [Client.score Server.score].
      match goal with
      | |- context [Client.kickerReduce 0 ?ks 0%Q] =>
          destruct (kickerReduce_bounds ks) as [Hk0 Hk16];
          [rewrite length_take; lia |]
      end.
      rewrite (band_of_Z (2000000 + default 0 (pairs !! 0%nat)) 2) by lia.
      apply band_of_bounds.
      * assert (inject_Z (2 * 1000000)
                <= inject_Z (2000000 + default 0%Z (pairs !! 0%nat) * 100))%Q
          by (rewrite <- Zle_Qle; lia).
        lra.
      * assert (inject_Z (2000000 + default 0%Z (pairs !! 0%nat) * 100)
                <= inject_Z 2001400)%Q
          by (rewrite <- Zle_Qle; lia).
        assert (inject_Z 2001400 + 16 <= inject_Z ((2 + 1) * 1000000))%Q
          by (unfold Qle; simpl; lia).
        lra.
    + not_kickerFree.
Qed.

Lemma evaluators_agree_up_to_kickers_witness :
  exists c s,
    Client.evaluateHand fourKingsHole fourKingsBoard = Some c
    /\ Server.evaluateHand fourKingsHole fourKingsBoard = Some s
    /\ Client.name c = Server.name s
    /\ Qfloor (Client.score c) / 1000000 = Server.score s / 1000000
    /\ (kickerFree (Server.name s) -> Client.score c = inject_Z (Server.score s)).
Proof.
  apply (evaluators_agree_up_to_kickers fourKingsHole fourKingsBoard).
  - reflexivity.
  - reflexivity.
  - intros []; reflexivity.
Defined.

(** C1. The server's evaluator is not the client's: within a category it
    scores the leading rank alone, where the client adds the second rank and
    the kickers.  Four kings with a four score 8001304 on the client and
    8000013 on the server.  On a board with two aces, kings in the hole
    (aces and kings) beat deuces in the hole (aces and deuces) on the
    client, 3014139 against 3014029, and tie with them on the server, at
    3000014 each. *)
Theorem server_evaluator_drops_kickers :
  (exists c s,
     Client.evaluateHand fourKingsHole fourKingsBoard = Some c
     /\ Server.evaluateHand fourKingsHole fourKingsBoard = Some s
     /\ Client.name c = "Four of a Kind" /\ Server.name s = "Four of a Kind"
     /\ Client.score c = inject_Z 8001304
     /\ Server.score s = 8000013
     /\ ~ (Client.score c == inject_Z (Server.score s))%Q)
  /\ (exists ck cd sk sd,
         Client.evaluateHand kingsHole pairedBoard = Some ck
         /\ Client.evaluateHand deucesHole pairedBoard = Some cd
         /\ Server.evaluateHand kingsHole pairedBoard = Some sk
         /\ Server.evaluateHand deucesHole pairedBoard = Some sd
         /\ Client.name ck = "Two Pair" /\ Client.name cd = "Two Pair"
         /\ Server.name sk = "Two Pair" /\ Server.name sd = "Two Pair"
         /\ Client.score ck = inject_Z 3014139
         /\ Client.score cd = inject_Z 3014029
         /\ Server.score sk = 3000014
         /\ Server.score sd = 3000014).
Proof.
  split.
  - do 2 eexists. split; [vm_compute; reflexivity |]. split; [vm_compute; reflexivity |].
    repeat (split; [reflexivity |]). vm_compute. discriminate.
  - do 4 eexists. do 4 (split; [vm_compute; reflexivity |]). repeat split.
Qed.

(** ** Straights *)

(** C2. The server on ace, five, deuce, nine, eight of mixed suits: no five
    values in a row, ace-low or not, and no higher category, yet
    [evaluateHand] answers Straight with 5,000,005, because its ace-low test
    asks for the ace, the five and the deuce only.  The claim allows a
    Straight only on five consecutive values.  The client answers High
    Card. *)
Theorem server_straight_without_run :
  (forall hi, ~ holdsRun (looseWheelHole ++ looseWheelBoard) hi)
  /\ Server.evaluateHand looseWheelHole looseWheelBoard
     = Some (Server.mkEval 5000005 "Straight")
  /\ Client.evaluateHand looseWheelHole looseWheelBoard
     = Some (Client.mkEval (inject_Z 1000014) "High Card").
Proof.
  split; [| split; vm_compute; reflexivity].
  intros hi Hrun.
  destruct (Hrun 0 ltac:(lia)) as (c0 & Hc0 & Hv0).
  destruct (Hrun 1 ltac:(lia)) as (c1 & Hc1 & Hv1).
  destruct (Hrun 2 ltac:(lia)) as (c2 & Hc2 & Hv2).
  simpl in Hc0, Hc1, Hc2.
  repeat match goal with
         | H : _ \/ _ |- _ => destruct H
         | H : False |- _ => destruct H
         | H : _ /\ _ |- _ => destruct H
         end; subst; cbn in *; lia.
Qed.

(** Both evaluators rank the wheel as a five-high straight, right below the
    six-high straight. *)
Example wheel_below_six_high :
  Client.evaluateHand wheelHole wheelBoard
    = Some (Client.mkEval (inject_Z 5000005) "Straight")
  /\ Client.evaluateHand sixHighHole sixHighBoard
    = Some (Client.mkEval (inject_Z 5000006) "Straight")
  /\ Server.evaluateHand wheelHole wheelBoard = Some (Server.mkEval 5000005 "Straight")
  /\ Server.evaluateHand sixHighHole sixHighBoard = Some (Server.mkEval 5000006 "Straight").
Proof. repeat split; vm_compute; reflexivity. Qed.

(** ** Straight flushes *)

(** C3. Seven hearts, king, jack and six down to two: the hand holds a
    straight flush, but both evaluators look for the straight among the five
    highest hearts only, answer Flush with 6,000,013 and so rank the hand
    below an ace-high flush that holds no straight flush (6,000,014).  The
    claim puts every hand with a straight flush above every flush. *)
Theorem low_straight_flush_ranked_below_flush :
  holdsStraightFlush (lowStraightFlushHole ++ lowStraightFlushBoard)
  /\ ~ holdsStraightFlush (aceFlushHole ++ aceFlushBoard)
  /\ Client.evaluateHand lowStraightFlushHole lowStraightFlushBoard
     = Some (Client.mkEval (inject_Z 6000013) "Flush")
  /\ Client.evaluateHand aceFlushHole aceFlushBoard
     = Some (Client.mkEval (inject_Z 6000014) "Flush")
  /\ Server.evaluateHand lowStraightFlushHole lowStraightFlushBoard
     = Some (Server.mkEval 6000013 "Flush")
  /\ Server.evaluateHand aceFlushHole aceFlushBoard
     = Some (Server.mkEval 6000014 "Flush").
Proof.
  split; [| split; [| repeat split; vm_compute; reflexivity]].
  - exists HEARTS, 6. intros k Hk.
    assert (Hc : k = 0 \/ k = 1 \/ k = 2 \/ k = 3 \/ k = 4) by lia.
    destruct Hc as [-> | [-> | [-> | [-> | ->]]]].
    + exists (card SIX HEARTS). split; [vm_compute; auto 10 | now left].
    + exists (card FIVE HEARTS). split; [vm_compute; auto 10 | now left].
    + exists (card FOUR HEARTS). split; [vm_compute; auto 10 | now left].
    + exists (card THREE HEARTS). split; [vm_compute; auto 10 | now left].
    + exists (card TWO HEARTS). split; [vm_compute; auto 10 | now left].
  - intros (s & hi & Hrun).
    destruct (Hrun 0 ltac:(lia)) as (c0 & Hc0 & Hv0).
    destruct (Hrun 1 ltac:(lia)) as (c1 & Hc1 & Hv1).
    destruct (Hrun 2 ltac:(lia)) as (c2 & Hc2 & Hv2).
    destruct s; vm_compute in Hc0, Hc1, Hc2;
      repeat match goal with
             | H : _ \/ _ |- _ => destruct H
             | H : False |- _ => destruct H
             | H : _ /\ _ |- _ => destruct H
             end; subst; cbn in *; lia.
Qed.

(** ** What the bands do guarantee *)

Lemma server_bands (hole board : list Card) (ev : Server.HandEval) :
  Server.evaluateHand hole board = Some ev ->
  (Server.name ev = "Straight Flush" -> 9000000 <= Server.score ev)
  /\ (Server.name ev = "Flush" \/ Server.name ev = "Straight" -> Server.score ev < 7000000).
Proof.
  unfold Server.evaluateHand.
  set (cards := sortDesc value (hole ++ board)).
  assert (Hstr : forall cs, 0 <= default 0 (Server.isStraight cs) <= 14).
  { intros cs. destruct (Server.isStraight cs) as [h |] eqn:E; simpl; [| lia].
    apply server_isStraight_bounds in E. lia. }
  pose proof (Hstr cards).
  destruct (Server.isFlush cards) as [fc |]; [pose proof (Hstr fc) |].
  all: repeat match goal with
              | |- context [if ?c then _ else _] => destruct c
              | |- context [match ?q with Some _ => _ | None => _ end] => destruct q
              | |- context [match ?l with [] => _ | _ :: _ => _ end] =>
                  let c := fresh "c" in destruct l as [| c ?]; [| pose proof (value_bounds c)]
              end.
  all: intros Hev; try discriminate Hev; injection Hev as <-; cbn.
  all: split; [intros Hn | intros [Hn | Hn]]; try discriminate Hn; lia.
Qed.

Lemma client_bands (hole board : list Card) (ev : Client.HandEval) :
  Client.evaluateHand hole board = Some ev ->
  (Client.name ev = "Straight Flush" -> (inject_Z 9000000 <= Client.score ev)%Q)
  /\ (Client.name ev = "Flush" \/ Client.name ev = "Straight" ->
      (Client.score ev < inject_Z 7000000)%Q).
Proof.
  unfold Client.evaluateHand.
  set (cards := sortDesc value (hole ++ board)).
  assert (Hstr : forall cs h, Client.isStraight cs = Some h -> 5 <= h <= 14).
  { intros cs h E. pose proof (client_isStraight_spec cs) as Hs. rewrite E in Hs.
    destruct Hs as [Hrun _]. pose proof (holdsRun_low _ _ Hrun).
    destruct (Hrun 0 ltac:(lia)) as (c & _ & Hv). pose proof (value_bounds c). lia. }
  destruct (Client.isFlush cards) as [fc |].
  - destruct (Client.isStraight fc) as [h |] eqn:Hsf; cbn [truthy default].
    + pose proof (Hstr _ _ Hsf). destruct (Z.eqb_spec h 0); [lia |]. cbn [negb].
      intros Hev; injection Hev as <-; cbn. split; [intros _ | intros [Hn | Hn]; discriminate Hn].
      rewrite <- Zle_Qle. lia.
    + destruct (List.find _ _).
      { intros Hev; injection Hev as <-; cbn.
        split; [intros Hn | intros [Hn | Hn]]; discriminate Hn. }
      destruct (_ && _).
      { intros Hev; injection Hev as <-; cbn.
        split; [intros Hn | intros [Hn | Hn]]; discriminate Hn. }
      destruct fc as [| c0 fc]; [discriminate |]. pose proof (value_bounds c0).
      intros Hev; injection Hev as <-; cbn.
      split; [intros Hn; discriminate Hn | intros _]. rewrite <- Zlt_Qlt. lia.
  - cbn [truthy].
    destruct (List.find _ _).
    { intros Hev; injection Hev as <-; cbn.
      split; [intros Hn | intros [Hn | Hn]]; discriminate Hn. }
    destruct (_ && _).
    { intros Hev; injection Hev as <-; cbn.
      split; [intros Hn | intros [Hn | Hn]]; discriminate Hn. }
    destruct (Client.isStraight cards) as [h |] eqn:Hst; cbn [truthy default].
    + pose proof (Hstr _ _ Hst). destruct (Z.eqb_spec h 0); [lia |]. cbn [negb].
      intros Hev; injection Hev as <-; cbn.
      split; [intros Hn; discriminate Hn | intros _]. rewrite <- Zlt_Qlt. lia.
    + repeat match goal with
             | |- context [if ?c then _ else _] => destruct c
             end.
      4: destruct cards; [discriminate |].
      all: intros Hev; injection Hev as <-; cbn;
        split; [intros Hn | intros [Hn | Hn]]; discriminate Hn.
Qed.

(** Where the evaluators do recognise a straight flush, it outranks every
    hand they rank as a flush or as a straight. *)
Lemma recognised_straight_flush_outranks (hole1 board1 hole2 board2 : list Card) :
  (forall a b,
      Client.evaluateHand hole1 board1 = Some a -> Client.evaluateHand hole2 board2 = Some b ->
      Client.name a = "Straight Flush" ->
      Client.name b = "Flush" \/ Client.name b = "Straight" ->
      (Client.score b < Client.score a)%Q)
  /\ (forall a b,
      Server.evaluateHand hole1 board1 = Some a -> Server.evaluateHand hole2 board2 = Some b ->
      Server.name a = "Straight Flush" ->
      Server.name b = "Flush" \/ Server.name b = "Straight" ->
      Server.score b < Server.score a).
Proof.
  split; intros a b Ha Hb Hna Hnb.
  - destruct (client_bands _ _ _ Ha) as [Hhi _]. destruct (client_bands _ _ _ Hb) as [_ Hlo].
    specialize (Hhi Hna). specialize (Hlo Hnb).
    assert (inject_Z 7000000 <= inject_Z 9000000)%Q by (rewrite <- Zle_Qle; lia). lra.
  - destruct (server_bands _ _ _ Ha) as [Hhi _]. destruct (server_bands _ _ _ Hb) as [_ Hlo].
    specialize (Hhi Hna). specialize (Hlo Hnb). lia.
Qed.

(** * The table *)

(** ** Amounts that are integers *)

Arguments Int : simpl never.
Arguments Js.add : simpl never.
Arguments Js.sub : simpl never.
Arguments Js.min : simpl never.
Arguments Js.eqb : simpl never.
Arguments Js.ltb : simpl never.
Arguments Js.leb : simpl never.
Arguments Js.gtb : simpl never.
Arguments Js.geb : simpl never.
Arguments Js.floor : simpl never.
Arguments Js.divByLength : simpl never.
Arguments Js.toString : simpl never.

Lemma amountOf_Int (z : Z) : amountOf (Int z) = z.
Proof. reflexivity. Qed.

Lemma whole_Int (z : Z) : whole (Int z).
Proof. reflexivity. Qed.

Lemma wholeSeats_cons (o : option Player) (ps : list (option Player)) :
  wholeSeats (o :: ps)
  <-> match o with Some p => whole (chips p) /\ whole (bet p) | None => True end
      /\ wholeSeats ps.
Proof.
  unfold wholeSeats. split.
  - intros H. split.
    + destruct o as [p |]; [apply (H 0%nat p eq_refl) | exact I].
    + intros i p Hp. apply (H (S i) p Hp).
  - intros [Ho Hps] [| i] p Hp; simpl in Hp.
    + injection Hp as ->. exact Ho.
    + apply (Hps i p Hp).
Qed.

Lemma wholeSeats_insert (ps : list (option Player)) (i : nat) (q : Player) :
  wholeSeats ps -> whole (chips q) -> whole (bet q) -> wholeSeats (<[i := Some q]> ps).
Proof.
  intros Hps Hc Hb j p Hp.
  destruct (Nat.eq_dec i j) as [-> | Hne].
  - apply list_lookup_insert_Some in Hp as [(_ & E & _) | [E _]]; [| contradiction].
    injection E as <-. now split.
  - rewrite list_lookup_insert_ne in Hp by exact Hne. apply (Hps j p Hp).
Qed.

Lemma seatsMagnitude_nonneg (ps : list (option Player)) : 0 <= seatsMagnitude ps.
Proof. induction ps as [| [p |] ps IH]; simpl; lia. Qed.

Lemma seatsMagnitude_lookup (ps : list (option Player)) (i : nat) (p : Player) :
  ps !! i = Some (Some p) ->
  Z.abs (amountOf (chips p)) + Z.abs (amountOf (bet p)) <= seatsMagnitude ps.
Proof.
  revert i. induction ps as [| o ps IH]; intros [| i] H; simpl in *; try discriminate.
  - injection H as ->. pose proof (seatsMagnitude_nonneg ps). lia.
  - specialize (IH i H). destruct o; lia.
Qed.

Lemma betsOnSeats_bound (ps : list (option Player)) :
  Z.abs (betsOnSeats ps) <= seatsMagnitude ps.
Proof. induction ps as [| [p |] ps IH]; simpl; lia. Qed.

(** The amounts of a seat, as integers with the arithmetic of integers. *)
Ltac seat_amounts p c b :=
  let Hc := fresh "Hc" in
  let Hb := fresh "Hb" in
  match goal with
  | H : whole (chips p) /\ whole (bet p) |- _ => destruct H as [Hc Hb]
  end;
  unfold whole in Hc, Hb;
  set (c := amountOf (chips p)) in *; set (b := amountOf (bet p)) in *;
  clearbody c b.

(** ** Facts about seats *)

Lemma seatAt_lookup (ps : list (option Player)) (i : Z) (p : Player) :
  seatAt ps i = Some p -> 0 <= i /\ ps !! Z.to_nat i = Some (Some p).
Proof.
  unfold seatAt, arrayGet. destruct (Z.ltb_spec i 0) as [Hneg | Hpos]; [discriminate |].
  destruct (ps !! Z.to_nat i) as [[q |] |] eqn:E; simpl; intros H; try discriminate.
  split; [lia | congruence].
Qed.

Lemma chipsOnSeats_insert (ps : list (option Player)) (i : nat) (p q : Player) :
  ps !! i = Some (Some p) ->
  chipsOnSeats (<[i := Some q]> ps)
  = chipsOnSeats ps - (amountOf (chips p) + amountOf (bet p))
    + (amountOf (chips q) + amountOf (bet q)).
Proof.
  revert i. induction ps as [| o ps IH]; intros [| i] H; simpl in *; try discriminate.
  - injection H as ->. lia.
  - rewrite (IH i H). destruct o; lia.
Qed.

Lemma seatsMagnitude_insert (ps : list (option Player)) (i : nat) (p q : Player) :
  ps !! i = Some (Some p) ->
  seatsMagnitude (<[i := Some q]> ps)
  = seatsMagnitude ps - (Z.abs (amountOf (chips p)) + Z.abs (amountOf (bet p)))
    + (Z.abs (amountOf (chips q)) + Z.abs (amountOf (bet q))).
Proof.
  revert i. induction ps as [| o ps IH]; intros [| i] H; simpl in *; try discriminate.
  - injection H as ->. lia.
  - rewrite (IH i H). destruct o; lia.
Qed.

Lemma advanceTurn_total (ps : list (option Player)) (idx : Z) :
  0 <= idx < 9 -> exists n, Server.advanceTurn 9 ps idx (Z.rem (idx + 1) 9) = Ok n.
Proof.
  intros H.
  assert (Hc : idx = 0 \/ idx = 1 \/ idx = 2 \/ idx = 3 \/ idx = 4 \/ idx = 5
               \/ idx = 6 \/ idx = 7 \/ idx = 8) by lia.
  destruct Hc as [-> | [-> | [-> | [-> | [-> | [-> | [-> | [-> | ->]]]]]]]];
    cbn; repeat (destruct (isPlaying _); [eexists; reflexivity |]);
    eexists; reflexivity.
Qed.

(** ** Lists of seats *)

Lemma lookup_map {A B} (f : A -> B) (l : list A) (i : nat) :
  map f l !! i = f <$> l !! i.
Proof. exact (list_lookup_fmap f l i). Qed.

Lemma find_head_filter {A} (P : A -> bool) (l : list A) :
  List.find P l = head (List.filter P l).
Proof. induction l as [| x l IH]; simpl; [reflexivity |]. now destruct (P x). Qed.

Lemma filter_map_comm {A B} (P : B -> bool) (f : A -> B) (l : list A) :
  List.filter P (map f l) = map f (List.filter (fun x => P (f x)) l).
Proof.
  induction l as [| x l IH]; simpl; [reflexivity |].
  destruct (P (f x)); simpl; now rewrite IH.
Qed.

Lemma seatedFrom_lookup (ps : list (option Player)) (k i : nat) (p : Player) :
  In (i, p) (seatedFrom k ps) <-> exists j, i = (k + j)%nat /\ ps !! j = Some (Some p).
Proof.
  revert k. induction ps as [| o ps IH]; intros k; simpl.
  - split; [intros [] | intros (j & _ & H); discriminate].
  - assert (Htail : In (i, p) (seatedFrom (S k) ps)
                    <-> exists j, i = (k + S j)%nat /\ ps !! j = Some (Some p)).
    { rewrite IH. split; intros (j & -> & H); exists j; split; auto; lia. }
    destruct o as [q |]; simpl; rewrite Htail; split.
    + intros [E | (j & -> & H)].
      * injection E as <- <-. exists 0%nat. split; [lia | reflexivity].
      * exists (S j). split; [reflexivity | exact H].
    + intros ([| j] & -> & H); simpl in H.
      * left. injection H as ->. f_equal. lia.
      * right. exists j. split; [reflexivity | exact H].
    + intros (j & -> & H). exists (S j). split; [reflexivity | exact H].
    + intros ([| j] & -> & H); simpl in H; [discriminate |].
      exists j. split; [reflexivity | exact H].
Qed.

Lemma seatedWithIndex_lookup (ps : list (option Player)) (i : nat) (p : Player) :
  In (i, p) (seatedWithIndex ps) <-> ps !! i = Some (Some p).
Proof.
  unfold seatedWithIndex. rewrite seatedFrom_lookup. split.
  - intros (j & -> & H). exact H.
  - intros H. exists i. split; [reflexivity | exact H].
Qed.

Lemma seatedFrom_map (f : Player -> Player) (k : nat) (ps : list (option Player)) :
  seatedFrom k (map (option_map f) ps)
  = map (fun ip => (fst ip, f (snd ip))) (seatedFrom k ps).
Proof.
  revert k. induction ps as [| [p |] ps IH]; intros k; simpl; [reflexivity | |].
  - now rewrite IH.
  - apply IH.
Qed.

Lemma seated_seatedFrom (k : nat) (ps : list (option Player)) :
  seated ps = map snd (seatedFrom k ps).
Proof.
  revert k. induction ps as [| [p |] ps IH]; intros k; [reflexivity | |].
  - change (seated (Some p :: ps)) with (p :: seated ps). simpl. now rewrite (IH (S k)).
  - change (seated (None :: ps)) with (seated ps). simpl. apply IH.
Qed.

Lemma sweep_fold_bets (ps : list (option Player)) (acc : Z) :
  wholeSeats ps ->
  Z.abs acc + seatsMagnitude ps <= MAX_SAFE_INTEGER ->
  fold_left (fun a o => match o with Some p => (a + bet p)%num | None => a end) ps (Int acc)
  = Int (acc + betsOnSeats ps).
Proof.
  revert acc. induction ps as [| [p |] ps IH]; intros acc Hw Hm; simpl in *.
  - f_equal. lia.
  - apply wholeSeats_cons in Hw as [Hp Hw]. seat_amounts p c b.
    pose proof (seatsMagnitude_nonneg ps).
    rewrite Hb, add_Int by lia. rewrite IH by (auto; lia). f_equal. lia.
  - apply wholeSeats_cons in Hw as [_ Hw]. now apply IH.
Qed.

Lemma credit_lookup (amt : Num) (ps : list (option Player)) (i : nat) (p : Player) :
  ps !! i = Some (Some p) ->
  Server.credit amt ps i !! i = Some (Some (setChips (chips p + amt) p)).
Proof.
  intros H. unfold Server.credit. rewrite list_lookup_alter_eq, H. reflexivity.
Qed.

Lemma credit_lookup_other (amt : Num) (ps : list (option Player)) (i j : nat) :
  i <> j -> Server.credit amt ps i !! j = ps !! j.
Proof. intros H. unfold Server.credit. now rewrite list_lookup_alter_ne. Qed.

(** ** Crediting seats *)

Lemma mapM_Ok {A B} (f : A -> Result B) (g : A -> B) (l : list A) :
  (forall x, In x l -> f x = Ok (g x)) -> mapM f l = Ok (map g l).
Proof.
  induction l as [| x l IH]; intros H; [reflexivity |].
  cbn. rewrite (H x (or_introl eq_refl)). cbn.
  rewrite IH by (intros y Hy; apply H; now right). reflexivity.
Qed.

Lemma seatedFrom_fst_bound (k : nat) (ps : list (option Player)) (i : nat) :
  In i (map fst (seatedFrom k ps)) -> (k <= i)%nat.
Proof.
  revert k. induction ps as [| [p |] ps IH]; intros k; simpl; [intros [] | |].
  - intros [<- | H]; [lia |]. apply IH in H. lia.
  - intros H. apply IH in H. lia.
Qed.

Lemma seatedFrom_NoDup (k : nat) (ps : list (option Player)) :
  List.NoDup (map fst (seatedFrom k ps)).
Proof.
  revert k. induction ps as [| [p |] ps IH]; intros k; simpl.
  - constructor.
  - constructor; [| apply IH]. intros H. apply seatedFrom_fst_bound in H. lia.
  - apply IH.
Qed.

Lemma NoDup_map_filter {A B} (f : A -> B) (P : A -> bool) (l : list A) :
  List.NoDup (map f l) -> List.NoDup (map f (List.filter P l)).
Proof.
  induction l as [| x l IH]; simpl; intros H; [constructor |].
  inversion H as [| ? ? Hnot Hnd]; subst.
  destruct (P x); simpl; [| now apply IH].
  constructor; [| now apply IH].
  intros Hin. apply Hnot. apply in_map_iff in Hin as (y & <- & Hy).
  apply in_map. now apply filter_In in Hy.
Qed.

Lemma fold_credit_notin (amt : Num) (idxs : list nat) (ps : list (option Player)) (i : nat) :
  ~ In i idxs -> fold_left (Server.credit amt) idxs ps !! i = ps !! i.
Proof.
  revert ps. induction idxs as [| j idxs IH]; intros ps Hn; [reflexivity |].
  simpl. rewrite IH by (intros H; apply Hn; now right).
  apply credit_lookup_other. intros ->. apply Hn. now left.
Qed.

Lemma fold_credit_in (amt : Num) (idxs : list nat) (ps : list (option Player))
    (i : nat) (p : Player) :
  List.NoDup idxs -> In i idxs -> ps !! i = Some (Some p) ->
  fold_left (Server.credit amt) idxs ps !! i = Some (Some (setChips (chips p + amt) p)).
Proof.
  revert ps. induction idxs as [| j idxs IH]; intros ps Hnd Hin Hp; [destruct Hin |].
  inversion Hnd as [| ? ? Hnot Hnd']; subst. simpl.
  destruct (Nat.eq_dec j i) as [-> | Hne].
  - rewrite fold_credit_notin by exact Hnot. now apply credit_lookup.
  - destruct Hin as [E | Hin]; [contradiction |].
    apply IH; auto. now rewrite credit_lookup_other.
Qed.

Lemma stacks_credit (a : Z) (ps : list (option Player)) (i : nat) (p : Player) :
  ps !! i = Some (Some p) ->
  whole (chips p) ->
  Z.abs (amountOf (chips p) + a) <= MAX_SAFE_INTEGER ->
  stacks (Server.credit (Int a) ps i) = stacks ps + a.
Proof.
  unfold Server.credit, alter. intros H Hw Hs. revert i H.
  induction ps as [| o ps IH]; intros [| i] H; simpl in *; try discriminate.
  - injection H as ->. simpl. unfold whole in Hw. rewrite Hw, add_Int by exact Hs.
    rewrite !amountOf_Int. lia.
  - rewrite (IH i H). destruct o; lia.
Qed.

Lemma stacks_fold_credit (a : Z) (idxs : list nat) (ps : list (option Player)) :
  List.NoDup idxs ->
  (forall i, In i idxs ->
     exists p, ps !! i = Some (Some p) /\ whole (chips p)
               /\ Z.abs (amountOf (chips p) + a) <= MAX_SAFE_INTEGER) ->
  stacks (fold_left (Server.credit (Int a)) idxs ps) = stacks ps + Z.of_nat (length idxs) * a.
Proof.
  revert ps. induction idxs as [| j idxs IH]; intros ps Hnd Hv; simpl fold_left.
  - simpl. lia.
  - inversion Hnd as [| ? ? Hnot Hnd']; subst.
    destruct (Hv j (or_introl eq_refl)) as (p & Hp & Hw & Hs).
    rewrite IH.
    + rewrite (stacks_credit _ _ _ _ Hp Hw Hs). simpl length. lia.
    + exact Hnd'.
    + intros i Hi. destruct (Hv i (or_intror Hi)) as (q & Hq & Hwq & Hsq).
      exists q. rewrite credit_lookup_other; [auto |].
      intros ->. contradiction.
Qed.

Lemma client_credit_eq : Client.credit = Server.credit.
Proof. reflexivity. Qed.

(** ** Seat scans that never end *)

Lemma scanPlaying_fail_probes (fuel : nat) (ps : list (option Player)) (i : Z) :
  scanPlaying fuel ps i = Fail Diverges ->
  forall j, In j (probes fuel i) -> isPlaying (seatAt ps j) = false.
Proof.
  revert i. induction fuel as [| fuel IH]; intros i Hfail j Hj; [destruct Hj |].
  simpl in Hfail, Hj. destruct (isPlaying (seatAt ps i)) eqn:E; [discriminate |].
  destruct Hj as [<- | Hj]; [exact E | now apply (IH _ Hfail)].
Qed.

Lemma probes_cover (i k : Z) : -9 < i < 9 -> 0 <= k < 9 -> In k (probes scanFuel i).
Proof.
  intros Hi Hk.
  assert (Hb : existsb (Z.eqb k) (probes scanFuel i) = true).
  { assert (Hic : i = -8 \/ i = -7 \/ i = -6 \/ i = -5 \/ i = -4 \/ i = -3 \/ i = -2
                  \/ i = -1 \/ i = 0 \/ i = 1 \/ i = 2 \/ i = 3 \/ i = 4 \/ i = 5
                  \/ i = 6 \/ i = 7 \/ i = 8) by lia.
    assert (Hkc : k = 0 \/ k = 1 \/ k = 2 \/ k = 3 \/ k = 4 \/ k = 5 \/ k = 6
                  \/ k = 7 \/ k = 8) by lia.
    repeat (destruct Hic as [-> | Hic]);
      repeat (destruct Hkc as [-> | Hkc]); subst; reflexivity. }
  apply existsb_exists in Hb as (x & Hx & E). apply Z.eqb_eq in E. now subst.
Qed.

Lemma scanPlaying_no_seat (ps : list (option Player)) :
  (forall k, 0 <= k < 9 -> isPlaying (seatAt ps k) = false) ->
  forall fuel i, -9 < i < 9 -> scanPlaying fuel ps i = Fail Diverges.
Proof.
  intros Hnone. induction fuel as [| fuel IH]; intros i Hi; [reflexivity |].
  simpl. assert (E : isPlaying (seatAt ps i) = false).
  { destruct (Z_lt_le_dec i 0) as [Hneg | Hpos]; [| apply Hnone; lia].
    unfold seatAt, arrayGet. destruct (Z.ltb_spec i 0); [reflexivity | lia]. }
  rewrite E. apply IH.
  pose proof (Z.rem_bound_abs (i + 1) 9 ltac:(lia)). lia.
Qed.

(** Eighteen probes are as good as any number: when they all miss, no
    seat from 0 to 8 is PLAYING and the source loops for ever. *)
Lemma scanPlaying_out_of_fuel (ps : list (option Player)) (i : Z) :
  -9 < i < 9 ->
  scanPlaying scanFuel ps i = Fail Diverges ->
  forall fuel, scanPlaying fuel ps i = Fail Diverges.
Proof.
  intros Hi Hfail fuel. apply scanPlaying_no_seat; [| exact Hi].
  intros k Hk. apply (scanPlaying_fail_probes _ _ _ Hfail). now apply probes_cover.
Qed.

(** ** The socket handlers return *)

Lemma seatAt_insert (ps : list (option Player)) (i : Z) (p q : Player) :
  seatAt ps i = Some p -> seatAt (<[Z.to_nat i := Some q]> ps) i = Some q.
Proof.
  intros H. destruct (seatAt_lookup _ _ _ H) as [H0 Hl].
  unfold seatAt, arrayGet. destruct (Z.ltb_spec i 0); [lia |].
  rewrite list_lookup_insert_eq; [reflexivity |]. now apply lookup_lt_Some in Hl.
Qed.

(** On a safe table every sum, difference and comparison of an action is
    the one of the integers. *)
Ltac integer_amounts :=
  repeat first
    [ rewrite min_Int
    | rewrite geb_Int
    | rewrite gtb_Int
    | rewrite eqb_Int
    | rewrite sub_Int by lia
    | rewrite add_Int by lia ].

Section Action.
Variable st : Table.
Variable p : Player.
Variable act : Action.
Hypothesis turnSet : currentPlayerIndex (gameState st) <> -1.
Hypothesis actor : seatAt (players st) (currentPlayerIndex (gameState st)) = Some p.
Hypothesis safe : safeAction st act.

Lemma actor_lookup :
  players st !! Z.to_nat (currentPlayerIndex (gameState st)) = Some (Some p).
Proof. exact (proj2 (seatAt_lookup _ _ _ actor)). Qed.

(** Whatever the action, the server's handler returns, writes the acting
    seat only, leaves the pot alone and keeps the amounts integers. *)
Lemma action_returns :
  length (players st) = 9%nat ->
  exists p' gs' armed,
    Server.action act st
      = Ok (mkTable (<[Z.to_nat (currentPlayerIndex (gameState st)) := Some p']> (players st))
              gs', armed)
    /\ pot gs' = pot (gameState st)
    /\ whole (chips p') /\ whole (bet p') /\ whole (currentBet gs')
    /\ amountOf (chips p') + amountOf (bet p') = amountOf (chips p) + amountOf (bet p).
Proof.
  intros nineSeats.
  destruct safe as [(Hseats & Hpot & Hcb) Hsafe].
  pose proof (Hseats _ _ actor_lookup) as Hp.
  pose proof (seatsMagnitude_lookup _ _ _ actor_lookup) as Hm.
  assert (Hr : 0 <= currentPlayerIndex (gameState st) < 9).
  { destruct (seatAt_lookup _ _ _ actor) as [H0 Hl]. apply lookup_lt_Some in Hl. lia. }
  unfold magnitude in Hsafe. unfold whole in Hcb.
  seat_amounts p c b.
  set (cb := amountOf (currentBet (gameState st))) in *. clearbody cb.
  unfold Server.action.
  destruct (Z.eqb_spec (currentPlayerIndex (gameState st)) (-1)) as [E | _]; [contradiction |].
  rewrite actor.
  destruct act as [| | | amount]; cbn zeta.
  4: destruct Hsafe as (a & -> & Hsafe); cbn [from_option Datatypes.id].
  all: rewrite ?Hc, ?Hb, ?Hcb; integer_amounts.
  4: destruct (c <=? cb + a - b) eqn:Eall.
  all: cbn [chips bet setChips setBet setStatus setHasActed]; integer_amounts.
  all: match goal with
       | |- context [if ?c then Ok _ else _] => destruct c
       end.
  all: try match goal with
       | |- context [Server.advanceTurn 9 ?ps ?i _] =>
           destruct (advanceTurn_total ps i Hr) as [n ->]
       end.
  all: do 3 eexists; (split; [reflexivity |]); split; [reflexivity |].
  all: repeat match goal with |- context [if ?c then _ else _] => destruct c end.
  all: cbn; rewrite ?Hc, ?Hb, ?Hcb, ?amountOf_Int.
  all: repeat split; try apply whole_Int; lia.
Qed.

(** The client's handler does the same, and a check that has something to
    call does nothing. *)
Lemma client_handleAction_money :
  wholeTable (Client.handleAction act st)
  /\ totalMoney (Client.handleAction act st) = totalMoney st.
Proof.
  pose proof safe as [Hw Hsafe]. pose proof Hw as (Hseats & Hpot & Hcb).
  pose proof (Hseats _ _ actor_lookup) as Hp.
  pose proof (seatsMagnitude_lookup _ _ _ actor_lookup) as Hm.
  unfold magnitude in Hsafe. unfold whole in Hcb.
  seat_amounts p c b.
  set (cb := amountOf (currentBet (gameState st))) in *. clearbody cb.
  unfold Client.handleAction.
  destruct (Z.eqb_spec (currentPlayerIndex (gameState st)) (-1)) as [E | _]; [contradiction |].
  rewrite actor.
  destruct act as [| | | amount]; cbn zeta.
  4: destruct Hsafe as (a & -> & Hsafe); cbn [from_option Datatypes.id].
  all: rewrite ?Hc, ?Hb, ?Hcb; integer_amounts.
  2: destruct (0 <? cb - b); [now split |].
  4: destruct (c <=? cb + a - b) eqn:Eall.
  all: cbn [chips bet setChips setBet setStatus setHasActed]; integer_amounts.
  all: repeat match goal with |- context [if ?c then _ else _] => destruct c end.
  all: split;
    [ split; [| split];
      [ apply wholeSeats_insert; [exact Hseats | |]; cbn; rewrite ?Hc, ?Hb; apply whole_Int
      | cbn; exact Hpot
      | cbn; rewrite ?Hcb; apply whole_Int ]
    | unfold totalMoney; cbn [players gameState];
      rewrite (chipsOnSeats_insert _ _ _ _ actor_lookup);
      cbn; rewrite ?Hc, ?Hb, ?amountOf_Int; lia ].
Qed.
End Action.

(** ** Two hands played through *)

(** Heads-up with stacks of 1000 and blinds of 10 and 20: the small blind
    calls, the big blind checks, and the flop comes with a pot of 40, the
    bets back at 0, three cards on the board and three cards fewer in the
    deck. *)
Example server_call_check_reaches_flop :
  exists st',
    Server.actionThenTimer call preflopHeadsUp ≫= Server.actionThenTimer check = Ok st'
    /\ phase (gameState st') = FLOP
    /\ pot (gameState st') = Int 40
    /\ betsOnSeats (players st') = 0
    /\ length (communityCards (gameState st')) = 3%nat
    /\ (length (deck (gameState st')) + 3 = length (deck (gameState preflopHeadsUp)))%nat
    /\ stacks (players st') = 1960.
Proof. eexists. split; [vm_compute; reflexivity |]. vm_compute. repeat split. Qed.

(** Three players: the dealer raises, both blinds fold, and the hand is over
    at once: the raiser takes the 70 chips in play, the board stays empty
    and the phase is SHOWDOWN. *)
Example server_raise_fold_fold_ends_hand :
  exists st',
    (Server.actionThenTimer (raise (Some (Int 20))) preflopThreeHanded
       ≫= Server.actionThenTimer fold) ≫= Server.actionThenTimer fold = Ok st'
    /\ phase (gameState st') = SHOWDOWN
    /\ currentPlayerIndex (gameState st') = -1
    /\ communityCards (gameState st') = []
    /\ pot (gameState st') = Int 0
    /\ map amount (winners (gameState st')) = [Int 70]
    /\ option_map chips (seatAt (players st') 0) = Some (Int 1030).
Proof. eexists. split; [vm_compute; reflexivity |]. vm_compute. repeat split. Qed.

(** ** Money *)

Lemma chipsOnSeats_swept (ps : list (option Player)) :
  chipsOnSeats (map (option_map swept) ps) = chipsOnSeats ps - betsOnSeats ps.
Proof. induction ps as [| [p |] ps IH]; simpl; rewrite ?IH; lia. Qed.

Lemma wholeSeats_swept (ps : list (option Player)) :
  wholeSeats ps -> wholeSeats (map (option_map swept) ps).
Proof.
  intros H i q Hq. rewrite lookup_map in Hq.
  destruct (ps !! i) as [[p |] |] eqn:E; try discriminate.
  injection Hq as <-. split; [apply (H i p E) | apply whole_Int].
Qed.

Lemma collectBetsToPot_players (ps : list (option Player)) :
  fst (Client.collectBetsToPot ps) = map (option_map swept) ps.
Proof. simpl. apply map_ext. now intros [p |]. Qed.

(** The sweep on a safe table: the pot takes the bets, integer for
    integer. *)
Lemma swept_pot (st : Table) :
  wholeTable st -> magnitude st <= MAX_SAFE_INTEGER ->
  (pot (gameState st)
   + fold_left (fun a o => match o with Some p => a + bet p | None => a end)
       (players st) (Int 0))%num
  = Int (amountOf (pot (gameState st)) + betsOnSeats (players st)).
Proof.
  intros (Hseats & Hpot & _) Hm. unfold magnitude in Hm.
  pose proof (betsOnSeats_bound (players st)).
  rewrite (sweep_fold_bets _ 0 Hseats) by lia.
  unfold whole in Hpot. rewrite Hpot at 1. rewrite add_Int by lia. f_equal.
Qed.


Lemma wholeTable_preflopHeadsUp : wholeTable preflopHeadsUp.
Proof.
  split; [| split; reflexivity].
  intros [| [| [| [| [| [| [| [| [| i]]]]]]]]] p Hp; try discriminate;
    injection Hp as <-; split; reflexivity.
Qed.



(** ** Seating *)

(** C10. On the server, [sit] on a seat that already holds a player changes
    nothing: not the seat, not any other player, not the table record. *)
Theorem sit_occupied_is_noop (socketId : string) (seatIndex : nat) (buyIn : Num)
    (name : string) (st : Table) (p : Player) :
  seatAt (players st) (Z.of_nat seatIndex) = Some p ->
  Server.sit socketId seatIndex buyIn name st = st.
Proof. intros H. unfold Server.sit. now rewrite H. Qed.

Lemma sit_occupied_is_noop_witness :
  (exists p, seatAt (players twoSeated) (Z.of_nat 0) = Some p)
  /\ Server.sit "s9" 0 (Int 500) "Eve" twoSeated = twoSeated.
Proof.
  split.
  - eexists. reflexivity.
  - eapply (sit_occupied_is_noop "s9" 0 (Int 500) "Eve" twoSeated). reflexivity.
Defined.

(** ** Raising *)

(** C7. A raise by an integer amount, where the acting seat's stack and
    bet, the bet to match and the amount are integers that add up, by size,
    to at most [MAX_SAFE_INTEGER], on the server and on the client: when the
    chips needed to reach the target (current bet to match plus the amount)
    meet or exceed the stack, the seat commits its whole stack, its chips
    become 0 and its status ALL_IN; otherwise its bet is set to the target,
    its stack drops by the chips needed, and the current bet to match and
    the last aggressor become this seat's.  The stack never goes negative
    and no more than the stack is committed. *)
Theorem raise_commits_stack_or_reaches_target (st : Table) (p : Player) (amount : Z) :
  let gs := gameState st in
  let idx := currentPlayerIndex gs in
  length (players st) = 9%nat ->
  idx <> -1 ->
  seatAt (players st) idx = Some p ->
  safeRaise gs p amount ->
  (exists st' armed p',
      Server.action (raise (Some (Int amount))) st = Ok (st', armed)
      /\ seatAt (players st') idx = Some p'
      /\ raiseOutcome gs idx amount p p' (gameState st'))
  /\ (exists p',
      seatAt (players (Client.handleAction (raise (Some (Int amount))) st)) idx = Some p'
      /\ raiseOutcome gs idx amount p p'
           (gameState (Client.handleAction (raise (Some (Int amount))) st))).
Proof.
  intros gs idx Hlen Hturn Hp (Hc & Hb & Hcb & Hsafe).
  assert (Hr : 0 <= idx < 9).
  { destruct (seatAt_lookup _ _ _ Hp) as [H0 Hl]. apply lookup_lt_Some in Hl. lia. }
  unfold raiseOutcome. unfold whole in Hc, Hb, Hcb.
  set (c := amountOf (chips p)) in *. set (b := amountOf (bet p)) in *.
  set (cb := amountOf (currentBet gs)) in *. clearbody c b cb.
  split.
  - unfold Server.action. fold gs idx.
    destruct (Z.eqb_spec idx (-1)) as [E | _]; [contradiction |].
    rewrite Hp. cbn zeta. cbn [from_option Datatypes.id].
    rewrite ?Hc, ?Hb, ?Hcb; integer_amounts.
    destruct (Z.leb_spec c (cb + amount - b)) as [Hall | Hsome].
    all: cbn [chips bet setChips setBet setStatus setHasActed]; integer_amounts.
    all: match goal with |- context [if ?c then Ok _ else _] => destruct c end.
    all: try match goal with
         | |- context [Server.advanceTurn 9 ?ps ?i _] =>
             destruct (advanceTurn_total ps i Hr) as [n ->]
         end.
    all: do 3 eexists; split; [reflexivity |]; cbn [players gameState mbind Result_bind].
    all: split; [apply (seatAt_insert _ _ _ _ Hp) |].
    all: cbn; rewrite ?amountOf_Int.
    all: repeat split; intros; try reflexivity; try lia; f_equal; lia.
  - unfold Client.handleAction. fold gs idx.
    destruct (Z.eqb_spec idx (-1)) as [E | _]; [contradiction |].
    rewrite Hp. cbn zeta. cbn [from_option Datatypes.id].
    rewrite ?Hc, ?Hb, ?Hcb; integer_amounts.
    destruct (Z.leb_spec c (cb + amount - b)) as [Hall | Hsome].
    all: cbn [chips bet setChips setBet setStatus setHasActed]; integer_amounts.
    all: eexists; cbn [players gameState]; split; [apply (seatAt_insert _ _ _ _ Hp) |].
    all: cbn; rewrite ?amountOf_Int.
    all: repeat split; intros; try reflexivity; try lia; f_equal; lia.
Qed.

Lemma raise_commits_stack_or_reaches_target_witness :
  exists st' armed p',
    Server.action (raise (Some (Int 5000))) preflopHeadsUp = Ok (st', armed)
    /\ seatAt (players st') 0 = Some p'
    /\ raiseOutcome (gameState preflopHeadsUp) 0 5000 annPreflop p' (gameState st').
Proof.
  refine (proj1 (raise_commits_stack_or_reaches_target preflopHeadsUp annPreflop 5000
                   eq_refl ltac:(discriminate) eq_refl _)).
  repeat split. vm_compute. discriminate.
Defined.

(** Above [MAX_SAFE_INTEGER] a raise misses its target.  Ann's stack is
    2^56 - 8 and her bet 10; the bet to match is 20 and she raises by
    2^54 - 8, to a target of 2^54 + 12, a number that JavaScript holds.  The
    chips needed are less than her stack, yet her bet and the bet to match
    end at 2^54 + 8, on the server and on the client.  On the table of the
    stack of 9007199254741092 a raise by 1 adds 11 chips to the bet and
    takes 12 from the stack. *)
Theorem raise_misses_target :
  seatAt (players whales) (currentPlayerIndex (gameState whales)) = Some annWhale
  /\ chips annWhale = Int (2 ^ 56 - 8) /\ bet annWhale = Int 10
  /\ currentBet (gameState whales) = Int 20
  /\ (Int 20 + Int (2 ^ 54 - 8))%num = Int (2 ^ 54 + 12)
  /\ (exists st',
        Server.action (raise (Some (Int (2 ^ 54 - 8)))) whales = Ok (st', false)
        /\ option_map bet (seatAt (players st') 0) = Some (Int (2 ^ 54 + 8))
        /\ option_map status (seatAt (players st') 0) = Some PLAYING
        /\ currentBet (gameState st') = Int (2 ^ 54 + 8))
  /\ option_map bet
       (seatAt (players (Client.handleAction (raise (Some (Int (2 ^ 54 - 8)))) whales)) 0)
     = Some (Int (2 ^ 54 + 8))
  /\ chips annHighRoller = Int 9007199254741092 /\ bet annHighRoller = Int 10
  /\ (exists st',
        Server.action (raise (Some (Int 1))) highRollers = Ok (st', false)
        /\ option_map bet (seatAt (players st') 0) = Some (Int 21)
        /\ option_map chips (seatAt (players st') 0) = Some (Int 9007199254741080)).
Proof.
  repeat (split; [vm_compute; reflexivity |]).
  split; [eexists; split; [vm_compute; reflexivity |]; vm_compute; repeat split |].
  repeat (split; [vm_compute; reflexivity |]).
  eexists. split; [vm_compute; reflexivity |]. vm_compute. repeat split.
Qed.

(** ** Checking *)

(** C5. The server, heads-up before the flop: the small blind has bet 10,
    the bet to match is 20, and it sends [check].  The handler applies the
    check: the seat is marked as having acted and the turn moves on.  The
    claim asks for a rejection that leaves all of this unchanged. *)
Theorem server_applies_check_when_call_owed :
  (bet annPreflop <? currentBet (gameState preflopHeadsUp))%num = true
  /\ seatAt (players preflopHeadsUp) (currentPlayerIndex (gameState preflopHeadsUp))
     = Some annPreflop
  /\ hasActed annPreflop = false
  /\ exists st',
      Server.action check preflopHeadsUp = Ok (st', false)
      /\ option_map hasActed (seatAt (players st') 0) = Some true
      /\ currentPlayerIndex (gameState preflopHeadsUp) = 0
      /\ currentPlayerIndex (gameState st') = 1.
Proof.
  split; [reflexivity |]. split; [reflexivity |]. split; [reflexivity |].
  eexists. split; [vm_compute; reflexivity |]. vm_compute. repeat split.
Qed.

(** X16. The client does reject a check when a call is owed:
    [handleAction] returns before it writes and the table is unchanged. *)
Lemma client_rejects_check_when_call_owed (st : Table) (p : Player) :
  seatAt (players st) (currentPlayerIndex (gameState st)) = Some p ->
  safeRaise (gameState st) p 0 ->
  amountOf (bet p) < amountOf (currentBet (gameState st)) ->
  Client.handleAction check st = st.
Proof.
  intros Hp (_ & Hb & Hcb & Hsafe) Hlt. unfold Client.handleAction. rewrite Hp.
  destruct (_ =? -1); [reflexivity |].
  unfold whole in Hb, Hcb. rewrite Hb, Hcb. integer_amounts.
  destruct (Z.ltb_spec 0 (amountOf (currentBet (gameState st)) - amountOf (bet p)));
    [reflexivity | lia].
Qed.

(** ** Blinds *)

(** C6. The server with a small blind of 10 due from a stack of 5:
    [startGame] takes the whole blind, the stack drops to -5, the bet reads
    10 and the seat stays PLAYING.  The claim asks for min(blind, stack),
    ALL_IN at zero and no negative stack. *)
Theorem server_blind_overdraws_short_stack :
  option_map chips (seatAt (players shortStacked) 0) = Some (Int 5)
  /\ exists st',
      Server.startGame smallDeck shortStacked = Ok st'
      /\ option_map isSmallBlind (seatAt (players st') 0) = Some true
      /\ option_map chips (seatAt (players st') 0) = Some (Int (-5))
      /\ option_map bet (seatAt (players st') 0) = Some (Int 10)
      /\ option_map status (seatAt (players st') 0) = Some PLAYING.
Proof.
  split; [reflexivity |].
  eexists. split; [vm_compute; reflexivity |]. vm_compute. repeat split.
Qed.


Example client_blind_on_short_stack :
  exists st',
    Client.startNewHand smallDeck 0 shortStacked = Ok st'
    /\ option_map chips (seatAt (players st') 0) = Some (Int 0)
    /\ option_map bet (seatAt (players st') 0) = Some (Int 5)
    /\ option_map status (seatAt (players st') 0) = Some ALL_IN.
Proof. eexists. split; [vm_compute; reflexivity |]. vm_compute. repeat split. Qed.

(** ** A single seat left in the hand *)

Lemma stack_and_bets_bound (ps : list (option Player)) (i : nat) (p : Player) :
  ps !! i = Some (Some p) ->
  Z.abs (amountOf (chips p)) + Z.abs (betsOnSeats ps) <= seatsMagnitude ps.
Proof.
  revert i. induction ps as [| o ps IH]; intros [| i] H; simpl in *; try discriminate.
  - injection H as ->. pose proof (betsOnSeats_bound ps). lia.
  - specialize (IH i H). destruct o; lia.
Qed.

(** X14. When the server's [nextPhase] runs with one seat left in the hand,
    on a safe table, that seat takes the pot and every swept bet, the hand
    is over and the board and the deck stay as they are. *)
Lemma nextPhase_sole_survivor (st : Table) (i : nat) (w : Player) :
  List.filter (fun ip => inHand (snd ip)) (seatedWithIndex (players st)) = [(i, w)] ->
  wholeTable st ->
  magnitude st <= MAX_SAFE_INTEGER ->
  let prize := amountOf (pot (gameState st)) + betsOnSeats (players st) in
  exists st',
    Server.nextPhase st = Ok st'
    /\ players st' !! i
       = Some (Some (setChips (Int (amountOf (chips w) + prize)) (swept w)))
    /\ (forall j, j <> i -> players st' !! j = option_map swept <$> players st !! j)
    /\ phase (gameState st') = SHOWDOWN
    /\ currentPlayerIndex (gameState st') = -1
    /\ pot (gameState st') = Int 0
    /\ winners (gameState st') = [mkWinner (id w) "Opponents Folded" (Int prize)]
    /\ communityCards (gameState st') = communityCards (gameState st)
    /\ deck (gameState st') = deck (gameState st).
Proof.
  intros Hone Hwhole Hm prize.
  assert (Hsw : List.filter (fun ip => inHand (snd ip))
                  (seatedWithIndex (players (Server.sweepBets st))) = [(i, swept w)]).
  { unfold Server.sweepBets, seatedWithIndex; cbn [players].
    rewrite seatedFrom_map, filter_map_comm.
    rewrite (List.filter_ext _ (fun ip => inHand (snd ip))) by (intros []; reflexivity).
    unfold seatedWithIndex in Hone. now rewrite Hone. }
  assert (Hw : players st !! i = Some (Some w)).
  { apply seatedWithIndex_lookup.
    apply (filter_In (fun ip => inHand (snd ip)) (i, w)). rewrite Hone. now left. }
  assert (Hprize : pot (gameState (Server.sweepBets st)) = Int prize).
  { unfold Server.sweepBets; cbn [gameState pot setPot]. now apply swept_pot. }
  assert (Hcredit : (chips (swept w) + Int prize)%num = Int (amountOf (chips w) + prize)).
  { destruct Hwhole as (Hseats & _ & _). destruct (Hseats _ _ Hw) as [Hc _].
    pose proof (stack_and_bets_bound _ _ _ Hw). unfold magnitude in Hm.
    cbn [swept chips setHasActed setBet]. unfold whole in Hc. rewrite Hc at 1.
    apply add_Int. unfold prize. lia. }
  unfold Server.nextPhase.
  rewrite (seated_seatedFrom 0), filter_map_comm.
  fold (seatedWithIndex (players (Server.sweepBets st))). rewrite Hsw.
  cbn [length map Nat.eqb]. eexists. split; [reflexivity |].
  unfold Server.handleShowdown. rewrite find_head_filter, Hsw. cbn [head].
  rewrite Hprize. cbn [players gameState].
  repeat split.
  - rewrite <- Hcredit. apply (credit_lookup _ _ _ (swept w)).
    unfold Server.sweepBets; cbn [players]. rewrite lookup_map, Hw. reflexivity.
  - intros j Hj. rewrite credit_lookup_other by auto.
    unfold Server.sweepBets; cbn [players]. apply lookup_map.
Qed.

(** C8. The server, heads-up before the flop: the small blind folds at once.
    Exactly one seat is left in the hand, yet the hand does not end: the
    timer is not armed, the phase stays PREFLOP, the turn goes to the big
    blind, nobody is credited and no winner is recorded.  The claim asks
    for an immediate end of the hand here. *)
Theorem server_fold_leaves_lone_seat_to_act :
  exists st',
    Server.actionThenTimer fold preflopHeadsUp = Ok st'
    /\ length (List.filter inHand (seated (players st'))) = 1%nat
    /\ phase (gameState st') = PREFLOP
    /\ currentPlayerIndex (gameState st') = 1
    /\ winners (gameState st') = []
    /\ pot (gameState st') = Int 0
    /\ option_map chips (seatAt (players st') 1) = Some (Int 980)
    /\ option_map bet (seatAt (players st') 1) = Some (Int 20).
Proof. eexists. split; [vm_compute; reflexivity |]. vm_compute. repeat split. Qed.

(** The client on the same table: the turn effect that follows the fold ends
    the hand and pays the pot of 30 to the big blind. *)
Example client_fold_ends_hand :
  let st' := fst (Client.turnEffect (Client.handleAction fold preflopHeadsUp)) in
  phase (gameState st') = SHOWDOWN
  /\ currentPlayerIndex (gameState st') = -1
  /\ option_map chips (seatAt (players st') 1) = Some (Int 1010).
Proof. vm_compute. repeat split. Qed.

(** ** The showdown *)

Lemma contenders_seat (ps : list (option Player)) (i : nat) (p : Player) :
  In (i, p) (contenders ps) -> ps !! i = Some (Some p).
Proof. intros H. apply filter_In in H as [H _]. now apply seatedWithIndex_lookup. Qed.

Lemma contenders_NoDup (P : nat * Player -> bool) (ps : list (option Player)) :
  List.NoDup (map fst (List.filter P (contenders ps))).
Proof. do 2 apply NoDup_map_filter. apply seatedFrom_NoDup. Qed.

(** The share of a pot is of the size of the pot at most. *)
Lemma share_bound (amount n : Z) : 0 <= amount -> 1 <= n -> 0 <= amount / n <= amount.
Proof.
  intros Ha Hn. split.
  - apply Z.div_pos; lia.
  - apply Z.div_le_upper_bound; nia.
Qed.

(** The credits of a split on safe seats, integer for integer. *)
Lemma credited_share (ps : list (option Player)) (amount share : Z) (i : nat) (p : Player) :
  wholeSeats ps ->
  seatsMagnitude ps + amount <= MAX_SAFE_INTEGER ->
  0 <= share <= amount ->
  ps !! i = Some (Some p) ->
  whole (chips p)
  /\ Z.abs (amountOf (chips p) + share) <= MAX_SAFE_INTEGER
  /\ (chips p + Int share)%num = Int (amountOf (chips p) + share).
Proof.
  intros Hseats Hm Hshare Hp.
  destruct (Hseats _ _ Hp) as [Hc _]. pose proof (seatsMagnitude_lookup _ _ _ Hp) as Hb.
  assert (Hs : Z.abs (amountOf (chips p) + share) <= MAX_SAFE_INTEGER) by lia.
  repeat split; [exact Hc | exact Hs |].
  unfold whole in Hc. rewrite Hc at 1. now apply add_Int.
Qed.

Section ServerShowdown.
Variable st : Table.
Let gs := gameState st.
Let ps := players st.
Let board := communityCards gs.
Let tied := serverTied ps board.
Let n := Z.of_nat (length tied).
Let share := amountOf (pot gs) / n.
Hypothesis someContender : contenders ps <> [].
Hypothesis handsHoldCards : forall i p, In (i, p) (contenders ps) -> cards p ++ board <> [].
Hypothesis safeSeats : wholeSeats ps.
Hypothesis safePot : whole (pot gs).
Hypothesis potNotNegative : 0 <= amountOf (pot gs).
Hypothesis safeSum : seatsMagnitude ps + amountOf (pot gs) <= MAX_SAFE_INTEGER.

Let mk (ip : nat * Player) : Server.Evaluation :=
  Server.mkEvaluation (id (snd ip)) (Server.score (serverEval board (snd ip)))
    (Server.name (serverEval board (snd ip))) (fst ip).

Lemma server_showdown_split :
  1 <= n
  /\ exists st',
      Server.computeWinners st = Ok st'
      /\ (forall i p, In (i, p) tied ->
            players st' !! i
            = Some (Some (setChips (Int (amountOf (chips p) + share)) p)))
      /\ (forall i, (forall p, ~ In (i, p) tied) -> players st' !! i = ps !! i)
      /\ winners (gameState st')
         = winners gs
           ++ map (fun ip => mkWinner (id (snd ip))
                               (Server.name (serverEval board (snd ip))) (Int share)) tied
      /\ pot (gameState st') = Int 0
      /\ stacks (players st') = stacks ps + (amountOf (pot gs) - amountOf (pot gs) mod n).
Proof.
  unfold Server.computeWinners. fold gs ps board. fold (contenders ps).
  rewrite (mapM_Ok _ mk).
  2:{ intros [i p] Hin. cbn [snd fst].
      destruct (server_evaluateHand_returns (cards p) board (handsHoldCards i p Hin))
        as [ev Hev].
      unfold mk, serverEval. cbn [snd fst]. now rewrite Hev. }
  cbn [mbind Result_bind].
  set (after := fun a b : Server.Evaluation => 0 <? Server.eScore b - Server.eScore a).
  destruct (stableSort after (map mk (contenders ps))) as [| best rest] eqn:Hsorted.
  { exfalso. apply someContender.
    apply length_zero_iff_nil. rewrite <- (length_map mk), <- (stableSort_length after).
    now rewrite Hsorted. }
  assert (Hw : List.filter (fun e => Server.eScore e =? Server.eScore best)
                 (stableSort after (map mk (contenders ps))) = map mk tied).
  { rewrite (ties_with_head after
               (fun e b => Server.eScore e =? Server.eScore b)) with (rest := rest).
    2:{ intros x y. unfold after. lia. }
    2:{ intros x y z. unfold after. lia. }
    2:{ intros e b. unfold after. lia. }
    2:{ exact Hsorted. }
    rewrite filter_map_comm. f_equal.
    unfold tied, serverTied. apply List.filter_ext. intros ip.
    rewrite forallb_map. apply forallb_pointwise. intros jq. unfold after, mk; cbn. lia. }
  assert (Hn : 1 <= n).
  { rewrite Hsorted in Hw. cbn [List.filter] in Hw. rewrite Z.eqb_refl in Hw.
    unfold n. destruct tied; [discriminate | cbn [length]; lia]. }
  rewrite <- Hsorted, Hw.
  rewrite !length_map.
  assert (Hsplit : Js.floor (Js.divByLength (pot gs) (length tied)) = Int share).
  { unfold whole in safePot. rewrite safePot. apply floor_divByLength_Int; [| lia].
    pose proof (seatsMagnitude_nonneg ps). lia. }
  rewrite Hsplit. rewrite !map_map. cbn [Server.index mk fst snd].
  split; [exact Hn |]. eexists. split; [reflexivity |].
  cbn [players gameState].
  assert (Hnd : List.NoDup (map fst tied)) by apply contenders_NoDup.
  assert (Hseat : forall i p, In (i, p) tied -> ps !! i = Some (Some p)).
  { intros i p H. apply contenders_seat. apply filter_In in H. tauto. }
  pose proof (share_bound _ _ potNotNegative Hn) as Hshare. fold share in Hshare.
  repeat split.
  - intros i p Hin.
    destruct (credited_share ps _ share i p safeSeats safeSum Hshare (Hseat i p Hin))
      as (_ & _ & <-).
    apply fold_credit_in; auto.
    apply (in_map fst) in Hin. exact Hin.
  - intros i Hnot. apply fold_credit_notin. intros Hin.
    apply in_map_iff in Hin as ([j p] & <- & Hin). exact (Hnot p Hin).
  - rewrite stacks_fold_credit.
    + rewrite length_map. fold n. unfold share.
      pose proof (Z_div_mod_eq_full (amountOf (pot gs)) n). lia.
    + exact Hnd.
    + intros i Hin. apply in_map_iff in Hin as ([j p] & <- & Hin).
      exists p. cbn [fst].
      destruct (credited_share ps _ share j p safeSeats safeSum Hshare (Hseat j p Hin))
        as (Hc & Hs & _).
      auto.
Qed.
End ServerShowdown.

Lemma Qle_bool_false (a b : Q) : Qle_bool a b = false <-> (b < a)%Q.
Proof.
  split.
  - intros H. apply Qnot_le_lt. intros Hle. apply Qle_bool_iff in Hle. congruence.
  - intros H. destruct (Qle_bool a b) eqn:E; [| reflexivity].
    apply Qle_bool_iff in E. lra.
Qed.

Lemma Qeq_bool_le (a b : Q) : Qeq_bool a b = Qle_bool a b && Qle_bool b a.
Proof.
  destruct (Qeq_bool a b) eqn:E.
  - apply Qeq_bool_iff in E. symmetry. apply andb_true_intro.
    split; apply Qle_bool_iff; lra.
  - destruct (Qle_bool a b) eqn:E1; [| reflexivity].
    destruct (Qle_bool b a) eqn:E2; [| reflexivity].
    apply Qle_bool_iff in E1, E2.
    assert (Heq : Qeq_bool a b = true) by (apply Qeq_bool_iff; lra). congruence.
Qed.

Section ClientShowdown.
Variable ps : list (option Player).
Variable board : list Card.
Variable totalPot : Z.
Let tied := clientTied ps board.
Let n := Z.of_nat (length tied).
Let share := totalPot / n.
Hypothesis someContender : contenders ps <> [].
Hypothesis handsHoldCards : forall i p, In (i, p) (contenders ps) -> cards p ++ board <> [].
Hypothesis safeSeats : wholeSeats ps.
Hypothesis potNotNegative : 0 <= totalPot.
Hypothesis safeSum : seatsMagnitude ps + totalPot <= MAX_SAFE_INTEGER.

Let mk (ip : nat * Player) : Client.Evaluation :=
  Client.mkEvaluation (id (snd ip)) (Client.score (clientEval board (snd ip)))
    (Client.name (clientEval board (snd ip))) (fst ip).

Lemma client_showdown_split :
  1 <= n
  /\ exists ps' ws,
      Client.computeWinners ps board (Int totalPot) = Ok (ps', ws)
      /\ (forall i p, In (i, p) tied ->
            ps' !! i = Some (Some (setChips (Int (amountOf (chips p) + share)) p)))
      /\ (forall i, (forall p, ~ In (i, p) tied) -> ps' !! i = ps !! i)
      /\ ws = map (fun ip => mkWinner (id (snd ip))
                               (Client.name (clientEval board (snd ip))) (Int share)) tied
      /\ stacks ps' = stacks ps + (totalPot - totalPot mod n).
Proof.
  unfold Client.computeWinners. fold (contenders ps).
  rewrite (mapM_Ok _ mk).
  2:{ intros [i p] Hin. cbn [snd fst].
      destruct (client_evaluateHand_returns (cards p) board (handsHoldCards i p Hin))
        as [ev Hev].
      unfold mk, clientEval. cbn [snd fst]. now rewrite Hev. }
  cbn [mbind Result_bind].
  set (after := fun a b : Client.Evaluation =>
                  negb (Qle_bool (Client.eScore b) (Client.eScore a))).
  destruct (stableSort after (map mk (contenders ps))) as [| best rest] eqn:Hsorted.
  { exfalso. apply someContender.
    apply length_zero_iff_nil. rewrite <- (length_map mk), <- (stableSort_length after).
    now rewrite Hsorted. }
  assert (Hw : List.filter (fun e => Qeq_bool (Client.eScore e) (Client.eScore best))
                 (stableSort after (map mk (contenders ps))) = map mk tied).
  { rewrite (ties_with_head after
               (fun e b => Qeq_bool (Client.eScore e) (Client.eScore b))) with (rest := rest).
    2:{ intros x y. unfold after. rewrite !negb_true_iff, negb_false_iff.
        rewrite Qle_bool_false, Qle_bool_iff. lra. }
    2:{ intros x y z. unfold after. rewrite !negb_true_iff, !Qle_bool_false. lra. }
    2:{ intros e b. unfold after. rewrite !negb_involutive, Qeq_bool_le. apply andb_comm. }
    2:{ exact Hsorted. }
    rewrite filter_map_comm. f_equal.
    unfold tied, clientTied. apply List.filter_ext. intros ip.
    rewrite forallb_map. apply forallb_pointwise. intros jq. unfold after, mk; cbn.
    apply negb_involutive. }
  assert (Hn : 1 <= n).
  { rewrite Hsorted in Hw. cbn [List.filter] in Hw.
    assert (Hrefl : Qeq_bool (Client.eScore best) (Client.eScore best) = true)
      by (apply Qeq_bool_iff; reflexivity).
    rewrite Hrefl in Hw.
    unfold n. destruct tied; [discriminate | cbn [length]; lia]. }
  rewrite <- Hsorted, Hw.
  rewrite !length_map.
  assert (Hsplit : Js.floor (Js.divByLength (Int totalPot) (length tied)) = Int share).
  { apply floor_divByLength_Int; [| lia].
    pose proof (seatsMagnitude_nonneg ps). lia. }
  rewrite Hsplit. rewrite !map_map. cbn [Client.playerIndex mk fst snd].
  split; [exact Hn |]. do 2 eexists. split; [reflexivity |].
  assert (Hnd : List.NoDup (map fst tied)) by apply contenders_NoDup.
  assert (Hseat : forall i p, In (i, p) tied -> ps !! i = Some (Some p)).
  { intros i p H. apply contenders_seat. apply filter_In in H. tauto. }
  pose proof (share_bound _ _ potNotNegative Hn) as Hshare. fold share in Hshare.
  rewrite client_credit_eq.
  repeat split.
  - intros i p Hin.
    destruct (credited_share ps _ share i p safeSeats safeSum Hshare (Hseat i p Hin))
      as (_ & _ & <-).
    apply fold_credit_in; auto.
    apply (in_map fst) in Hin. exact Hin.
  - intros i Hnot. apply fold_credit_notin. intros Hin.
    apply in_map_iff in Hin as ([j p] & <- & Hin). exact (Hnot p Hin).
  - rewrite stacks_fold_credit.
    + rewrite length_map. fold n. unfold share.
      pose proof (Z_div_mod_eq_full totalPot n). lia.
    + exact Hnd.
    + intros i Hin. apply in_map_iff in Hin as ([j p] & <- & Hin).
      exists p. cbn [fst].
      destruct (credited_share ps _ share j p safeSeats safeSum Hshare (Hseat j p Hin))
        as (Hc & Hs & _).
      auto.
Qed.
End ClientShowdown.

(** C9. The showdown, where the amounts are integers that JavaScript
    numbers hold exactly (the stacks and the pot are integers, the pot is
    not negative, and the stacks, by size, and the pot add up to at most
    [MAX_SAFE_INTEGER]): the contenders tied at the highest score each get
    the floor of the pot divided by their number; one winner record with
    that amount is written per tied player, after the records already there
    on the server; the server then sets the pot to 0; the remainder of the
    division reaches no stack.  [computeWinners] is shown to return, on the
    server and, for any such pot handed to it, on the client. *)
Theorem showdown_split_floor (st : Table) (totalPot : Z) :
  let gs := gameState st in
  let ps := players st in
  let board := communityCards gs in
  contenders ps <> [] ->
  (forall i p, In (i, p) (contenders ps) -> cards p ++ board <> []) ->
  wholeSeats ps ->
  whole (pot gs) ->
  0 <= amountOf (pot gs) ->
  seatsMagnitude ps + amountOf (pot gs) <= MAX_SAFE_INTEGER ->
  0 <= totalPot ->
  seatsMagnitude ps + totalPot <= MAX_SAFE_INTEGER ->
  (exists st',
      Server.computeWinners st = Ok st'
      /\ splitEvenly (serverTied ps board) (amountOf (pot gs)) ps (players st')
      /\ winners (gameState st')
         = winners gs
           ++ map (fun ip => mkWinner (id (snd ip))
                               (Server.name (serverEval board (snd ip)))
                               (Int (amountOf (pot gs)
                                     / Z.of_nat (length (serverTied ps board)))))
                  (serverTied ps board)
      /\ pot (gameState st') = Int 0)
  /\ (exists ps' ws,
      Client.computeWinners ps board (Int totalPot) = Ok (ps', ws)
      /\ splitEvenly (clientTied ps board) totalPot ps ps'
      /\ ws = map (fun ip => mkWinner (id (snd ip))
                               (Client.name (clientEval board (snd ip)))
                               (Int (totalPot / Z.of_nat (length (clientTied ps board)))))
                  (clientTied ps board)).
Proof.
  intros gs ps board Hsome Hcards Hseats Hpot Hpos Hsum Hpos' Hsum'. split.
  - destruct (server_showdown_split st Hsome Hcards Hseats Hpot Hpos Hsum)
      as (Hn & st' & Hrun & Hin & Hout & Hwin & Hzero & Hstacks).
    exists st'. unfold splitEvenly. fold gs ps board. tauto.
  - destruct (client_showdown_split ps board totalPot Hsome Hcards Hseats Hpos' Hsum')
      as (Hn & ps' & ws & Hrun & Hin & Hout & Hwin & Hstacks).
    exists ps', ws. unfold splitEvenly. tauto.
Qed.

Lemma wholeSeats_riverTie : wholeSeats (players riverTie).
Proof.
  intros [| [| [| [| [| [| [| [| [| i]]]]]]]]] p Hp; try discriminate;
    injection Hp as <-; split; reflexivity.
Qed.

Lemma showdown_split_floor_witness :
  exists st',
    Server.computeWinners riverTie = Ok st'
    /\ splitEvenly (serverTied (players riverTie) (communityCards (gameState riverTie)))
         41 (players riverTie) (players st')
    /\ pot (gameState st') = Int 0.
Proof.
  destruct (showdown_split_floor riverTie 41) as [(st' & Hrun & Hsplit & _ & Hpot) _].
  - discriminate.
  - intros i p _. destruct (cards p); discriminate.
  - exact wholeSeats_riverTie.
  - reflexivity.
  - vm_compute. discriminate.
  - vm_compute. discriminate.
  - lia.
  - vm_compute. discriminate.
  - exists st'. auto.
Defined.

Example riverTie_shares :
  length (serverTied (players riverTie) (communityCards (gameState riverTie))) = 2%nat
  /\ (fun st' => (option_map chips (seatAt (players st') 0),
                 option_map chips (seatAt (players st') 1),
                 option_map chips (seatAt (players st') 2),
                 map amount (winners (gameState st')), pot (gameState st')))
       <$> (match Server.computeWinners riverTie with Ok t => Some t | Fail _ => None end)
     = Some (Some (Int 1000), Some (Int 1000), Some (Int 999), [Int 20; Int 20], Int 0).
Proof. split; vm_compute; reflexivity. Qed.

(** Above [MAX_SAFE_INTEGER] the split is not the floor.  Three players tie
    for a pot of 13510798882111490 chips, a number that JavaScript holds:
    the floor of a third is 4503599627370496, but the quotient is rounded
    before [Math.floor] sees it and every stack is credited
    4503599627370497, on the server and on the client: one chip more than
    the pot holds leaves it. *)
Theorem split_exceeds_pot :
  pot (gameState bigPotTie) = Int 13510798882111490
  /\ length (serverTied (players bigPotTie) (communityCards (gameState bigPotTie))) = 3%nat
  /\ length (clientTied (players bigPotTie) (communityCards (gameState bigPotTie))) = 3%nat
  /\ 13510798882111490 / 3 = 4503599627370496
  /\ stacks (players bigPotTie) = 0
  /\ (exists st',
        Server.computeWinners bigPotTie = Ok st'
        /\ map (option_map chips) (players st')
           = [Some (Int 4503599627370497); Some (Int 4503599627370497);
              Some (Int 4503599627370497); None; None; None; None; None; None]
        /\ map amount (winners (gameState st'))
           = [Int 4503599627370497; Int 4503599627370497; Int 4503599627370497]
        /\ stacks (players st') = 13510798882111491)
  /\ (exists ps' ws,
        Client.computeWinners (players bigPotTie) (communityCards (gameState bigPotTie))
          (pot (gameState bigPotTie)) = Ok (ps', ws)
        /\ map (option_map chips) ps'
           = [Some (Int 4503599627370497); Some (Int 4503599627370497);
              Some (Int 4503599627370497); None; None; None; None; None; None]
        /\ stacks ps' = 13510798882111491).
Proof.
  repeat (split; [vm_compute; reflexivity |]).
  split.
  - eexists. split; [vm_compute; reflexivity |]. vm_compute. repeat split.
  - do 2 eexists. split; [vm_compute; reflexivity |]. vm_compute. repeat split.
Qed.

(** * The deck *)

(** ** A draw times a count, rounded *)

(** A ratio [a/d] below [n] by at least [n / 2^53], as the product of a
    double below 1 and a count [n] is, rounds to a double below [n]. *)
Lemma round_below (a : Z) (d : positive) (n : Z) :
  0 < a -> 1 <= n <= 2 ^ 53 ->
  a * 2 ^ 53 <= n * (2 ^ 53 - 1) * Zpos d ->
  exists v, Js.roundToDouble (a # d) = Finite v /\ 0 <= Qfloor v <= n - 1.
Proof.
  intros Ha Hn Hq.
  unfold Js.roundToDouble. cbn [Qnum Qden].
  destruct (Z.eqb_spec a 0) as [| _]; [lia |].
  rewrite (Z.abs_eq a) by lia. rewrite (Z.sgn_pos a Ha), Z.mul_1_l.
  set (D := Zpos d) in *. assert (HD : 0 < D) by (unfold D; lia).
  assert (HaD : a < n * D) by nia.
  destruct (binaryExponent_spec a D Ha HD) as (Hk & Hl & Hlo & Hhi).
  set (k := Z.log2 D + 1) in *.
  set (e := Js.binaryExponent a D) in *.
  set (l := e + k) in *.
  assert (Hpk : 0 < 2 ^ k) by (apply Z.pow_pos_nonneg; lia).
  assert (Hpl : 0 < 2 ^ l) by (apply Z.pow_pos_nonneg; lia).
  assert (Hln : 2 ^ l < n * 2 ^ k) by nia.
  assert (He : e <= 52).
  { assert (H1 : 2 ^ l < 2 ^ (53 + k)).
    { rewrite Z.pow_add_r by lia. nia. }
    apply pow2_lt_inv in H1; lia. }
  set (s := Z.max (e - 52) (-1074)).
  assert (Hs : s <= 0) by (unfold s; lia).
  rewrite (Z.max_r 0 (- s)) by lia. rewrite (Z.max_l 0 s) by lia.
  change (2 ^ 0) with 1. rewrite !Z.mul_1_r.
  set (t := - s) in *. assert (Ht : 0 <= t) by (unfold t; lia).
  assert (Hpt : 0 < 2 ^ t) by (apply Z.pow_pos_nonneg; lia).
  (* the scaled quotient stays below 2^53 *)
  assert (HB : a * 2 ^ t < 2 ^ 53 * D).
  { assert (Hu : 0 <= 52 - e) by lia.
    assert (Hpu : 0 < 2 ^ (52 - e)) by (apply Z.pow_pos_nonneg; lia).
    assert (Hle : 2 ^ t <= 2 ^ (52 - e)) by (apply Z.pow_le_mono_r; unfold t, s; lia).
    assert (H1 : a * 2 ^ (52 - e) * 2 ^ l = a * 2 ^ k * 2 ^ 52).
    { replace (a * 2 ^ (52 - e) * 2 ^ l) with (a * (2 ^ (52 - e) * 2 ^ l)) by ring.
      rewrite <- Z.pow_add_r by lia. replace (52 - e + l) with (k + 52) by (unfold l; lia).
      rewrite Z.pow_add_r by lia. ring. }
    assert (H2 : 2 ^ (l + 1) * D * 2 ^ 52 = 2 ^ 53 * D * 2 ^ l).
    { rewrite Z.pow_add_r by lia. change (2 ^ 53) with (2 ^ 52 * 2). change (2 ^ 1) with 2. ring. }
    assert (H3 : a * 2 ^ (52 - e) * 2 ^ l < 2 ^ 53 * D * 2 ^ l).
    { rewrite H1, <- H2. apply Z.mul_lt_mono_pos_r; [lia | exact Hhi]. }
    apply Z.mul_lt_mono_pos_r in H3; [| exact Hpl].
    assert (a * 2 ^ t <= a * 2 ^ (52 - e)) by (apply Z.mul_le_mono_nonneg_l; lia).
    lia. }
  destruct (nearestEven_bounds (a * 2 ^ t) D HD) as [[Hm1 Hm2] Hup].
  set (M := Js.nearestEven (a * 2 ^ t) D) in *.
  set (qt := a * 2 ^ t / D) in *.
  assert (Hqt0 : 0 <= qt) by (apply Z.div_pos; nia).
  assert (Hqt53 : qt < 2 ^ 53) by (apply Z.div_lt_upper_bound; lia).
  assert (Hqtn : qt < n * 2 ^ t).
  { apply Z.div_lt_upper_bound; [exact HD |]. nia. }
  destruct (Z.leb_spec (2 ^ 1024) M) as [Hov | _].
  { assert (2 ^ 53 < 2 ^ 1024) by (apply Z.pow_lt_mono_r; lia). lia. }
  eexists. split; [reflexivity |].
  rewrite (Qfloor_comp _ _ (Qred_correct _)).
  replace s with (- t) by (unfold t; lia). rewrite floor_scaled by exact Ht.
  split; [apply Z.div_pos; lia |].
  assert (HM : M < n * 2 ^ t).
  { destruct (Z.eq_dec M (qt + 1)) as [Eup | ]; [| lia].
    destruct (Z.eq_dec (qt + 1) (n * 2 ^ t)) as [Etop | ]; [exfalso | lia].
    specialize (Hup Eup).
    pose proof (Z.div_mod (a * 2 ^ t) D ltac:(lia)) as Hdm2. fold qt in Hdm2.
    set (r := (a * 2 ^ t) mod D) in *.
    assert (Hgap : 2 ^ (t + 1) * (n * D - a) <= D).
    { rewrite Z.pow_add_r by lia. change (2 ^ 1) with 2. nia. }
    assert (Hn53 : 2 ^ (t + 1) * n <= 2 ^ 53).
    { assert (Hpt1 : 0 < 2 ^ (t + 1)) by (apply Z.pow_pos_nonneg; lia).
      assert (H1 : n * D <= (n * D - a) * 2 ^ 53) by lia.
      assert (H2 : 2 ^ (t + 1) * (n * D) <= 2 ^ (t + 1) * ((n * D - a) * 2 ^ 53))
        by (apply Z.mul_le_mono_nonneg_l; lia).
      assert (H3 : 2 ^ (t + 1) * (n * D - a) * 2 ^ 53 <= D * 2 ^ 53)
        by (apply Z.mul_le_mono_nonneg_r; lia).
      assert (H4 : (2 ^ (t + 1) * n) * D <= 2 ^ 53 * D) by lia.
      apply Z.mul_le_mono_pos_r in H4; [exact H4 | exact HD]. }
    destruct (Z_le_gt_dec (-1074) (e - 52)) as [Hnorm | Hsub].
    - assert (Et : t = 52 - e) by (unfold t, s; lia).
      assert (H1 : 2 ^ (t + 1) * 2 ^ l < 2 ^ (t + 1) * (n * 2 ^ k)).
      { apply Z.mul_lt_mono_pos_l; [apply Z.pow_pos_nonneg; lia | exact Hln]. }
      rewrite <- Z.pow_add_r in H1 by lia.
      replace (t + 1 + l) with (53 + k) in H1 by (unfold l; lia).
      rewrite Z.pow_add_r in H1 by lia. nia.
    - assert (Et : t = 1074) by (unfold t, s; lia).
      assert (2 ^ 53 < 2 ^ (t + 1)) by (apply Z.pow_lt_mono_r; lia). nia. }
  assert (M / 2 ^ t < n); [| lia].
  apply Z.div_lt_upper_bound; [exact Hpt |]. lia.
Qed.

(** [Math.floor(Math.random() * n)] is an index below [n]. *)
Lemma random_index (x : Num) (n : Z) :
  unitDraw x -> 1 <= n <= 2 ^ 53 ->
  exists j, toIndex (Js.floor (Js.mul x (Int n))) = Some j /\ (Z.of_nat j < n).
Proof.
  intros (q & -> & H0 & H1) Hn. unfold Js.mul, Int.
  destruct q as [a d]. unfold Qle in H0, H1. cbn [Qnum Qden largestBelowOne] in H0, H1.
  assert (Hprod : Qmult (a # d) (inject_Z n) = Qmake (a * n) d).
  { unfold Qmult, inject_Z. cbn [Qnum Qden]. now rewrite Pos.mul_1_r. }
  rewrite Hprod.
  destruct (Z.eq_dec a 0) as [-> | Hnz].
  - exists 0%nat. split; [now rewrite Z.mul_0_l | lia].
  - destruct (round_below (a * n) d n) as (v & -> & Hv0 & Hv1).
    + nia.
    + exact Hn.
    + change (Z.pos (2 ^ 53)) with (2 ^ 53) in H1. nia.
    + exists (Z.to_nat (Qfloor v)). unfold Js.floor, toIndex, Int, inject_Z.
      cbn [Qnum Qden Pos.eqb andb].
      destruct (Z.leb_spec 0 (Qfloor v)); [| lia].
      split; [reflexivity | lia].
Qed.

(** ** [shuffleDeck] *)

Lemma insert_Permutation_delete {A} (l : list A) (i : nat) (x y : A) :
  l !! i = Some x -> <[i := y]> l ≡ₚ y :: delete i l.
Proof.
  intros H. pose proof (lookup_lt_Some _ _ _ H) as Hlt.
  assert (Hy : <[i := y]> l !! i = Some y) by now apply list_lookup_insert_eq.
  rewrite (delete_Permutation _ _ _ Hy). f_equiv.
  rewrite !delete_take_drop. rewrite take_insert_ge by lia. rewrite drop_insert_lt by lia. reflexivity.
Qed.

Lemma swap_Permutation {A} (l : list A) (i j : nat) (ci cj : A) :
  l !! i = Some ci -> l !! j = Some cj ->
  <[j := ci]> (<[i := cj]> l) ≡ₚ l.
Proof.
  intros Hi Hj.
  set (l' := <[i := cj]> l).
  assert (Hj' : l' !! j = Some cj).
  { unfold l'. destruct (decide (i = j)) as [-> | Hne].
    - apply list_lookup_insert_eq. now apply lookup_lt_Some in Hi.
    - now rewrite list_lookup_insert_ne. }
  rewrite (insert_Permutation_delete l' j cj ci Hj').
  rewrite (delete_Permutation l i ci Hi). f_equiv.
  apply (Permutation_cons_inv (a := cj)).
  rewrite <- (delete_Permutation l' j cj Hj').
  unfold l'. now rewrite (insert_Permutation_delete l i ci cj Hi).
Qed.

Lemma shuffleFrom_Permutation (i : nat) :
  forall (random : nat -> Num) (newDeck : list Card),
    (forall n, unitDraw (random n)) ->
    (i < length newDeck)%nat ->
    Z.of_nat (length newDeck) <= 2 ^ 53 ->
    exists shuffled, shuffleFrom i random newDeck = Ok shuffled /\ shuffled ≡ₚ newDeck.
Proof.
  induction i as [| i IH]; intros random newDeck Hr Hi Hlen.
  - exists newDeck. split; reflexivity.
  - cbn [shuffleFrom].
    destruct (random_index (random 0%nat) (Z.of_nat (S i) + 1) (Hr 0%nat) ltac:(lia))
      as (j & -> & Hj).
    destruct (lookup_lt_is_Some_2 newDeck (S i) Hi) as [ci Hci].
    destruct (lookup_lt_is_Some_2 newDeck j ltac:(lia)) as [cj Hcj].
    rewrite Hcj, Hci.
    destruct (IH (fun n => random (S n)) (<[j := ci]> (<[S i := cj]> newDeck)))
      as (shuffled & -> & Hp).
    + intros n. apply Hr.
    + rewrite !length_insert. lia.
    + rewrite !length_insert. exact Hlen.
    + exists shuffled. split; [reflexivity |].
      rewrite Hp. now apply swap_Permutation.
Qed.

(** X1. [shuffleDeck], in both copies: whatever [Math.random] draws, the
    shuffle returns, and the shuffled deck holds the cards of the deck it
    was given, each as often as before. *)
Theorem shuffleDeck_reorders (random : nat -> Num) (deck : list Card) :
  (forall n, unitDraw (random n)) ->
  Z.of_nat (length deck) <= 2 ^ 53 ->
  exists shuffled, shuffleDeck random deck = Ok shuffled /\ shuffled ≡ₚ deck.
Proof.
  intros Hr Hlen. unfold shuffleDeck. destruct deck as [| c deck].
  - exists []. split; reflexivity.
  - apply shuffleFrom_Permutation; [exact Hr | simpl; lia | exact Hlen].
Qed.

Lemma unitDraw_halves (n : nat) : unitDraw (halves n).
Proof. exists (1 # 2)%Q. split; [reflexivity |]. split; discriminate. Qed.

Lemma shuffleDeck_reorders_witness :
  exists shuffled, shuffleDeck halves createDeck = Ok shuffled /\ shuffled ≡ₚ createDeck.
Proof.
  apply (shuffleDeck_reorders halves createDeck).
  - exact unitDraw_halves.
  - vm_compute. discriminate.
Defined.

(** X2. [shuffleDeck(createDeck())], as [startGame] and [startNewHand] call
    it: the deck dealt from holds 52 cards, no card twice, and every card
    of the four suits and thirteen ranks. *)
Theorem shuffled_createDeck_complete (random : nat -> Num) :
  (forall n, unitDraw (random n)) ->
  exists shuffled,
    shuffleDeck random createDeck = Ok shuffled
    /\ length shuffled = 52%nat
    /\ List.NoDup shuffled
    /\ forall c, In c shuffled.
Proof.
  intros Hr.
  destruct (shuffleFrom_Permutation 51 random createDeck Hr) as (shuffled & Hs & Hp);
    [vm_compute; lia | vm_compute; discriminate |].
  exists shuffled. split; [exact Hs |].
  split; [now rewrite Hp |].
  split.
  - apply NoDup_ListNoDup. rewrite Hp.
    apply (bool_decide_unpack (NoDup createDeck)). vm_compute. exact I.
  - intros c. apply list_elem_of_In. rewrite Hp. apply list_elem_of_In.
    destruct c as [[] []]; vm_compute; tauto.
Qed.

Lemma shuffled_createDeck_complete_witness :
  exists shuffled,
    shuffleDeck halves createDeck = Ok shuffled
    /\ length shuffled = 52%nat
    /\ List.NoDup shuffled
    /\ forall c, In c shuffled.
Proof. exact (shuffled_createDeck_complete halves unitDraw_halves). Defined.

(** * More on the hand evaluator *)



(** ** No cards *)

(** X3. [evaluateHand], in both copies, throws exactly on a hand without
    any card, where the High Card rung reads [cards[0].value]; on every
    other hand, of any size, it returns. *)
Theorem evaluateHand_throws_exactly_without_cards (hole board : list Card) :
  (Server.evaluateHand hole board = None <-> hole ++ board = [])
  /\ (Client.evaluateHand hole board = None <-> hole ++ board = []).
Proof.
  split; split.
  - intros H. destruct (hole ++ board) as [| c l] eqn:E; [reflexivity |].
    destruct (server_evaluateHand_returns hole board) as [ev Hev]; [now rewrite E | congruence].
  - intros H. apply app_eq_nil in H as [-> ->]. reflexivity.
  - intros H. destruct (hole ++ board) as [| c l] eqn:E; [reflexivity |].
    destruct (client_evaluateHand_returns hole board) as [ev Hev]; [now rewrite E | congruence].
  - intros H. apply app_eq_nil in H as [-> ->]. reflexivity.
Qed.

(** ** Categories and bands *)

Ltac category_value :=
  repeat match goal with
         | |- context [categoryOf ?s] =>
             let v := eval vm_compute in (categoryOf s) in
             change (categoryOf s) with v
         end.

Lemma server_category_band (hole board : list Card) (ev : Server.HandEval) :
  Server.evaluateHand hole board = Some ev ->
  categoryOf (Server.name ev) * 1000000 <= Server.score ev
    < categoryOf (Server.name ev) * 1000000 + 15.
Proof.
  unfold Server.evaluateHand.
  set (cards := sortDesc value (hole ++ board)).
  assert (Hstr : forall cs, 0 <= default 0 (Server.isStraight cs) <= 14).
  { intros cs. destruct (Server.isStraight cs) as [h |] eqn:E; simpl; [| lia].
    apply server_isStraight_bounds in E. lia. }
  pose proof (Hstr cards).
  pose proof (ranks_value_bounds
                (fun r => Nat.eqb (length (List.filter (fun c => value c =? r) cards)) 3)
                cards 0) as Htrips.
  pose proof (ranks_value_bounds
                (fun r => Nat.eqb (length (List.filter (fun c => value c =? r) cards)) 2)
                cards 0) as Hpairs.
  destruct (Server.isFlush cards) as [fc |]; [pose proof (Hstr fc) |].
  all: destruct (List.find _ _) as [q |] eqn:Hq;
    [apply find_value_bounds in Hq |].
  all: repeat match goal with
              | |- context [if ?c then _ else _] => destruct c
              | |- context [match ?l with [] => _ | _ :: _ => _ end] =>
                  let c := fresh "c" in destruct l as [| c ?]; [| pose proof (value_bounds c)]
              end.
  all: intros Hev; try discriminate Hev; injection Hev as <-;
    cbn [Server.name Server.score]; category_value; lia.
Qed.

Lemma client_category_band (hole board : list Card) (ev : Client.HandEval) :
  Client.evaluateHand hole board = Some ev ->
  (inject_Z (categoryOf (Client.name ev) * 1000000) <= Client.score ev)%Q
  /\ (Client.score ev < inject_Z (categoryOf (Client.name ev) * 1000000 + 20000))%Q.
Proof.
  unfold Client.evaluateHand.
  set (cards := sortDesc value (hole ++ board)).
  assert (Hstr : forall cs, 0 <= default 0 (Client.isStraight cs) <= 14).
  { intros cs. destruct (Client.isStraight cs) as [h |] eqn:E; simpl; [| lia].
    pose proof (client_isStraight_spec cs) as Hs. rewrite E in Hs.
    destruct Hs as [Hrun _]. pose proof (holdsRun_low _ _ Hrun).
    destruct (Hrun 0 ltac:(lia)) as (c & _ & Hv). pose proof (value_bounds c). lia. }
  pose proof (Hstr cards).
  set (P3 := fun r => Nat.eqb (Client.countRanks cards r) 3).
  set (P2 := fun r => Nat.eqb (Client.countRanks cards r) 2).
  pose proof (ranks_value_bounds P3 cards 0) as Htrips0.
  pose proof (ranks_value_bounds P3 cards 1) as Htrips1.
  pose proof (ranks_value_bounds P2 cards 0) as Hpairs0.
  pose proof (ranks_value_bounds P2 cards 1) as Hpairs1.
  set (t0 := default 0 (_ !! 0%nat)) in Htrips0.
  set (t1 := default 0 (_ !! 1%nat)) in Htrips1.
  set (p0 := default 0 (_ !! 0%nat)) in Hpairs0.
  set (p1 := default 0 (_ !! 1%nat)) in Hpairs1.
  pose proof (kickerReduce_bounds
                (take 3 (List.filter (fun c => negb (value c =? p0)) cards))
                ltac:(rewrite length_take; lia)) as Hk.
  destruct (Client.isFlush cards) as [fc |]; [pose proof (Hstr fc) |].
  all: destruct (List.find _ (integerKeys _)) as [q |] eqn:Hq;
    [apply find_value_bounds in Hq |].
  all: repeat match goal with
              | |- context [Client.valueOr0 ?o] =>
                  pose proof (valueOr0_bounds o);
                  let x := fresh "kicker" in set (x := Client.valueOr0 o) in *; clearbody x
              end.
  all: repeat match goal with
              | |- context [if ?c then _ else _] => destruct c
              | |- context [match ?l with [] => _ | _ :: _ => _ end] =>
                  let c := fresh "c" in destruct l as [| c ?]; [| pose proof (value_bounds c)]
              end.
  all: intros Hev; try discriminate Hev; injection Hev as <-;
    cbn [Client.name Client.score]; category_value.
  all: fold P3 P2; fold t0 t1 p0 p1.
  all: try (rewrite <- Zle_Qle, <- Zlt_Qlt; lia).
  all: rewrite inject_Z_plus.
  all: set (k := Client.kickerReduce _ _ _) in *; clearbody k.
  all: assert (Hp : (0 <= inject_Z (p0 * 100) /\ inject_Z (p0 * 100) <= 1400)%Q)
    by (split; [change 0%Q with (inject_Z 0) | change 1400%Q with (inject_Z 1400)];
        rewrite <- Zle_Qle; lia).
  all: set (x := inject_Z (p0 * 100)) in *; clearbody x.
  all: change (inject_Z (2 * 1000000)) with 2000000%Q;
    change (inject_Z 2000000) with 2000000%Q;
    change (inject_Z (2 * 1000000 + 20000)) with 2020000%Q; lra.
Qed.

(** X4. Both evaluators: the score of a hand lies in the band of a million
    of its category, so a hand of a higher category outscores every hand of
    a lower one, whatever the ranks and kickers. *)
Theorem higher_category_outscores (hole1 board1 hole2 board2 : list Card) :
  (forall a b,
      Server.evaluateHand hole1 board1 = Some a -> Server.evaluateHand hole2 board2 = Some b ->
      categoryOf (Server.name a) < categoryOf (Server.name b) ->
      Server.score a < Server.score b)
  /\ (forall a b,
      Client.evaluateHand hole1 board1 = Some a -> Client.evaluateHand hole2 board2 = Some b ->
      categoryOf (Client.name a) < categoryOf (Client.name b) ->
      (Client.score a < Client.score b)%Q).
Proof.
  split; intros a b Ha Hb Hlt.
  - pose proof (server_category_band _ _ _ Ha). pose proof (server_category_band _ _ _ Hb).
    lia.
  - destruct (client_category_band _ _ _ Ha) as [_ Hhi].
    destruct (client_category_band _ _ _ Hb) as [Hlo _].
    eapply Qlt_le_trans; [exact Hhi |]. eapply Qle_trans; [| exact Hlo].
    rewrite <- Zle_Qle. lia.
Qed.

Lemma higher_category_outscores_witness :
  Server.score (Server.mkEval 5000005 "Straight") < Server.score (Server.mkEval 8000013 "Four of a Kind")
  /\ (Client.score (Client.mkEval (inject_Z 5000005) "Straight")
      < Client.score (Client.mkEval (inject_Z 8001304) "Four of a Kind"))%Q.
Proof.
  split.
  - exact (proj1 (higher_category_outscores wheelHole wheelBoard fourKingsHole fourKingsBoard)
             _ _ eq_refl eq_refl eq_refl).
  - exact (proj2 (higher_category_outscores wheelHole wheelBoard fourKingsHole fourKingsBoard)
             _ _ eq_refl eq_refl eq_refl).
Defined.





(** ** The order of the cards *)

Lemma sortInsert_Permutation {A} (after : A -> A -> bool) (x : A) (l : list A) :
  sortInsert after x l ≡ₚ x :: l.
Proof.
  induction l as [| y l IH]; simpl; [reflexivity |].
  destruct (after x y); [| reflexivity].
  rewrite IH. apply perm_swap.
Qed.

Lemma stableSort_Permutation {A} (after : A -> A -> bool) (l : list A) :
  stableSort after l ≡ₚ l.
Proof.
  induction l as [| x l IH]; simpl; [reflexivity |].
  now rewrite sortInsert_Permutation, IH.
Qed.

Lemma filter_Permutation_list {A} (P : A -> bool) (l l' : list A) :
  l ≡ₚ l' -> List.filter P l ≡ₚ List.filter P l'.
Proof.
  induction 1 as [| x l l' _ IH | x y l | l l' l'' _ IH1 _ IH2]; simpl.
  - reflexivity.
  - destruct (P x); [now rewrite IH | exact IH].
  - destruct (P x), (P y); try reflexivity. apply perm_swap.
  - now rewrite IH1.
Qed.

Lemma descending_Permutation_eq (l1 l2 : list Z) :
  StronglySorted (fun a b => b <= a) l1 ->
  StronglySorted (fun a b => b <= a) l2 ->
  l1 ≡ₚ l2 -> l1 = l2.
Proof.
  intros H1. revert l2. induction H1 as [| a l1 Hs1 IH Hall1]; intros l2 H2 Hp.
  - now apply Permutation_nil in Hp.
  - destruct l2 as [| b l2]; [apply Permutation_sym, Permutation_nil in Hp; discriminate |].
    apply StronglySorted_inv in H2 as [Hs2 Hall2].
    rewrite List.Forall_forall in Hall1, Hall2.
    assert (a = b) as ->.
    { assert (Ha : In a (b :: l2)) by (eapply Permutation_in; [exact Hp | now left]).
      assert (Hb : In b (a :: l1))
        by (eapply Permutation_in; [symmetry; exact Hp | now left]).
      destruct Ha as [-> | Ha]; [reflexivity |].
      destruct Hb as [-> | Hb]; [reflexivity |].
      specialize (Hall1 _ Hb). specialize (Hall2 _ Ha). lia. }
    f_equal. apply IH; [exact Hs2 | now apply Permutation_cons_inv in Hp].
Qed.

Lemma descending_values (cs : list Card) :
  StronglySorted (fun a b => value b <= value a) cs ->
  StronglySorted (fun a b => b <= a) (map value cs).
Proof.
  induction 1 as [| c cs Hs IH Hall]; simpl; constructor; [exact IH |].
  rewrite List.Forall_forall in *. intros v Hv.
  apply in_map_iff in Hv as (c' & <- & Hc'). now apply Hall.
Qed.

Lemma sameValues_of_map (cs cs' : list Card) :
  map value cs = map value cs' -> sameValues cs cs'.
Proof.
  revert cs'. induction cs as [| c cs IH]; intros [| c' cs'] H; try discriminate.
  - constructor.
  - injection H as Hv Ht. constructor; [exact Hv | now apply IH].
Qed.

(** Sorting by value, then keeping the cards a test lets through: the values
    that come out do not depend on the order of the input. *)
Lemma sorted_values_of_Permutation (P : Card -> bool) (l l' : list Card) :
  l ≡ₚ l' ->
  sameValues (List.filter P (sortDesc value l)) (List.filter P (sortDesc value l')).
Proof.
  intros Hp. apply sameValues_of_map, descending_Permutation_eq.
  - apply descending_values, StronglySorted_filter, sortDesc_sorted.
  - apply descending_values, StronglySorted_filter, sortDesc_sorted.
  - apply Permutation_map, filter_Permutation_list.
    unfold sortDesc. now rewrite !stableSort_Permutation.
Qed.

Lemma filter_true {A} (l : list A) : List.filter (fun _ => true) l = l.
Proof. induction l as [| x l IH]; simpl; congruence. Qed.

Lemma suitCount_Permutation (s : Suit) (l l' : list Card) :
  l ≡ₚ l' -> suitCount s l = suitCount s l'.
Proof. intros Hp. unfold suitCount. now rewrite (filter_Permutation_list _ _ _ Hp). Qed.

Lemma suitCount_two (s s' : Suit) (l : list Card) :
  s <> s' -> (suitCount s l + suitCount s' l <= length l)%nat.
Proof.
  intros Hne. unfold suitCount. induction l as [| c l IH]; simpl; [lia |].
  destruct (bool_decide_reflect (suit c = s)), (bool_decide_reflect (suit c = s'));
    simpl; try lia. congruence.
Qed.

Lemma find_pointwise {A} (f g : A -> bool) (l : list A) :
  (forall x, f x = g x) -> List.find f l = List.find g l.
Proof. intros H. induction l as [| x l IH]; simpl; [reflexivity |]. now rewrite H, IH. Qed.

Lemma find_unique {A} (P : A -> bool) (l l' : list A) :
  (forall x y, P x = true -> P y = true -> x = y) ->
  (forall x, In x l <-> In x l') ->
  List.find P l = List.find P l'.
Proof.
  intros Huniq Hin.
  destruct (List.find P l) as [x |] eqn:E, (List.find P l') as [y |] eqn:E'.
  - apply find_some in E as [_ Hx]. apply find_some in E' as [_ Hy]. f_equal. now apply Huniq.
  - apply find_some in E as [Hx HP]. apply Hin in Hx.
    rewrite (find_none _ _ E' _ Hx) in HP. discriminate.
  - apply find_some in E' as [Hy HP]. apply Hin in Hy.
    rewrite (find_none _ _ E _ Hy) in HP. discriminate.
  - reflexivity.
Qed.

(** With nine cards or fewer at most one suit holds five, and [isFlush]
    keeps the same values whatever the order of the input. *)
Lemma isFlush_of_Permutation (l l' : list Card) :
  l ≡ₚ l' -> (length l <= 9)%nat ->
  option_Forall2 sameValues
    (Server.isFlush (sortDesc value l)) (Server.isFlush (sortDesc value l')).
Proof.
  intros Hp Hlen. unfold Server.isFlush. cbn zeta.
  assert (Hs : forall s', sortDesc value s' ≡ₚ s')
    by (intros s'; apply stableSort_Permutation).
  assert (Hcount : forall s, suitCount s (sortDesc value l) = suitCount s (sortDesc value l')).
  { intros s. apply suitCount_Permutation. now rewrite !Hs. }
  fold (suitCount) in *.
  change (fun s => (5 <=? length (List.filter (fun c => bool_decide (suit c = s))
                                    (sortDesc value l)))%nat)
    with (fun s => (5 <=? suitCount s (sortDesc value l))%nat).
  change (fun s => (5 <=? length (List.filter (fun c => bool_decide (suit c = s))
                                    (sortDesc value l')))%nat)
    with (fun s => (5 <=? suitCount s (sortDesc value l'))%nat).
  rewrite (find_pointwise (fun s => (5 <=? suitCount s (sortDesc value l'))%nat)
             (fun s => (5 <=? suitCount s (sortDesc value l))%nat))
    by (intros s; now rewrite Hcount).
  rewrite (find_unique _ (setOf (map suit (sortDesc value l)))
             (setOf (map suit (sortDesc value l')))).
  - destruct (List.find _ _) as [s |]; constructor.
    apply Forall2_take. now apply sorted_values_of_Permutation.
  - intros s s' H1 H2. apply Nat.leb_le in H1, H2.
    destruct (decide (s = s')) as [| Hne]; [assumption | exfalso].
    pose proof (suitCount_two s s' (sortDesc value l) Hne) as Hsum.
    rewrite sortDesc_length in Hsum. lia.
  - intros s. rewrite !setOf_In, !in_map_iff.
    split; intros (c & Hc & Hi); exists c; (split; [exact Hc |]).
    + eapply Permutation_in; [| exact Hi]. now rewrite !Hs.
    + eapply Permutation_in; [| exact Hi]. now rewrite !Hs.
Qed.

Lemma sameValues_map (cs cs' : list Card) :
  sameValues cs cs' -> map value cs = map value cs'.
Proof. induction 1; simpl; congruence. Qed.

Lemma sameValues_filter (P : Z -> bool) (cs cs' : list Card) :
  sameValues cs cs' ->
  sameValues (List.filter (fun c => P (value c)) cs) (List.filter (fun c => P (value c)) cs').
Proof.
  induction 1 as [| c c' cs cs' Hv _ IH]; simpl; [constructor |].
  rewrite Hv. destruct (P (value c')); [now constructor | exact IH].
Qed.

Lemma sameValues_count (v : Z) (cs cs' : list Card) :
  sameValues cs cs' ->
  length (List.filter (fun c => value c =? v) cs)
  = length (List.filter (fun c => value c =? v) cs').
Proof.
  intros H. apply (Forall2_length (fun c c' => value c = value c')).
  exact (sameValues_filter (fun x => x =? v) _ _ H).
Qed.

Lemma sameValues_find (P : Z -> bool) (cs cs' : list Card) :
  sameValues cs cs' ->
  Client.valueOr0 (List.find (fun c => P (value c)) cs)
  = Client.valueOr0 (List.find (fun c => P (value c)) cs').
Proof.
  induction 1 as [| c c' cs cs' Hv _ IH]; simpl; [reflexivity |].
  rewrite Hv. destruct (P (value c')); [exact Hv | exact IH].
Qed.

Lemma sameValues_lookup (i : nat) (cs cs' : list Card) :
  sameValues cs cs' -> Client.valueOr0 (cs !! i) = Client.valueOr0 (cs' !! i).
Proof.
  intros H. revert i. induction H as [| c c' cs cs' Hv _ IH]; intros [| i]; simpl; auto.
Qed.

Lemma sameValues_kickerReduce (cs cs' : list Card) :
  sameValues cs cs' ->
  forall i acc, Client.kickerReduce i cs acc = Client.kickerReduce i cs' acc.
Proof.
  induction 1 as [| c c' cs cs' Hv _ IH]; intros i acc; simpl; [reflexivity |].
  now rewrite Hv, IH.
Qed.

Lemma server_evaluateHand_values (hole board hole' board' : list Card) :
  sameValues (sortDesc value (hole ++ board)) (sortDesc value (hole' ++ board')) ->
  option_Forall2 sameValues
    (Server.isFlush (sortDesc value (hole ++ board)))
    (Server.isFlush (sortDesc value (hole' ++ board'))) ->
  Server.evaluateHand hole board = Server.evaluateHand hole' board'.
Proof.
  unfold Server.evaluateHand.
  generalize (sortDesc value (hole ++ board)) (sortDesc value (hole' ++ board')).
  intros cs cs' Hv Hf. cbn zeta.
  pose proof (sameValues_map _ _ Hv) as Hmap.
  rewrite (find_pointwise
             (fun r => Nat.eqb (length (List.filter (fun c => value c =? r) cs)) 4)
             (fun r => Nat.eqb (length (List.filter (fun c => value c =? r) cs')) 4))
    by (intros r; now rewrite (sameValues_count r _ _ Hv)).
  rewrite (List.filter_ext
             (fun r => Nat.eqb (length (List.filter (fun c => value c =? r) cs)) 3)
             (fun r => Nat.eqb (length (List.filter (fun c => value c =? r) cs')) 3))
    by (intros r; now rewrite (sameValues_count r _ _ Hv)).
  rewrite (List.filter_ext
             (fun r => Nat.eqb (length (List.filter (fun c => value c =? r) cs)) 2)
             (fun r => Nat.eqb (length (List.filter (fun c => value c =? r) cs')) 2))
    by (intros r; now rewrite (sameValues_count r _ _ Hv)).
  assert (Hst : forall a a', sameValues a a' -> Server.isStraight a = Server.isStraight a').
  { intros a a' H. unfold Server.isStraight. now rewrite (sameValues_map _ _ H). }
  rewrite (Hst _ _ Hv), Hmap.
  destruct Hf as [fc fc' Hfc |].
  - rewrite (Hst _ _ Hfc).
    destruct Hfc as [| c c' fc fc' Hc _]; [reflexivity | now rewrite Hc].
  - destruct Hv as [| c c' cs cs' Hc _]; [reflexivity | now rewrite Hc].
Qed.

Lemma client_evaluateHand_values (hole board hole' board' : list Card) :
  sameValues (sortDesc value (hole ++ board)) (sortDesc value (hole' ++ board')) ->
  option_Forall2 sameValues
    (Server.isFlush (sortDesc value (hole ++ board)))
    (Server.isFlush (sortDesc value (hole' ++ board'))) ->
  Client.evaluateHand hole board = Client.evaluateHand hole' board'.
Proof.
  unfold Client.evaluateHand.
  generalize (sortDesc value (hole ++ board)) (sortDesc value (hole' ++ board')).
  intros cs cs' Hv Hf. cbn zeta.
  rewrite (client_isFlush_eq cs), (client_isFlush_eq cs').
  pose proof (sameValues_map _ _ Hv) as Hmap.
  unfold Client.countRanks.
  rewrite (find_pointwise
             (fun r => Nat.eqb (length (List.filter (fun c => value c =? r) cs)) 4)
             (fun r => Nat.eqb (length (List.filter (fun c => value c =? r) cs')) 4))
    by (intros r; now rewrite (sameValues_count r _ _ Hv)).
  rewrite (List.filter_ext
             (fun r => Nat.eqb (length (List.filter (fun c => value c =? r) cs)) 3)
             (fun r => Nat.eqb (length (List.filter (fun c => value c =? r) cs')) 3))
    by (intros r; now rewrite (sameValues_count r _ _ Hv)).
  rewrite (List.filter_ext
             (fun r => Nat.eqb (length (List.filter (fun c => value c =? r) cs)) 2)
             (fun r => Nat.eqb (length (List.filter (fun c => value c =? r) cs')) 2))
    by (intros r; now rewrite (sameValues_count r _ _ Hv)).
  assert (Hst : forall a a', sameValues a a' -> Client.isStraight a = Client.isStraight a').
  { intros a a' H. unfold Client.isStraight. now rewrite (sameValues_map _ _ H). }
  rewrite (Hst _ _ Hv), Hmap.
  set (trips := sortDesc (fun v => v) (List.filter _ (integerKeys (map value cs')))).
  set (pairs := sortDesc (fun v => v) (List.filter _ (integerKeys (map value cs')))).
  assert (Hkick : forall P n i,
             Client.valueOr0 (take n (List.filter (fun c => P (value c)) cs) !! i)
             = Client.valueOr0 (take n (List.filter (fun c => P (value c)) cs') !! i)).
  { intros P n i. apply sameValues_lookup, Forall2_take, sameValues_filter, Hv. }
  rewrite (Hkick (fun v => negb (v =? default 0 (trips !! 0%nat))) 2%nat 0%nat).
  rewrite (Hkick (fun v => negb (v =? default 0 (trips !! 0%nat))) 2%nat 1%nat).
  rewrite (sameValues_kickerReduce
             (take 3 (List.filter (fun c => negb (value c =? default 0 (pairs !! 0%nat))) cs))
             (take 3 (List.filter (fun c => negb (value c =? default 0 (pairs !! 0%nat))) cs')))
    by (apply Forall2_take, (sameValues_filter (fun v => negb (v =? default 0 (pairs !! 0%nat)))), Hv).
  rewrite (sameValues_find
             (fun v => negb (v =? default 0 (pairs !! 0%nat))
                       && negb (v =? default 0 (pairs !! 1%nat))) cs cs' Hv).
  assert (Hq : forall q, Client.valueOr0 (List.find (fun c => negb (value c =? q)) cs)
                         = Client.valueOr0 (List.find (fun c => negb (value c =? q)) cs'))
    by (intros q; apply (sameValues_find (fun v => negb (v =? q))), Hv).
  destruct Hf as [fc fc' Hfc |].
  - rewrite (Hst _ _ Hfc).
    destruct (truthy _); [reflexivity |].
    destruct (List.find _ _) as [q |]; [now rewrite Hq |].
    destruct (_ && _); [reflexivity |].
    destruct Hfc as [| c c' fc fc' Hc _]; [reflexivity | now rewrite Hc].
  - cbn [truthy].
    destruct (List.find _ _) as [q |]; [now rewrite Hq |].
    destruct Hv as [| c c' cs cs' Hc _]; [reflexivity | now rewrite Hc].
Qed.

(** X5. Both evaluators, on hands of up to nine cards: the result depends on
    the cards held, not on their order nor on which of them are hole cards
    and which are on the board. *)
Theorem evaluateHand_ignores_card_order (hole board hole' board' : list Card) :
  hole ++ board ≡ₚ hole' ++ board' ->
  (length (hole ++ board) <= 9)%nat ->
  Server.evaluateHand hole board = Server.evaluateHand hole' board'
  /\ Client.evaluateHand hole board = Client.evaluateHand hole' board'.
Proof.
  intros Hp Hlen.
  assert (Hv : sameValues (sortDesc value (hole ++ board)) (sortDesc value (hole' ++ board'))).
  { rewrite <- (filter_true (sortDesc value (hole ++ board))).
    rewrite <- (filter_true (sortDesc value (hole' ++ board'))).
    now apply sorted_values_of_Permutation. }
  pose proof (isFlush_of_Permutation _ _ Hp Hlen) as Hf.
  split; [now apply server_evaluateHand_values | now apply client_evaluateHand_values].
Qed.

Lemma evaluateHand_ignores_card_order_witness :
  Server.evaluateHand wheelHole wheelBoard = Server.evaluateHand (rev wheelBoard) (rev wheelHole)
  /\ Client.evaluateHand wheelHole wheelBoard
     = Client.evaluateHand (rev wheelBoard) (rev wheelHole).
Proof.
  apply (evaluateHand_ignores_card_order wheelHole wheelBoard (rev wheelBoard) (rev wheelHole)).
  - rewrite <- rev_app_distr. apply Permutation_rev.
  - vm_compute. lia.
Defined.



Lemma isFlush_spec (cs : list Card) :
  match Server.isFlush cs with
  | Some fc =>
      exists s, (5 <= suitCount s cs)%nat
                /\ fc = take 5 (List.filter (fun c => bool_decide (suit c = s)) cs)
  | None => forall s, (suitCount s cs < 5)%nat
  end.
Proof.
  unfold Server.isFlush. cbn zeta.
  destruct (List.find _ _) as [s |] eqn:E.
  - apply find_some in E as [_ E]. apply Nat.leb_le in E. now exists s.
  - intros s. destruct (Nat.lt_ge_cases (suitCount s cs) 5) as [| Hge]; [assumption | exfalso].
    assert (Hin : In s (setOf (map suit cs))).
    { apply setOf_In. unfold suitCount in Hge.
      destruct (List.filter _ cs) as [| c l] eqn:Ef; [simpl in Hge; lia |].
      assert (Hc : In c (List.filter (fun c => bool_decide (suit c = s)) cs))
        by (rewrite Ef; now left).
      apply filter_In in Hc as [Hc Hs]. apply bool_decide_eq_true in Hs.
      apply in_map_iff. now exists c. }
    pose proof (find_none _ _ E _ Hin) as Hn. cbn beta in Hn.
    apply Nat.leb_gt in Hn. unfold suitCount in Hge. lia.
Qed.

(** The first of the flush cards of a hand sorted by value tops its suit. *)
Lemma flush_head (input : list Card) (c : Card) (fc : list Card) :
  Server.isFlush (sortDesc value input) = Some (c :: fc) -> flushTop input c.
Proof.
  intros H. pose proof (isFlush_spec (sortDesc value input)) as Hs. rewrite H in Hs.
  destruct Hs as (s & Hcount & Hfc).
  assert (Hperm : sortDesc value input ≡ₚ input) by apply stableSort_Permutation.
  set (F := List.filter (fun c => bool_decide (suit c = s)) (sortDesc value input)) in *.
  assert (HF : exists tl, F = c :: tl).
  { destruct F as [| x tl]; [discriminate |]. injection Hfc as -> _. now exists tl. }
  destruct HF as (tl & HF).
  assert (Hc : In c F) by (rewrite HF; now left).
  apply filter_In in Hc as [Hc Hsuit]. apply bool_decide_eq_true in Hsuit. subst s.
  split; [exact (proj1 (sortDesc_In value _ _) Hc) |].
  split; [now rewrite <- (suitCount_Permutation _ _ _ Hperm) |].
  intros c' Hc' Hs'.
  assert (Hin : In c' F).
  { apply filter_In. split; [exact (proj2 (sortDesc_In value _ _) Hc') | now apply bool_decide_eq_true]. }
  assert (Hsorted : StronglySorted (fun a b => value b <= value a) F)
    by apply StronglySorted_filter, sortDesc_sorted.
  rewrite HF in Hin, Hsorted. destruct Hin as [<- | Hin]; [lia |].
  apply StronglySorted_inv in Hsorted as [_ Hall].
  rewrite List.Forall_forall in Hall. now apply Hall.
Qed.

Lemma no_flush (input : list Card) :
  Server.isFlush (sortDesc value input) = None -> forall c, ~ flushTop input c.
Proof.
  intros H c (_ & Hcount & _).
  pose proof (isFlush_spec (sortDesc value input)) as Hs. rewrite H in Hs.
  specialize (Hs (suit c)).
  rewrite (suitCount_Permutation (suit c) (sortDesc value input) input) in Hs
    by apply stableSort_Permutation.
  lia.
Qed.

(** X6. The flush rung of both evaluators: when no higher category applies,
    [evaluateHand] answers Flush exactly when five cards of the hand share a
    suit, and the score is then 6,000,000 plus the value of the highest card
    of such a suit. *)
Theorem flush_rung (hole board : list Card) :
  (forall ev,
      Server.evaluateHand hole board = Some ev ->
      ~ In (Server.name ev) ["Straight Flush"; "Four of a Kind"; "Full House"] ->
      (Server.name ev = "Flush" <-> exists c, flushTop (hole ++ board) c)
      /\ (Server.name ev = "Flush" ->
          exists c, flushTop (hole ++ board) c /\ Server.score ev = 6000000 + value c))
  /\ (forall ev,
      Client.evaluateHand hole board = Some ev ->
      ~ In (Client.name ev) ["Straight Flush"; "Four of a Kind"; "Full House"] ->
      (Client.name ev = "Flush" <-> exists c, flushTop (hole ++ board) c)
      /\ (Client.name ev = "Flush" ->
          exists c, flushTop (hole ++ board) c
                    /\ Client.score ev = inject_Z (6000000 + value c))).
Proof.
  split; intros ev.
  - unfold Server.evaluateHand.
    pose proof (flush_head (hole ++ board)) as Hhead.
    pose proof (no_flush (hole ++ board)) as Hnone.
    set (cards := sortDesc value (hole ++ board)) in *.
    destruct (truthy _).
    { intros H; injection H as <-. cbn. tauto. }
    destruct (List.find _ _).
    { intros H; injection H as <-. cbn. tauto. }
    destruct (_ && _).
    { intros H; injection H as <-. cbn. tauto. }
    destruct (Server.isFlush cards) as [[| c fc] |]; [discriminate | |].
    + specialize (Hhead c fc eq_refl).
      intros H; injection H as <-. intros _. cbn. split; [split |]; eauto.
    + specialize (Hnone eq_refl).
      repeat match goal with
             | |- context [if ?c then _ else _] => destruct c
             end.
      5: destruct cards; [discriminate |].
      all: intros H; injection H as <-; intros _; cbn;
        split; [split; [discriminate | intros (c' & Hc'); now apply Hnone in Hc'] | discriminate].
  - unfold Client.evaluateHand. rewrite client_isFlush_eq.
    pose proof (flush_head (hole ++ board)) as Hhead.
    pose proof (no_flush (hole ++ board)) as Hnone.
    set (cards := sortDesc value (hole ++ board)) in *.
    destruct (truthy _).
    { intros H; injection H as <-. cbn. tauto. }
    destruct (List.find _ _).
    { intros H; injection H as <-. cbn. tauto. }
    destruct (_ && _).
    { intros H; injection H as <-. cbn. tauto. }
    destruct (Server.isFlush cards) as [[| c fc] |]; [discriminate | |].
    + specialize (Hhead c fc eq_refl).
      intros H; injection H as <-. intros _. cbn. split; [split |]; eauto.
    + specialize (Hnone eq_refl).
      repeat match goal with
             | |- context [if ?c then _ else _] => destruct c
             end.
      5: destruct cards; [discriminate |].
      all: intros H; injection H as <-; intros _; cbn;
        split; [split; [discriminate | intros (c' & Hc'); now apply Hnone in Hc'] | discriminate].
Qed.

Lemma flush_rung_witness :
  exists c, flushTop (aceFlushHole ++ aceFlushBoard) c /\ 6000014 = 6000000 + value c.
Proof.
  destruct (proj1 (flush_rung aceFlushHole aceFlushBoard)
              (Server.mkEval 6000014 "Flush") eq_refl) as [_ H].
  - cbn. intuition discriminate.
  - exact (H eq_refl).
Defined.

(** * More on the table *)

(** ** Sitting down and standing up *)

Lemma seatAt_nat (ps : list (option Player)) (i : nat) :
  seatAt ps (Z.of_nat i) = mjoin (ps !! i).
Proof.
  unfold seatAt, arrayGet. destruct (Z.ltb_spec (Z.of_nat i) 0); [lia |].
  now rewrite Nat2Z.id.
Qed.

(** X7. The server's [sit] and [standUp].  On an empty seat [sit] writes
    that seat only: a player with the socket's id, the buy-in as stack, no
    bet, SITTING_OUT, and the name sent (a default when it is empty); the
    table record changes in its log only.  [standUp] from the same socket
    then gives the seats back as they were, and from any other socket it
    changes nothing. *)
Theorem sit_then_standUp_frees_seat (socketId : string) (seatIndex : nat) (buyIn : Num)
    (name : string) (st : Table) :
  players st !! seatIndex = Some None ->
  let st1 := Server.sit socketId seatIndex buyIn name st in
  (exists shown,
      players st1 !! seatIndex
      = Some (Some (mkPlayer (SocketId socketId) shown buyIn (Int 0) SITTING_OUT []
                      false false false false))
      /\ (name <> "" -> shown = name))
  /\ (forall j, j <> seatIndex -> players st1 !! j = players st !! j)
  /\ sameButLogs (gameState st1) (gameState st)
  /\ players (Server.standUp socketId seatIndex st1) = players st
  /\ sameButLogs (gameState (Server.standUp socketId seatIndex st1)) (gameState st)
  /\ (forall other, other <> socketId -> Server.standUp other seatIndex st1 = st1).
Proof.
  intros Hempty st1.
  pose proof (lookup_lt_Some _ _ _ Hempty) as Hlt.
  assert (Hst1 : exists shown log,
             st1 = mkTable (<[seatIndex := Some (mkPlayer (SocketId socketId) shown buyIn (Int 0)
                                                   SITTING_OUT [] false false false false)]>
                              (players st))
                     (Server.addLog log (gameState st))
             /\ (name <> "" -> shown = name)).
  { unfold st1, Server.sit. rewrite seatAt_nat, Hempty. cbn [mjoin].
    unfold arraySet. destruct (Nat.ltb_spec seatIndex (length (players st))); [| lia].
    do 2 eexists. split; [reflexivity |].
    intros Hn. destruct (bool_decide_reflect (name = "")); [contradiction | reflexivity]. }
  destruct Hst1 as (shown & log & -> & Hshown).
  cbn [players gameState].
  assert (Hup : forall s,
             Server.standUp s seatIndex
               (mkTable (<[seatIndex := Some (mkPlayer (SocketId socketId) shown buyIn (Int 0)
                                                SITTING_OUT [] false false false false)]>
                           (players st))
                  (Server.addLog log (gameState st)))
             = if bool_decide (SocketId socketId = SocketId s)
               then mkTable (<[seatIndex := None]>
                               (<[seatIndex := Some (mkPlayer (SocketId socketId) shown buyIn (Int 0)
                                                       SITTING_OUT [] false false false false)]>
                                  (players st)))
                      (Server.addLog (shown +:+ " stood up.")
                         (Server.addLog log (gameState st)))
               else mkTable (<[seatIndex := Some (mkPlayer (SocketId socketId) shown buyIn (Int 0)
                                                    SITTING_OUT [] false false false false)]>
                               (players st))
                      (Server.addLog log (gameState st))).
  { intros s. unfold Server.standUp. cbn [players gameState].
    rewrite seatAt_nat, list_lookup_insert_eq by exact Hlt. reflexivity. }
  split; [exists shown; split; [now apply list_lookup_insert_eq | exact Hshown] |].
  split; [intros j Hj; now apply list_lookup_insert_ne |].
  split; [reflexivity |].
  rewrite Hup. rewrite bool_decide_eq_true_2 by reflexivity. cbn [players gameState].
  split; [rewrite list_insert_insert_eq; now apply list_insert_id |].
  split; [reflexivity |].
  intros other Hother. rewrite Hup. rewrite bool_decide_eq_false_2; [reflexivity |].
  intros E. injection E as E. congruence.
Qed.

Lemma sit_then_standUp_frees_seat_witness :
  players (Server.standUp "s0" 0 (Server.sit "s0" 0 (Int 1000) "Ann" Server.initialTable))
  = players Server.initialTable.
Proof.
  exact (proj1 (proj2 (proj2 (proj2
    (sit_then_standUp_frees_seat "s0" 0 (Int 1000) "Ann" Server.initialTable eq_refl))))).
Defined.

Lemma chipsOnSeats_vacate (ps : list (option Player)) (i : nat) (p : Player) :
  ps !! i = Some (Some p) ->
  chipsOnSeats (<[i := None]> ps) = chipsOnSeats ps - (amountOf (chips p) + amountOf (bet p)).
Proof.
  revert i. induction ps as [| o ps IH]; intros [| i] H; simpl in *; try discriminate.
  - injection H as ->. lia.
  - rewrite (IH i H). destruct o; lia.
Qed.

(** X8. The seat whose turn it is stands up, on the server: the hand is not
    folded for it and the turn pointer does not move, the seat's stack and
    bet leave the table, and from then on every action message is ignored:
    the hand cannot go on. *)
Theorem standUp_of_actor_halts_hand (socketId : string) (seatIndex : nat) (st : Table)
    (p : Player) :
  currentPlayerIndex (gameState st) = Z.of_nat seatIndex ->
  seatAt (players st) (Z.of_nat seatIndex) = Some p ->
  id p = SocketId socketId ->
  let st' := Server.standUp socketId seatIndex st in
  sameButLogs (gameState st') (gameState st)
  /\ players st' = <[seatIndex := None]> (players st)
  /\ totalMoney st' = totalMoney st - (amountOf (chips p) + amountOf (bet p))
  /\ forall act, Server.action act st' = Ok (st', false).
Proof.
  intros Hturn Hp Hid st'.
  assert (Hst' : st' = mkTable (<[seatIndex := None]> (players st))
                         (Server.addLog (Types.name p +:+ " stood up.") (gameState st))).
  { unfold st', Server.standUp. rewrite Hp, Hid.
    now rewrite bool_decide_eq_true_2 by reflexivity. }
  rewrite Hst'. cbn [players gameState].
  destruct (seatAt_lookup _ _ _ Hp) as [_ Hl]. rewrite Nat2Z.id in Hl.
  split; [reflexivity |]. split; [reflexivity |].
  split.
  - unfold totalMoney. cbn [players gameState].
    rewrite (chipsOnSeats_vacate _ _ _ Hl). cbn. lia.
  - intros act. unfold Server.action. cbn [players gameState].
    replace (currentPlayerIndex (Server.addLog _ (gameState st))) with (Z.of_nat seatIndex)
      by (now rewrite <- Hturn).
    destruct (_ =? -1); [reflexivity |].
    rewrite seatAt_nat, list_lookup_insert_eq by (now apply lookup_lt_Some in Hl).
    reflexivity.
Qed.

Lemma standUp_of_actor_halts_hand_witness :
  Server.action call (Server.standUp "s0" 0 preflopHeadsUp)
  = Ok (Server.standUp "s0" 0 preflopHeadsUp, false).
Proof.
  exact (proj2 (proj2 (proj2
    (standUp_of_actor_halts_hand "s0" 0 preflopHeadsUp annPreflop eq_refl eq_refl eq_refl)))
    call).
Defined.

(** ** The log *)

Lemma addLog_length (msg : string) (gs : GameState) :
  (length (logs gs) <= 50)%nat -> (length (logs (Server.addLog msg gs)) <= 50)%nat.
Proof.
  intros H. unfold Server.addLog. cbn [logs setLogs].
  destruct (Nat.ltb_spec 50 (length (logs gs ++ [msg]))) as [Hgt | Hle];
    [rewrite length_drop |]; rewrite length_app in *; simpl in *; lia.
Qed.

Lemma dealBoard_logs (n : nat) (gs gs' : GameState) :
  Server.dealBoard n gs = Ok gs' -> logs gs' = logs gs.
Proof.
  revert gs. induction n as [| n IH]; intros gs; simpl.
  - now intros [= <-].
  - destruct (pop (deck gs)) as [[c d] |]; simpl; [| discriminate].
    intros H. now rewrite (IH _ H).
Qed.

Lemma computeWinners_logs (st st' : Table) :
  Server.computeWinners st = Ok st' ->
  (length (logs (gameState st)) <= 50)%nat -> (length (logs (gameState st')) <= 50)%nat.
Proof.
  unfold Server.computeWinners. destruct (mapM _ _) as [evals | e]; simpl; [| discriminate].
  destruct (stableSort _ evals) as [| best rest].
  - now intros [= <-].
  - intros [= <-] H. cbn [gameState]. now apply addLog_length.
Qed.

Lemma handleShowdown_logs (b : bool) (st : Table) :
  (length (logs (gameState st)) <= 50)%nat ->
  (length (logs (gameState (Server.handleShowdown b st))) <= 50)%nat.
Proof.
  intros H. unfold Server.handleShowdown. destruct b; [| exact H].
  destruct (List.find _ _) as [[i w] |]; [| exact H].
  cbn [gameState]. cbn [logs setCurrentPlayerIndex setPhase setPot]. now apply addLog_length.
Qed.

Lemma fresh_logs (ps : list (option Player)) (dealt : Result GameState) (st' : Table) :
  (gs1 ← dealt;
   let gs2 := setMinBet (Int 0) (setLastRaiserIndex None (setCurrentBet (Int 0) gs1)) in
   nextIdx ← scanPlaying scanFuel ps (Z.rem (dealerIndex gs2 + 1) 9);
   Ok (mkTable ps (setCurrentPlayerIndex nextIdx gs2))) = Ok st' ->
  exists gs1, dealt = Ok gs1 /\ logs (gameState st') = logs gs1.
Proof.
  destruct dealt as [gs1 | e]; cbn [mbind Result_bind]; [| discriminate].
  cbv zeta.
  destruct (scanPlaying _ _ _) as [n | e]; cbn [mbind Result_bind]; [| discriminate].
  intros [= <-]. exists gs1. split; reflexivity.
Qed.

Lemma dealt_logs (n : nat) (ph : GamePhase) (msg : string) (gs gs1 : GameState) :
  (g ← Server.dealBoard n gs; Ok (Server.addLog msg (setPhase ph g))) = Ok gs1 ->
  (length (logs gs) <= 50)%nat -> (length (logs gs1) <= 50)%nat.
Proof.
  destruct (Server.dealBoard n gs) as [g | e] eqn:Hd; cbn [mbind Result_bind]; [| discriminate].
  intros [= <-] H. apply addLog_length. cbn [logs setPhase].
  now rewrite (dealBoard_logs _ _ _ Hd).
Qed.

Lemma nextPhase_logs (st st' : Table) :
  Server.nextPhase st = Ok st' ->
  (length (logs (gameState st)) <= 50)%nat -> (length (logs (gameState st')) <= 50)%nat.
Proof.
  unfold Server.nextPhase. cbv zeta. intros Hnext Hlen.
  change (logs (gameState st)) with (logs (gameState (Server.sweepBets st))) in Hlen.
  destruct (length _ =? 1)%nat.
  { injection Hnext as <-. exact (handleShowdown_logs true (Server.sweepBets st) Hlen). }
  destruct (phase (gameState (Server.sweepBets st))).
  - apply fresh_logs in Hnext as (gs1 & [= <-] & ->). exact Hlen.
  - apply fresh_logs in Hnext as (gs1 & Hd & ->). exact (dealt_logs _ _ _ _ _ Hd Hlen).
  - apply fresh_logs in Hnext as (gs1 & Hd & ->). exact (dealt_logs _ _ _ _ _ Hd Hlen).
  - apply fresh_logs in Hnext as (gs1 & Hd & ->). exact (dealt_logs _ _ _ _ _ Hd Hlen).
  - apply (computeWinners_logs _ _ Hnext). cbn [gameState]. apply addLog_length. exact Hlen.
  - injection Hnext as <-. exact Hlen.
Qed.

Lemma action_logs (act : Action) (st st' : Table) (armed : bool) :
  Server.action act st = Ok (st', armed) ->
  (length (logs (gameState st)) <= 50)%nat -> (length (logs (gameState st')) <= 50)%nat.
Proof.
  unfold Server.action. cbv zeta. intros Hact Hlen.
  destruct (_ =? -1); [now injection Hact as <- _ |].
  destruct (seatAt _ _) as [p |]; [| now injection Hact as <- _].
  destruct act as [| | | amount].
  4: destruct (_ >=? _)%num.
  all: cbv beta iota in Hact.
  all: match type of Hact with
       | context [if ?c then Ok _ else _] => destruct c
       end.
  all: try (destruct (Server.advanceTurn _ _ _ _) as [n | e];
            cbn [mbind Result_bind] in Hact; [| discriminate Hact]).
  all: injection Hact as <- _; cbn [gameState logs setCurrentPlayerIndex].
  all: apply addLog_length; exact Hlen.
Qed.

Ltac bind_ok H :=
  match type of H with
  | (?m ≫= _) = Ok _ =>
      destruct m as [? | ?]; cbn [mbind Result_bind] in H; [| discriminate H]
  | (let '(_, _) := ?x in _) = Ok _ => destruct x; cbv beta iota in H
  end.

Lemma startGame_logs (shuffled : list Card) (st st' : Table) :
  Server.startGame shuffled st = Ok st' ->
  (length (logs (gameState st)) <= 50)%nat -> (length (logs (gameState st')) <= 50)%nat.
Proof.
  unfold Server.startGame. cbv zeta. intros Hs Hlen.
  destruct (_ <? 2).
  { injection Hs as <-. now apply addLog_length. }
  do 8 bind_ok Hs.
  match type of Hs with (let '(_, _) := ?x in _) = _ => destruct x end.
  bind_ok Hs.
  injection Hs as <-. cbn [gameState]. apply addLog_length. cbn. lia.
Qed.

Lemma sit_logs (socketId : string) (seatIndex : nat) (buyIn : Num) (name : string)
    (st : Table) :
  (length (logs (gameState st)) <= 50)%nat ->
  (length (logs (gameState (Server.sit socketId seatIndex buyIn name st))) <= 50)%nat.
Proof.
  intros H. unfold Server.sit. destruct (seatAt _ _); [exact H |].
  cbn [gameState]. now apply addLog_length.
Qed.

Lemma standUp_logs (socketId : string) (seatIndex : nat) (st : Table) :
  (length (logs (gameState st)) <= 50)%nat ->
  (length (logs (gameState (Server.standUp socketId seatIndex st))) <= 50)%nat.
Proof.
  intros H. unfold Server.standUp. destruct (seatAt _ _); [| exact H].
  destruct (bool_decide _); [| exact H].
  cbn [gameState]. now apply addLog_length.
Qed.

(** X9. The server's log never holds more than 50 lines, whatever messages
    arrive and whenever the timer fires: every handler that returns keeps
    the bound. *)
Theorem server_log_never_exceeds_50 (st : Table) :
  Reachable st -> (length (logs (gameState st)) <= 50)%nat.
Proof.
  induction 1 as [| st st' _ IH Hstep].
  - vm_compute. lia.
  - destruct Hstep as [socketId seatIndex buyIn name st | socketId seatIndex st
                       | shuffled st st' Hs | act st st' armed Ha | st st' Hn].
    + now apply sit_logs.
    + now apply standUp_logs.
    + exact (startGame_logs _ _ _ Hs IH).
    + exact (action_logs _ _ _ _ Ha IH).
    + exact (nextPhase_logs _ _ Hn IH).
Qed.

Lemma Reachable_preflopHeadsUp : Reachable preflopHeadsUp.
Proof.
  apply (reach_step twoSeated); [| apply (step_startGame smallDeck); reflexivity].
  apply (reach_step (Server.sit "s0" 0 (Int 1000) "Ann" Server.initialTable));
    [| exact (step_sit "s1" 1 (Int 1000) "Bob" _)].
  apply (reach_step Server.initialTable); [exact reach_initial |].
  exact (step_sit "s0" 0 (Int 1000) "Ann" _).
Qed.

Lemma server_log_never_exceeds_50_witness :
  (length (logs (gameState preflopHeadsUp)) <= 50)%nat.
Proof. exact (server_log_never_exceeds_50 preflopHeadsUp Reachable_preflopHeadsUp). Defined.

(** ** The board comes off the deck *)

Lemma pop_last {A} (l r : list A) (x : A) : pop l = Some (x, r) -> l = r ++ [x].
Proof.
  unfold pop. destruct (rev l) as [| y s] eqn:E; [discriminate |].
  intros [= <- <-]. rewrite <- (rev_involutive l), E. reflexivity.
Qed.

Lemma dealBoard_moves (n : nat) (gs gs' : GameState) :
  Server.dealBoard n gs = Ok gs' ->
  exists drawn,
    length drawn = n
    /\ communityCards gs' = communityCards gs ++ drawn
    /\ deck gs = deck gs' ++ rev drawn.
Proof.
  revert gs. induction n as [| n IH]; intros gs; cbn [Server.dealBoard].
  - intros [= <-]. exists []. rewrite !app_nil_r. auto.
  - destruct (pop (deck gs)) as [[c d] |] eqn:Hpop; cbn [orThrow mbind Result_bind];
      [| discriminate].
    intros H. destruct (IH _ H) as (drawn & Hlen & Hboard & Hdeck).
    cbn [communityCards deck setCommunityCards setDeck] in Hboard, Hdeck.
    exists (c :: drawn). split; [simpl; now rewrite Hlen |].
    split.
    + rewrite Hboard, <- app_assoc. reflexivity.
    + rewrite (pop_last _ _ _ Hpop), Hdeck. cbn [rev]. now rewrite app_assoc.
Qed.

Lemma computeWinners_cards (st st' : Table) :
  Server.computeWinners st = Ok st' ->
  communityCards (gameState st') = communityCards (gameState st)
  /\ deck (gameState st') = deck (gameState st).
Proof.
  unfold Server.computeWinners. destruct (mapM _ _) as [evals | e]; cbn [mbind Result_bind];
    [| discriminate].
  destruct (stableSort _ evals) as [| best rest].
  - intros [= <-]. auto.
  - intros [= <-]. split; reflexivity.
Qed.

Lemma handleShowdown_cards (b : bool) (st : Table) :
  communityCards (gameState (Server.handleShowdown b st)) = communityCards (gameState st)
  /\ deck (gameState (Server.handleShowdown b st)) = deck (gameState st).
Proof.
  unfold Server.handleShowdown. destruct b; [| auto].
  destruct (List.find _ _) as [[i w] |]; [| auto]. split; reflexivity.
Qed.

Lemma fresh_cards (ps : list (option Player)) (dealt : Result GameState) (st' : Table) :
  (gs1 ← dealt;
   let gs2 := setMinBet (Int 0) (setLastRaiserIndex None (setCurrentBet (Int 0) gs1)) in
   nextIdx ← scanPlaying scanFuel ps (Z.rem (dealerIndex gs2 + 1) 9);
   Ok (mkTable ps (setCurrentPlayerIndex nextIdx gs2))) = Ok st' ->
  exists gs1, dealt = Ok gs1
    /\ communityCards (gameState st') = communityCards gs1
    /\ deck (gameState st') = deck gs1
    /\ phase (gameState st') = phase gs1.
Proof.
  destruct dealt as [gs1 | e]; cbn [mbind Result_bind]; [| discriminate].
  cbv zeta.
  destruct (scanPlaying _ _ _) as [n | e]; cbn [mbind Result_bind]; [| discriminate].
  intros [= <-]. exists gs1. repeat split; reflexivity.
Qed.

Lemma dealt_cards (n : nat) (ph : GamePhase) (msg : string) (gs gs1 : GameState) :
  (g ← Server.dealBoard n gs; Ok (Server.addLog msg (setPhase ph g))) = Ok gs1 ->
  phase gs1 = ph
  /\ exists drawn,
    length drawn = n
    /\ communityCards gs1 = communityCards gs ++ drawn
    /\ deck gs = deck gs1 ++ rev drawn.
Proof.
  destruct (Server.dealBoard n gs) as [g | e] eqn:Hd; cbn [mbind Result_bind]; [| discriminate].
  intros [= <-]. split; [reflexivity |]. exact (dealBoard_moves _ _ _ Hd).
Qed.

Lemma inHand_swept (ps : list (option Player)) :
  length (List.filter inHand (seated (map (option_map swept) ps)))
  = length (List.filter inHand (seated ps)).
Proof.
  unfold seated.
  induction ps as [| [p |] ps IH]; cbn [map option_map omap list_omap]; [reflexivity | | exact IH].
  cbn [List.filter]. change (inHand (swept p)) with (inHand p).
  destruct (inHand p); cbn [length]; now rewrite IH.
Qed.


Lemma computeWinners_phase (st st' : Table) :
  Server.computeWinners st = Ok st' -> phase (gameState st') = phase (gameState st).
Proof.
  unfold Server.computeWinners. destruct (mapM _ _) as [evals | e]; cbn [mbind Result_bind];
    [| discriminate].
  destruct (stableSort _ evals) as [| best rest]; intros [= <-]; reflexivity.
Qed.

Lemma handleShowdown_alone (st : Table) :
  length (List.filter inHand (seated (players st))) = 1%nat ->
  phase (gameState (Server.handleShowdown true st)) = SHOWDOWN.
Proof.
  intros H. unfold Server.handleShowdown.
  rewrite find_head_filter.
  rewrite (seated_seatedFrom 0), filter_map_comm, length_map in H.
  fold (seatedWithIndex (players st)) in H.
  destruct (List.filter _ (seatedWithIndex (players st))) as [| [i w] l]; [discriminate |].
  reflexivity.
Qed.



(** ** The client ends a hand that a single seat is left in *)

Lemma orZero_whole (p : Player) : whole (bet p) -> orZero (option_map bet (Some p)) = bet p.
Proof.
  unfold whole. intros H. cbn [option_map orZero]. rewrite H.
  unfold Js.truthy, Int, inject_Z. cbn [Qnum].
  destruct (Z.eqb_spec (amountOf (bet p)) 0) as [-> | _]; reflexivity.
Qed.

Lemma reduce_bets (ps : list (option Player)) (acc : Z) :
  wholeSeats ps ->
  Z.abs acc + seatsMagnitude ps <= MAX_SAFE_INTEGER ->
  fold_left (fun a o => a + orZero (option_map bet o))%num ps (Int acc)
  = Int (acc + betsOnSeats ps).
Proof.
  revert acc. induction ps as [| [p |] ps IH]; intros acc Hw Hm; cbn [fold_left].
  - simpl. f_equal. lia.
  - apply wholeSeats_cons in Hw as [[Hc Hb] Hw]. rewrite (orZero_whole p Hb).
    simpl in Hm |- *. pose proof (seatsMagnitude_nonneg ps).
    unfold whole in Hb. set (b := amountOf (bet p)) in *. clearbody b.
    rewrite Hb, add_Int by lia.
    rewrite IH by (auto; lia). f_equal. lia.
  - apply wholeSeats_cons in Hw as [_ Hw]. simpl in Hm |- *.
    pose proof (seatsMagnitude_nonneg ps).
    cbn [option_map orZero]. rewrite add_Int by lia.
    rewrite IH by (auto; lia). f_equal. lia.
Qed.

Lemma betsOnSeats_credit (amt : Num) (ps : list (option Player)) (i : nat) :
  betsOnSeats (Server.credit amt ps i) = betsOnSeats ps.
Proof.
  unfold Server.credit, alter. revert i.
  induction ps as [| [p |] ps IH]; intros [| i]; simpl; rewrite ?IH; reflexivity.
Qed.

(** X11. The client's turn effect when one seat is left in a hand in
    progress, on a safe table: the hand ends at once; the seat's stack takes
    the pot and every current-round bet, its own included; the phase is
    SHOWDOWN, the turn pointer -1, the pot 0, one winner record is written,
    and the board and the deck stay as they are.  No other seat changes, and
    the bets themselves stay on the seats: the sweep that zeroes them is not
    run. *)
Theorem client_turnEffect_sole_survivor (st : Table) (i : nat) (w : Player) :
  phase (gameState st) <> IDLE ->
  phase (gameState st) <> SHOWDOWN ->
  List.filter (fun ip => inHand (snd ip)) (seatedWithIndex (players st)) = [(i, w)] ->
  wholeTable st ->
  magnitude st <= MAX_SAFE_INTEGER ->
  let prize := amountOf (pot (gameState st)) + betsOnSeats (players st) in
  exists st',
    Client.turnEffect st = (st', false)
    /\ players st' !! i = Some (Some (setChips (Int (amountOf (chips w) + prize)) w))
    /\ (forall j, j <> i -> players st' !! j = players st !! j)
    /\ betsOnSeats (players st') = betsOnSeats (players st)
    /\ phase (gameState st') = SHOWDOWN
    /\ currentPlayerIndex (gameState st') = -1
    /\ pot (gameState st') = Int 0
    /\ winners (gameState st') = [mkWinner (id w) "Opponents Folded" (Int prize)]
    /\ communityCards (gameState st') = communityCards (gameState st)
    /\ deck (gameState st') = deck (gameState st).
Proof.
  intros Hidle Hshow Hone Hwhole Hm prize.
  assert (Hw : players st !! i = Some (Some w)).
  { apply seatedWithIndex_lookup.
    apply (filter_In (fun ip => inHand (snd ip)) (i, w)). rewrite Hone. now left. }
  pose proof Hwhole as (Hseats & Hpot & _).
  assert (Hprize : (pot (gameState st)
                    + fold_left (fun a o => a + orZero (option_map bet o)) (players st) (Int 0))%num
                   = Int prize).
  { unfold magnitude in Hm. pose proof (betsOnSeats_bound (players st)).
    rewrite (reduce_bets _ 0 Hseats) by lia.
    unfold whole in Hpot. rewrite Hpot at 1. rewrite add_Int by lia. reflexivity. }
  assert (Hcredit : (chips w + Int prize)%num = Int (amountOf (chips w) + prize)).
  { destruct (Hseats _ _ Hw) as [Hc _].
    pose proof (stack_and_bets_bound _ _ _ Hw). unfold magnitude in Hm.
    unfold whole in Hc. rewrite Hc at 1. apply add_Int. unfold prize. lia. }
  unfold Client.turnEffect. cbv zeta.
  rewrite (bool_decide_eq_false_2 _ Hidle), (bool_decide_eq_false_2 _ Hshow).
  cbn [orb].
  rewrite (seated_seatedFrom 0), filter_map_comm.
  fold (seatedWithIndex (players st)). rewrite Hone. cbn [length map Nat.eqb].
  rewrite Hprize. unfold Client.handleShowdown.
  rewrite find_head_filter, Hone. cbn [head].
  eexists. split; [reflexivity |]. cbn [players gameState].
  rewrite client_credit_eq.
  split; [rewrite <- Hcredit; now apply credit_lookup |].
  split; [intros j Hj; now apply credit_lookup_other |].
  split; [apply betsOnSeats_credit | repeat split].
Qed.

Lemma wholeTable_folded : wholeTable (Client.handleAction fold preflopHeadsUp).
Proof.
  split; [| split; reflexivity].
  intros [| [| [| [| [| [| [| [| [| i]]]]]]]]] p Hp; try discriminate;
    injection Hp as <-; split; reflexivity.
Qed.

Lemma client_turnEffect_sole_survivor_witness :
  exists st',
    Client.turnEffect (Client.handleAction fold preflopHeadsUp) = (st', false)
    /\ option_map chips (mjoin (players st' !! 1%nat)) = Some (Int 1010)
    /\ phase (gameState st') = SHOWDOWN.
Proof.
  destruct (client_turnEffect_sole_survivor (Client.handleAction fold preflopHeadsUp) 1
              (default annPreflop (seatAt (players preflopHeadsUp) 1)))
    as (st' & Hrun & Hwin & _ & _ & Hphase & _).
  - discriminate.
  - discriminate.
  - reflexivity.
  - exact wholeTable_folded.
  - vm_compute. discriminate.
  - exists st'. split; [exact Hrun |]. split; [| exact Hphase].
    rewrite Hwin. reflexivity.
Defined.

(** ** The next seat to act, on the client *)

Lemma nextActiveLoop_step (count : nat) (ps : list (option Player)) (i : Z) :
  Client.nextActiveLoop (S count) ps i
  = if canAct (seatAt ps i) then i else Client.nextActiveLoop count ps (Z.rem (i + 1) 9).
Proof.
  cbn [Client.nextActiveLoop]. unfold canAct.
  destruct (seatAt ps i) as [p |]; reflexivity.
Qed.

Lemma nextActiveLoop_first (count : nat) (ps : list (option Player)) (i : Z) :
  0 <= i < 9 ->
  (Client.nextActiveLoop count ps i = -1
   /\ forall k, 0 <= k < Z.of_nat count -> canAct (seatAt ps ((i + k) mod 9)) = false)
  \/ (exists k, 0 <= k < Z.of_nat count
        /\ Client.nextActiveLoop count ps i = (i + k) mod 9
        /\ canAct (seatAt ps ((i + k) mod 9)) = true
        /\ forall k', 0 <= k' < k -> canAct (seatAt ps ((i + k') mod 9)) = false).
Proof.
  revert i. induction count as [| count IH]; intros i Hi.
  - left. split; [reflexivity | intros k Hk; lia].
  - rewrite nextActiveLoop_step.
    destruct (canAct (seatAt ps i)) eqn:Hcan.
    + right. exists 0. rewrite Z.add_0_r, Z.mod_small by lia.
      split; [lia |]. split; [reflexivity |]. split; [exact Hcan |]. intros k' Hk'. lia.
    + rewrite Z.rem_mod_nonneg by lia.
      assert (Hshift : forall k, ((i + 1) mod 9 + k) mod 9 = (i + (k + 1)) mod 9).
      { intros k. rewrite Z.add_mod_idemp_l by lia. f_equal. lia. }
      assert (Hhead : forall k, 0 <= k -> (forall k', 0 <= k' < k ->
                        canAct (seatAt ps (((i + 1) mod 9 + k') mod 9)) = false) ->
                      forall k', 0 <= k' < k + 1 ->
                        canAct (seatAt ps ((i + k') mod 9)) = false).
      { intros k Hk Hall k' Hk'. destruct (Z.eq_dec k' 0) as [-> | Hne].
        - rewrite Z.add_0_r, Z.mod_small by lia. exact Hcan.
        - specialize (Hall (k' - 1) ltac:(lia)). rewrite Hshift in Hall.
          now replace (k' - 1 + 1) with k' in Hall by lia. }
      destruct (IH ((i + 1) mod 9) ltac:(apply Z.mod_pos_bound; lia))
        as [[Hnone Hall] | (k & Hk & Hres & Hcank & Hall)].
      * left. split; [exact Hnone |].
        intros k Hk. apply (Hhead (Z.of_nat count)); [lia | exact Hall | lia].
      * right. exists (k + 1). rewrite <- Hshift.
        split; [lia |]. split; [exact Hres |]. split; [exact Hcank |].
        intros k' Hk'. apply (Hhead k); [lia | exact Hall | lia].
Qed.

(** X12. The client's [getNextActivePlayerIndex]: from a start index from
    -1 to 8 it returns the first seat after the start, going round the nine
    seats once, that holds a PLAYING player with chips: every seat passed
    on the way holds none; it returns -1 exactly when no seat of the table
    holds one, the start seat included. *)
Theorem getNextActivePlayerIndex_first (startIndex : Z) (ps : list (option Player)) :
  -1 <= startIndex < 9 ->
  let next := Client.getNextActivePlayerIndex startIndex ps in
  (next = -1 /\ forall j, 0 <= j < 9 -> canAct (seatAt ps j) = false)
  \/ (exists k, 0 <= k < 9
        /\ next = (startIndex + 1 + k) mod 9
        /\ canAct (seatAt ps next) = true
        /\ forall k', 0 <= k' < k ->
             canAct (seatAt ps ((startIndex + 1 + k') mod 9)) = false).
Proof.
  intros Hs next. unfold next, Client.getNextActivePlayerIndex.
  rewrite Z.rem_mod_nonneg by lia.
  assert (Hshift : forall k, ((startIndex + 1) mod 9 + k) mod 9 = (startIndex + 1 + k) mod 9).
  { intros k. now rewrite Z.add_mod_idemp_l by lia. }
  destruct (nextActiveLoop_first 9 ps ((startIndex + 1) mod 9)
              ltac:(apply Z.mod_pos_bound; lia))
    as [[Hnone Hall] | (k & Hk & Hres & Hcank & Hall)].
  - left. split; [exact Hnone |]. intros j Hj.
    specialize (Hall ((j - (startIndex + 1) mod 9) mod 9)
                  ltac:(pose proof (Z.mod_pos_bound (j - (startIndex + 1) mod 9) 9); lia)).
    rewrite Z.add_mod_idemp_r in Hall by lia.
    replace ((startIndex + 1) mod 9 + (j - (startIndex + 1) mod 9)) with j in Hall by lia.
    now rewrite Z.mod_small in Hall by lia.
  - right. exists k. rewrite Hres, <- Hshift.
    split; [lia |]. split; [reflexivity |]. split; [exact Hcank |].
    intros k' Hk'. rewrite <- Hshift. now apply Hall.
Qed.

Lemma getNextActivePlayerIndex_first_witness :
  Client.getNextActivePlayerIndex 0 (players preflopHeadsUp) = 1.
Proof.
  destruct (getNextActivePlayerIndex_first 0 (players preflopHeadsUp) ltac:(lia))
    as [[_ Hall] | (k & _ & _ & _ & _)].
  - specialize (Hall 1 ltac:(lia)). discriminate Hall.
  - reflexivity.
Defined.

(** ** Nobody left to act *)

Lemma isPlaying_swept (ps : list (option Player)) (k : Z) :
  isPlaying (seatAt (map (option_map swept) ps) k) = isPlaying (seatAt ps k).
Proof.
  unfold seatAt, arrayGet. destruct (k <? 0); [reflexivity |].
  rewrite lookup_map. destruct (ps !! Z.to_nat k) as [[p |] |]; reflexivity.
Qed.

(** X13. The server's [nextPhase] when no seat is PLAYING, as after every
    player left in the hand has gone all-in: with more than one seat in the
    hand and before the river, the board is dealt and the scan for the next
    seat to act then never ends; the handler does not return, however long
    it runs. *)
Theorem nextPhase_spins_when_nobody_plays (st : Table) :
  (forall k, 0 <= k < 9 -> isPlaying (seatAt (players st) k) = false) ->
  length (List.filter inHand (seated (players st))) <> 1%nat ->
  In (phase (gameState st)) [IDLE; PREFLOP; FLOP; TURN] ->
  (dealtIn (phase (gameState st)) <= length (deck (gameState st)))%nat ->
  -1 <= dealerIndex (gameState st) < 9 ->
  Server.nextPhase st = Fail Diverges
  /\ forall fuel,
       scanPlaying fuel (players (Server.sweepBets st))
         (Z.rem (dealerIndex (gameState st) + 1) 9) = Fail Diverges.
Proof.
  intros Hnone Hmany Hphase Hdeck Hdealer.
  assert (Hscan : forall fuel,
             scanPlaying fuel (players (Server.sweepBets st))
               (Z.rem (dealerIndex (gameState st) + 1) 9) = Fail Diverges).
  { intros fuel. apply scanPlaying_no_seat.
    - intros k Hk. unfold Server.sweepBets; cbn [players]. fold swept.
      rewrite isPlaying_swept. now apply Hnone.
    - pose proof (Z.rem_bound_abs (dealerIndex (gameState st) + 1) 9 ltac:(lia)). lia. }
  split; [| exact Hscan].
  unfold Server.nextPhase. cbv zeta.
  assert (Hsame : length (List.filter inHand (seated (players (Server.sweepBets st))))
                  = length (List.filter inHand (seated (players st))))
    by apply inHand_swept.
  rewrite Hsame. destruct (Nat.eqb_spec (length (List.filter inHand (seated (players st)))) 1)
    as [E | _]; [contradiction |].
  change (phase (gameState (Server.sweepBets st))) with (phase (gameState st)).
  assert (Hdeal : forall n, (n <= length (deck (gameState st)))%nat ->
             exists gs1, Server.dealBoard n (gameState (Server.sweepBets st)) = Ok gs1
                         /\ dealerIndex gs1 = dealerIndex (gameState st)).
  { change (deck (gameState st)) with (deck (gameState (Server.sweepBets st))).
    change (dealerIndex (gameState st)) with (dealerIndex (gameState (Server.sweepBets st))).
    generalize (gameState (Server.sweepBets st)). intros gs n. revert gs.
    induction n as [| n IH]; intros gs Hn; cbn [Server.dealBoard].
    - exists gs. auto.
    - destruct (pop (deck gs)) as [[c d] |] eqn:Hpop.
      + cbn [orThrow mbind Result_bind].
        destruct (IH (setCommunityCards (communityCards gs ++ [c]) (setDeck d gs)))
          as (gs1 & -> & Hd).
        * cbn [deck setCommunityCards setDeck]. apply pop_last in Hpop.
          rewrite Hpop, length_app in Hn. simpl in Hn. lia.
        * exists gs1. auto.
      + unfold pop in Hpop. destruct (rev (deck gs)) as [| x r] eqn:Hr; [| discriminate].
        apply (f_equal (@length Card)) in Hr. rewrite length_rev in Hr. simpl in Hr, Hn. lia. }
  destruct (phase (gameState st)) eqn:Hph; cbn [dealtIn] in Hdeck.
  5, 6: simpl in Hphase; intuition discriminate.
  - cbn [mbind Result_bind]. now rewrite Hscan.
  - destruct (Hdeal 3%nat Hdeck) as (gs1 & -> & Hd). cbn [mbind Result_bind].
    cbn [dealerIndex setMinBet setLastRaiserIndex setCurrentBet Server.addLog setLogs setPhase].
    rewrite Hd, Hscan. reflexivity.
  - destruct (Hdeal 1%nat Hdeck) as (gs1 & -> & Hd). cbn [mbind Result_bind].
    cbn [dealerIndex setMinBet setLastRaiserIndex setCurrentBet Server.addLog setLogs setPhase].
    rewrite Hd, Hscan. reflexivity.
  - destruct (Hdeal 1%nat Hdeck) as (gs1 & -> & Hd). cbn [mbind Result_bind].
    cbn [dealerIndex setMinBet setLastRaiserIndex setCurrentBet Server.addLog setLogs setPhase].
    rewrite Hd, Hscan. reflexivity.
Qed.

Lemma nextPhase_spins_when_nobody_plays_witness :
  Server.nextPhase bothAllIn = Fail Diverges.
Proof.
  refine (proj1 (nextPhase_spins_when_nobody_plays bothAllIn _ _ _ _ _)).
  - intros k Hk.
    assert (Hc : k = 0 \/ k = 1 \/ k = 2 \/ k = 3 \/ k = 4 \/ k = 5 \/ k = 6 \/ k = 7 \/ k = 8)
      by lia.
    destruct Hc as [-> | [-> | [-> | [-> | [-> | [-> | [-> | [-> | ->]]]]]]]]; reflexivity.
  - vm_compute. discriminate.
  - vm_compute. tauto.
  - vm_compute. lia.
  - vm_compute. split; [discriminate | reflexivity].
Defined.

(** ** Witnesses of the general lemmas above *)

Lemma wholeTable_loneSeat : wholeTable loneSeat.
Proof.
  split; [| split; reflexivity].
  intros [| [| [| [| [| [| [| [| [| i]]]]]]]]] p Hp; try discriminate;
    injection Hp as <-; split; reflexivity.
Qed.

Lemma nextPhase_sole_survivor_witness :
  exists st',
    Server.nextPhase loneSeat = Ok st'
    /\ option_map chips (mjoin (players st' !! 1%nat)) = Some (Int 1010)
    /\ phase (gameState st') = SHOWDOWN
    /\ pot (gameState st') = Int 0.
Proof.
  destruct (nextPhase_sole_survivor loneSeat 1 bobAlone eq_refl wholeTable_loneSeat)
    as (st' & Hrun & Hwin & _ & Hphase & _ & Hpot & _).
  - vm_compute. discriminate.
  - exists st'. split; [exact Hrun |]. split; [| split; [exact Hphase | exact Hpot]].
    rewrite Hwin. reflexivity.
Defined.


Lemma client_rejects_check_when_call_owed_witness :
  Client.handleAction check preflopHeadsUp = preflopHeadsUp.
Proof.
  apply (client_rejects_check_when_call_owed preflopHeadsUp annPreflop).
  - reflexivity.
  - repeat split. vm_compute. discriminate.
  - reflexivity.
Defined.

Lemma client_straight_rung_witness :
  exists hi,
    holdsRun (wheelHole ++ wheelBoard) hi
    /\ (forall h, holdsRun (wheelHole ++ wheelBoard) h -> h <= hi)
    /\ inject_Z 5000005 = inject_Z (5000000 + hi).
Proof.
  destruct (client_straight_rung wheelHole wheelBoard
              (Client.mkEval (inject_Z 5000005) "Straight") eq_refl) as [_ H].
  - cbn. intuition discriminate.
  - exact (H eq_refl).
Defined.
